(** * MonteCarlo-Poker: equity engine and daemon request loop

    A shallow embedding of [simulator.cpp], [tools.cpp] and [main.cpp].
    C++ [int] values are integers of [Z] reduced by [wrap32] (signed
    overflow, undefined in C++, wraps around); a [std::vector] is a list,
    read through [vget], which fails outside the vector; the diagnostic
    stream is the log carried by [result]. The tables of the simulator, the
    random sample generator and the card codec are not part of the sources
    and are arguments of the functions that use them. *)

From Stdlib Require Import ZArith Lia Ascii.
From stdpp Require Import base tactics option list sorting strings.

Open Scope Z_scope.

(** ** Machine integers *)

(** Two's complement reduction of an integer to a 32-bit [int]. *)
Definition wrap32 (z : Z) : Z := (z + 2^31) mod 2^32 - 2^31.

(** [static_cast<int>(v.size())]. *)
Definition isize {A} (v : list A) : Z := wrap32 (Z.of_nat (length v)).

(** ** Diagnostics and the evaluation monad *)

(** The vectors that are indexed by a computed position. *)
Inductive vec_id :=
| VTable | VCTable | VReplace | VHand | VSelection
| VSample | VRemaining | VKnownHand | VResults.

(** Lines written to the diagnostic stream. *)
Inductive diag :=
| ErrCkeyIndex (table_index : Z)   (* Index out of bounds in to_ckey *)
| ErrSelectionSize                 (* Selection vector size less than 7 *)
| ErrKeyBounds (key : Z)           (* Key out of bounds in evaluate_selection *)
| ErrNotEnoughCards                (* Not enough cards remaining to fill empty slots *)
| WarnSampleIndex                  (* Sample index out of range *)
| ErrNoSamples                     (* No samples available for calculation *)
| ErrInvalidCard (card : string)   (* Invalid card *)
| ErrCannotOpen                    (* Cannot open file / lookup table file *)
| ErrInvalidFileSize (fsize : Z)   (* Invalid file size for lookup table *)
| ErrReadFailed                    (* Failed to read lookup table *)
| InfoLoading                      (* Loading lookup table... *)
| InfoLoaded                       (* Lookup table loaded successfully *)
| InfoDaemonStart                  (* [DAEMON MARKER] Start: main.cpp compiled and running *)
| InfoExit.                        (* Received EXIT command *)

(** A computation either ends with a value and the diagnostics it wrote,
    or indexes a vector outside its bounds (undefined behaviour in C++). *)
Inductive result (A : Type) :=
| Ok (a : A) (log : list diag)
| OutOfRange (v : vec_id).
Arguments Ok {A} a log.
Arguments OutOfRange {A} v.

#[global] Instance result_ret : MRet result := λ A a, Ok a [].
#[global] Instance result_bind : MBind result := λ A B f m,
  match m with
  | Ok a l =>
      match f a with
      | Ok b l' => Ok b (l ++ l')
      | OutOfRange v => OutOfRange v
      end
  | OutOfRange v => OutOfRange v
  end.

Definition report (d : diag) : result unit := Ok () [d].

(** The exceptions the program throws and catches: the two of [std::stoi],
    and [std::length_error] of the constructor of a vector that is asked for
    more than [max_size()] elements. A function that may throw returns the
    exception in place of its value, after the diagnostics written so far. *)
Inductive exn := InvalidArgument | OutOfRangeError | LengthError.

(** [v[i]] for an index of type [int]. *)
Definition vget {A} (id : vec_id) (v : list A) (i : Z) : result A :=
  if 0 <=? i then
    match v !! Z.to_nat i with
    | Some x => Ok x []
    | None => OutOfRange id
    end
  else OutOfRange id.

(** [v[i] = x]. *)
Definition vset {A} (id : vec_id) (v : list A) (i : Z) (x : A) : result (list A) :=
  if (0 <=? i) && (i <? Z.of_nat (length v)) then Ok (<[Z.to_nat i := x]> v) []
  else OutOfRange id.

(** [0 <= i && i < static_cast<int>(v.size())]. *)
Definition in_bounds {A} (i : Z) (v : list A) : bool :=
  (0 <=? i) && (i <? isize v).

(** ** simulator.cpp *)

(** The tables held by a [Simulator]: the score table, the contribution
    table and the substitution table. *)
Record Simulator := {
  table : list Z;
  c_table : list Z;
  replace : list Z
}.

Fixpoint to_ckey_from (sim : Simulator) (i : Z) (hand : list Z) (key : Z) : result Z :=
  match hand with
  | [] => mret key
  | card :: rest =>
      let table_index := wrap32 ((i + 1) * 53 + card) in
      if in_bounds table_index (c_table sim) then
        c ← vget VCTable (c_table sim) table_index;
        to_ckey_from sim (i + 1) rest (wrap32 (key + c))
      else
        report (ErrCkeyIndex table_index);; mret 0
  end.

Definition to_ckey (sim : Simulator) (hand : list Z) : result Z :=
  to_ckey_from sim 0 hand 0.

(** [std::sort] on a vector of [int]. *)
Definition sort (v : list Z) : list Z := merge_sort Z.le v.

(** The variables of the substitution loop of [evaluate_selection]. *)
Record eval_state := {
  es_key : Z;
  es_hand : list Z;
  es_max : Z
}.

(** One iteration of the loop [for (j = 0; j < 40; j += 2)]. *)
Definition replace_step (sim : Simulator) (selection : list Z) (j : Z)
    (st : eval_state) : result eval_state :=
  if isize (replace sim) <=? j + 1 then mret st else
  rj ← vget VReplace (replace sim) j;
  if 5 <=? rj then mret st else
  rj1 ← vget VReplace (replace sim) (j + 1);
  if isize selection <=? rj1 then mret st else
  let ix_k := wrap32 ((rj + 1) * 53) in
  s ← vget VSelection selection rj1;
  let index1 := wrap32 (ix_k + s) in
  h ← vget VHand (es_hand st) rj;
  let index2 := wrap32 (ix_k + h) in
  if in_bounds index1 (c_table sim) && in_bounds index2 (c_table sim) then
    c1 ← vget VCTable (c_table sim) index1;
    c2 ← vget VCTable (c_table sim) index2;
    let key := wrap32 (es_key st + wrap32 (c1 - c2)) in
    hand ← vset VHand (es_hand st) rj s;
    if in_bounds key (table sim) then
      t ← vget VTable (table sim) key;
      mret {| es_key := key; es_hand := hand; es_max := Z.max (es_max st) t |}
    else
      mret {| es_key := key; es_hand := hand; es_max := es_max st |}
  else mret st.

Fixpoint replace_loop (sim : Simulator) (selection : list Z) (n : nat) (j : Z)
    (st : eval_state) : result eval_state :=
  match n with
  | O => mret st
  | S n' =>
      st' ← replace_step sim selection j st;
      replace_loop sim selection n' (j + 2) st'
  end.

Definition evaluate_selection (sim : Simulator) (selection0 : list Z) : result Z :=
  let selection := sort selection0 in
  if (length selection <? 7)%nat then
    report ErrSelectionSize;; mret (-1)
  else
    hand ← mapM (λ i, vget VSelection selection (i + 2)) [0; 1; 2; 3; 4];
    key ← to_ckey sim hand;
    if (key <? 0) || (isize (table sim) <=? key) then
      report (ErrKeyBounds key);; mret 0
    else
      max_score ← vget VTable (table sim) key;
      st ← replace_loop sim selection 20 0
             {| es_key := key; es_hand := hand; es_max := max_score |};
      mret (es_max st).

Definition mark_filled (filled : list Z) (card : Z) : list Z :=
  if (0 <=? card) && (card <? 52) then <[Z.to_nat card := 1]> filled else filled.

Definition get_remaining (comm_hand : list Z) (known_hands : list (list Z)) : list Z :=
  let filled := foldl mark_filled (replicate 52 0) comm_hand in
  let filled := foldl (foldl mark_filled) filled known_hands in
  filter (λ i, filled !! Z.to_nat i = Some 0) (seqZ 0 52).

(** The inner loop of [fill_empty] on one sample, from position [i] on:
    positions below [c] and below the sample's size are mapped through
    [remaining]. [len] is [static_cast<int>(sample.size())]. *)
Fixpoint relabel_from (remaining : list Z) (c len i : Z) (sample : list Z)
    : result (list Z) :=
  match sample with
  | [] => mret []
  | s :: rest =>
      if (i <? c) && (i <? len) then
        s' ← (if in_bounds s remaining then vget VRemaining remaining s
              else report WarnSampleIndex;; mret s);
        rest' ← relabel_from remaining c len (i + 1) rest;
        mret (s' :: rest')
      else mret (s :: rest)
  end.

(** [gen_samples] of [samples.h] is the random generator; the samples one
    call returns are the argument [draw]. *)
Definition fill_empty (draw : Z → Z → Z → list (list Z)) (N : Z)
    (comm_hand : list Z) (known_hands : list (list Z)) (players_unknown : Z)
    : result (list (list Z)) :=
  let remaining := get_remaining comm_hand known_hands in
  let c := wrap32 (players_unknown * 2 + 5 - isize comm_hand) in
  if isize remaining <? c then
    report ErrNotEnoughCards;; mret []
  else
    let samples := draw N c (isize remaining) in
    mapM (λ sample, relabel_from remaining c (isize sample) 0 sample) samples.

Definition update_winners (my_val max_val ix : Z) (winners : list Z) : Z * list Z :=
  if max_val <? my_val then (my_val, [ix])
  else if my_val =? max_val then (max_val, winners ++ [ix])
  else (max_val, winners).

(** The variables of [simulate]: the selection buffer (shared with the
    caller), the running maximum and the winners found so far. [ss_seats]
    is not a variable of the program: it records, in order, the seats
    handed to [update_winners] with their scores. *)
Record sim_state := {
  ss_selection : list Z;
  ss_max : Z;
  ss_winners : list Z;
  ss_seats : list (Z * Z)
}.

(** The body shared by the two loops of [simulate]: seat [ix] holds the
    cards [c1] and [c2]. *)
Definition seat_eval (sim : Simulator) (c1 c2 ix : Z) (st : sim_state)
    : result sim_state :=
  sel ← vset VSelection (ss_selection st) 5 c1;
  sel ← vset VSelection sel 6 c2;
  eval_result ← evaluate_selection sim sel;
  if 0 <=? eval_result then
    let mw := update_winners eval_result (ss_max st) ix (ss_winners st) in
    mret {| ss_selection := sel; ss_max := mw.1; ss_winners := mw.2;
            ss_seats := ss_seats st ++ [(ix, eval_result)] |}
  else
    mret {| ss_selection := sel; ss_max := ss_max st;
            ss_winners := ss_winners st; ss_seats := ss_seats st |}.

Fixpoint simulate_known (sim : Simulator) (i : Z) (known_hands : list (list Z))
    (st : sim_state) : result sim_state :=
  match known_hands with
  | [] => mret st
  | known_hand :: rest =>
      if (length known_hand <? 2)%nat then simulate_known sim (i + 1) rest st
      else
        c1 ← vget VKnownHand known_hand 0;
        c2 ← vget VKnownHand known_hand 1;
        st' ← seat_eval sim c1 c2 (wrap32 i) st;
        simulate_known sim (i + 1) rest st'
  end.

(** The loop [for (i = 0; start + i * 2 + 1 < sample.size(); i++)], for at
    most [fuel] iterations; [simulate_state] gives it one more than the
    size of [sample], which is enough ([simulate_unknown_fuel]). *)
Fixpoint simulate_unknown (sim : Simulator) (n_known : Z) (sample : list Z)
    (start : Z) (fuel : nat) (i : Z) (st : sim_state) : result sim_state :=
  match fuel with
  | O => mret st
  | S fuel' =>
      if wrap32 (start + i * 2 + 1) <? isize sample then
        c1 ← vget VSample sample (wrap32 (start + i * 2));
        c2 ← vget VSample sample (wrap32 (start + i * 2 + 1));
        st' ← seat_eval sim c1 c2 (wrap32 (n_known + i)) st;
        simulate_unknown sim n_known sample start fuel' (i + 1) st'
      else mret st
  end.

(** [selection.resize(7)] when the buffer is shorter. *)
Definition resize7 (selection : list Z) : list Z :=
  if (length selection <? 7)%nat
  then selection ++ replicate (7 - length selection) 0
  else selection.

(** The two loops of [simulate], with the state they end in. *)
Definition simulate_state (sim : Simulator) (selection : list Z)
    (known_hands : list (list Z)) (sample : list Z) (start : Z)
    : result sim_state :=
  let st := {| ss_selection := resize7 selection; ss_max := 0;
               ss_winners := []; ss_seats := [] |} in
  st ← simulate_known sim 0 known_hands st;
  simulate_unknown sim (isize known_hands) sample start (S (length sample)) 0 st.

(** Returns the winners and the selection buffer, which the caller shares. *)
Definition simulate (sim : Simulator) (selection : list Z)
    (known_hands : list (list Z)) (sample : list Z) (start : Z)
    : result (list Z * list Z) :=
  st ← simulate_state sim selection known_hands sample start;
  mret (ss_winners st, ss_selection st).

(** [results[w][col]++]. *)
Definition bump (col w : Z) (results : list (list Z)) : result (list (list Z)) :=
  row ← vget VResults results w;
  x ← vget VResults row col;
  row' ← vset VResults row col (wrap32 (x + 1));
  vset VResults results w row'.

Fixpoint credit_ties (winners : list Z) (results : list (list Z))
    : result (list (list Z)) :=
  match winners with
  | [] => mret results
  | winner :: rest =>
      results' ← (if in_bounds winner results then bump 1 winner results
                  else mret results);
      credit_ties rest results'
  end.

(** The tally at the end of one trial of [calculate]. *)
Definition credit (winners : list Z) (results : list (list Z))
    : result (list (list Z)) :=
  match winners with
  | [w] => if w <? isize results then bump 0 w results
           else credit_ties winners results
  | _ => credit_ties winners results
  end.

(** The loop of [calculate] that copies the sampled board cards into the
    selection, from position 4 downwards. *)
Fixpoint fill_board (s_comm len i : Z) (sample : list Z) (selection : list Z)
    : result (list Z) :=
  match sample with
  | [] => mret selection
  | s :: rest =>
      if (i <? s_comm) && (i <? len) then
        selection' ← (if (0 <=? 4 - i) && (4 - i <? 7)
                      then vset VSelection selection (4 - i) s
                      else mret selection);
        fill_board s_comm len (i + 1) rest selection'
      else mret selection
  end.

(** One iteration of the loop over the samples: the state is the shared
    selection buffer and the counters. *)
Definition trial (sim : Simulator) (known_hands : list (list Z)) (s_comm : Z)
    (sample : list Z) (st : list Z * list (list Z))
    : result (list Z * list (list Z)) :=
  selection ← fill_board s_comm (isize sample) 0 sample st.1;
  ws ← simulate sim selection known_hands sample s_comm;
  results ← credit ws.1 st.2;
  mret (ws.2, results).

Fixpoint run_trials (sim : Simulator) (known_hands : list (list Z)) (s_comm : Z)
    (samples : list (list Z)) (st : list Z * list (list Z))
    : result (list Z * list (list Z)) :=
  match samples with
  | [] => mret st
  | sample :: rest =>
      st' ← trial sim known_hands s_comm sample st;
      run_trials sim known_hands s_comm rest st'
  end.

(** [vector<int> selection(7)] with the board copied to its first slots. *)
Definition init_selection (comm_hand : list Z) : list Z :=
  take 7 comm_hand ++ replicate (7 - length (take 7 comm_hand)) 0.

(** [known_hands.size() + players_unknown], computed in [size_t] (64 bits):
    a negative sum wraps around. *)
Definition row_count (known_hands : list (list Z)) (players_unknown : Z) : Z :=
  (Z.of_nat (length known_hands) + players_unknown) mod 2^64.

(** [max_size()] of a [vector<vector<int>>]: [PTRDIFF_MAX] divided by the
    24 bytes of a [vector<int>]. The constructor throws [std::length_error]
    when it is asked for more rows; the memory is not bounded otherwise. *)
Definition max_rows : Z := (2^63 - 1) / 24.

Definition calculate (sim : Simulator) (draw : Z → Z → Z → list (list Z)) (N : Z)
    (comm_hand : list Z) (known_hands : list (list Z)) (players_unknown : Z)
    : result (exn + list (list Z)) :=
  samples ← fill_empty draw N comm_hand known_hands players_unknown;
  match samples with
  | [] => report ErrNoSamples;; mret (inr [])
  | _ =>
      let selection := init_selection comm_hand in
      let rows := row_count known_hands players_unknown in
      if max_rows <? rows then mret (inl LengthError) else
      let results := replicate (Z.to_nat rows) [0; 0] in
      let s_comm := wrap32 (5 - isize comm_hand) in
      st ← run_trials sim known_hands s_comm samples (selection, results);
      mret (inr st.2)
  end.

(** Modelled from the spec: [convert_hand] of [cards.h] is not part of the
    sources; the card codec turns each two-character card into its integer
    code, here the argument [convert_card]. *)
Definition convert_hand (convert_card : string → Z) (hand : list string) : list Z :=
  map convert_card hand.

Definition compute_probabilities (sim : Simulator) (convert_card : string → Z)
    (draw : Z → Z → Z → list (list Z)) (N : Z) (comm_hand_str : list string)
    (known_hands_str : list (list string)) (players_unknown : Z)
    : result (exn + list (list Z)) :=
  let comm_hand := convert_hand convert_card comm_hand_str in
  let known_hands := map (convert_hand convert_card) known_hands_str in
  calculate sim draw N comm_hand known_hands players_unknown.

(** ** tools.cpp *)

(** A file of the file system: [None] when it cannot be opened, its bytes
    otherwise. The three streams [read_vect] opens see the same file. *)
Definition file := option (list Byte.byte).

Definition filesize (f : file) : result Z :=
  match f with
  | None => report ErrCannotOpen;; mret 0
  | Some bytes => mret (Z.of_nat (length bytes))
  end.

(** Four bytes read into an [int] (little-endian, [sizeof(int) = 4]). *)
Definition le_int (b0 b1 b2 b3 : Byte.byte) : Z :=
  wrap32 (Z.of_N (Byte.to_N b0) + 2^8 * Z.of_N (Byte.to_N b1)
          + 2^16 * Z.of_N (Byte.to_N b2) + 2^24 * Z.of_N (Byte.to_N b3)).

(** [f.read] into a zero-initialised vector of [n] elements. *)
Fixpoint read_ints (n : nat) (bytes : list Byte.byte) : list Z :=
  match n with
  | O => []
  | S n' =>
      match bytes with
      | b0 :: b1 :: b2 :: b3 :: rest => le_int b0 b1 b2 b3 :: read_ints n' rest
      | _ => replicate n 0
      end
  end.

(** The stream [f] is open whenever the first one could be opened, so
    the branch that reports a failed read is not taken. *)
Definition read_vect (f : file) : result (list Z) :=
  match f with
  | None => report ErrCannotOpen;; mret []
  | Some bytes =>
      sz ← filesize f;
      let fsize := wrap32 sz in
      if (fsize <=? 0) || negb (fsize mod 4 =? 0) then
        report (ErrInvalidFileSize fsize);; mret []
      else mret (read_ints (Z.to_nat (fsize / 4)) bytes)
  end.

(** The [i]-th group of four bytes of a file, as an [int]. *)
Definition int_at (bytes : list Byte.byte) (i : nat) : option Z :=
  match bytes !! (4 * i)%nat, bytes !! (4 * i + 1)%nat,
        bytes !! (4 * i + 2)%nat, bytes !! (4 * i + 3)%nat with
  | Some b0, Some b1, Some b2, Some b3 => Some (le_int b0 b1 b2 b3)
  | _, _, _, _ => None
  end.

(** *** Writing the table *)

(** The lines [write_vect] writes to the standard output. *)
Inductive notice :=
| WarnEmptyVector      (* Warning: Empty vector, nothing to write *)
| ErrCannotWrite.      (* Error: Cannot open file for writing *)

(** The byte of the eight low bits of [z]. *)
Definition byte_of (z : Z) : Byte.byte :=
  default Byte.x00 (Byte.of_N (Z.to_N (z mod 2^8))).

(** The four bytes of an [int] in memory (little-endian, [sizeof(int) = 4]). *)
Definition int_bytes (z : Z) : list Byte.byte :=
  [byte_of z; byte_of (z / 2^8); byte_of (z / 2^16); byte_of (z / 2^24)].

(** [write_vect(vect, name)]: the file after the call and the lines
    written. [writable] tells whether the file can be opened for writing,
    which truncates or creates it. *)
Definition write_vect (vect : list Z) (writable : bool) (f : file)
    : file * list notice :=
  match vect with
  | [] => (f, [WarnEmptyVector])
  | _ =>
      if writable then (Some (concat (int_bytes <$> vect)), [])
      else (f, [ErrCannotWrite])
  end.

(** ** main.cpp *)

(** The code of a character, by which characters are compared. *)
Definition char_code (c : ascii) : N := N_of_ascii c.

Definition isValidCard (card : string) : bool :=
  match card with
  | String rank (String suit EmptyString) =>
      let valid_rank :=
        ((char_code "2" <=? char_code rank)%N && (char_code rank <=? char_code "9")%N)
        || Ascii.eqb rank "T" || Ascii.eqb rank "J"
        || Ascii.eqb rank "Q" || Ascii.eqb rank "K" || Ascii.eqb rank "A" in
      let valid_suit :=
        Ascii.eqb suit "c" || Ascii.eqb suit "d"
        || Ascii.eqb suit "h" || Ascii.eqb suit "s" in
      valid_rank && valid_suit
  | _ => false
  end.

Definition is_empty (s : string) : bool :=
  match s with EmptyString => true | _ => false end.

(** The strings [std::getline(ss, part, delim)] extracts until it fails;
    [acc] holds the characters of the part being read. The last call
    fails when it meets the end of the stream without a character. *)
Fixpoint getlines_from (delim : ascii) (acc s : string) : list string :=
  match s with
  | EmptyString => if is_empty acc then [] else [acc]
  | String c rest =>
      if Ascii.eqb c delim then acc :: getlines_from delim EmptyString rest
      else getlines_from delim (acc +:+ String c EmptyString) rest
  end.

Definition getlines (delim : ascii) (s : string) : list string :=
  getlines_from delim EmptyString s.

(** [card.erase(remove(card.begin(), card.end(), ' '), card.end())]. *)
Fixpoint remove_spaces (s : string) : string :=
  match s with
  | EmptyString => EmptyString
  | String c rest =>
      if Ascii.eqb c " " then remove_spaces rest else String c (remove_spaces rest)
  end.

(** The loop of [parseCards] over the comma-separated tokens. The
    diagnostics are returned with the cards. *)
Fixpoint parse_tokens (tokens : list string) (cards : list string)
    : list string * list diag :=
  match tokens with
  | [] => (cards, [])
  | token :: rest =>
      let card := remove_spaces token in
      if negb (is_empty card) && isValidCard card then
        parse_tokens rest (cards ++ [card])
      else if negb (is_empty card) then ([], [ErrInvalidCard card])
      else parse_tokens rest cards
  end.

Definition parseCards (input : string) : list string * list diag :=
  if is_empty input then ([], [])
  else parse_tokens (getlines "," input) [].

(** [isspace] in the C locale. *)
Definition is_space (c : ascii) : bool :=
  Ascii.eqb c " " || ((9 <=? char_code c)%N && (char_code c <=? 13)%N).

Definition digit_of (c : ascii) : option Z :=
  if ((48 <=? char_code c)%N && (char_code c <=? 57)%N)
  then Some (Z.of_N (char_code c) - 48) else None.

Fixpoint skip_spaces (s : string) : string :=
  match s with
  | String c rest => if is_space c then skip_spaces rest else s
  | EmptyString => s
  end.

(** The longest prefix of decimal digits, read from the left with the
    value [acc] so far; [None] when there is no digit. *)
Fixpoint read_digits (s : string) (acc : option Z) : option Z :=
  match s with
  | String c rest =>
      match digit_of c with
      | Some d => read_digits rest (Some (10 * default 0 acc + d))
      | None => acc
      end
  | EmptyString => acc
  end.

(** [std::stoi(s)]: leading white space, an optional sign, decimal digits;
    what follows the digits is ignored. *)
Definition stoi (s : string) : exn + Z :=
  let s := skip_spaces s in
  let '(negative, digits) :=
    match s with
    | String "-" rest => (true, rest)
    | String "+" rest => (false, rest)
    | _ => (false, s)
    end in
  match read_digits digits None with
  | None => inl InvalidArgument
  | Some magnitude =>
      let value := if negative : bool then - magnitude else magnitude in
      if (value <? - 2^31) || (2^31 - 1 <? value) then inl OutOfRangeError
      else inr value
  end.

(** [std::sort] on a vector of strings, and [std::unique]. *)
Definition string_le (s1 s2 : string) : Prop := String.leb s1 s2 = true.

#[global] Instance string_le_dec s1 s2 : Decision (string_le s1 s2).
Proof. unfold string_le. apply _. Defined.

Definition sort_strings (v : list string) : list string := merge_sort string_le v.

Fixpoint unique (v : list string) : list string :=
  match v with
  | [] => []
  | x :: rest =>
      match rest with
      | y :: _ => if String.eqb x y then unique rest else x :: unique rest
      | [] => [x]
      end
  end.

(** [command.erase(command.find_last_not_of(" \n\r\t") + 1)]. *)
Definition is_trailing (c : ascii) : bool :=
  Ascii.eqb c " " || Ascii.eqb c "010" || Ascii.eqb c "013" || Ascii.eqb c "009".

Fixpoint trim_right (s : string) : string :=
  match s with
  | EmptyString => EmptyString
  | String c rest =>
      let rest' := trim_right rest in
      if is_empty rest' && is_trailing c then EmptyString else String c rest'
  end.

(** [command.substr(5)]. *)
Definition substr_from (pos : nat) (s : string) : string :=
  String.substring pos (String.length s) s.

(** The error lines of the daemon. *)
Inductive error :=
| ErrFormat          (* Invalid command format. Expected: CALC board|hole|opponents|iterations *)
| ErrOpponents       (* Opponents must be 1-8 *)
| ErrIterations      (* Iterations must be 100-1000000 *)
| ErrBoardSize       (* Board cannot have more than 5 cards *)
| ErrHoleCount       (* Need exactly 2 hole cards *)
| ErrDuplicate       (* Duplicate cards detected *)
| ErrException (e : exn)
| ErrUnknown (command : string).

(** The lines written to the standard output. [Success] carries the two
    counters of the hole seat and the number of iterations, from which the
    rates are computed in floating point. *)
Inductive response :=
| Ready
| Marker
| Failure (e : error)
| Success (wins ties iterations : Z).

(** What a session does, in order: the responses, the diagnostics, the
    calls of the simulation, and an access outside a vector, after which
    nothing is defined. *)
Inductive event :=
| Stdout (r : response)
| Stderr (d : diag)
| Simulation (iterations : Z) (comm_hand : list string)
    (known_hands : list (list string)) (opponents : Z)
| Undefined (v : vec_id).

Inductive outcome := Continue | Exit | Crash.

(** What the daemon is given from outside the sources: the table loaded by
    the constructor of [Simulator], the card codec of [cards.h] and the
    samples each call of [gen_samples] draws, numbered by call. *)
Record Extern := {
  sim : Simulator;
  convert_card : string → Z;
  gen_samples : nat → Z → Z → Z → list (list Z)
}.

(** The body of the [try] block of a [CALC] command; [n] counts the
    simulations run before. *)
Definition handle_calc (ext : Extern) (n : nat) (command : string)
    : list event * outcome :=
  let params := substr_from 5 command in
  match getlines "|" params with
  | [board_str; hole_str; opponents_str; iterations_str] =>
      match stoi opponents_str with
      | inl e => ([Stdout (Failure (ErrException e))], Continue)
      | inr opponents =>
      match stoi iterations_str with
      | inl e => ([Stdout (Failure (ErrException e))], Continue)
      | inr iterations =>
      if (opponents <? 1) || (8 <? opponents) then
        ([Stdout (Failure ErrOpponents)], Continue)
      else if (iterations <? 100) || (1000000 <? iterations) then
        ([Stdout (Failure ErrIterations)], Continue)
      else
        let comm_hand := parseCards board_str in
        if (5 <? length comm_hand.1)%nat then
          ((Stderr <$> comm_hand.2) ++ [Stdout (Failure ErrBoardSize)], Continue)
        else
          let hole_cards := parseCards hole_str in
          let diags := Stderr <$> (comm_hand.2 ++ hole_cards.2) in
          if negb (length hole_cards.1 =? 2)%nat then
            (diags ++ [Stdout (Failure ErrHoleCount)], Continue)
          else
            let known_hands := [hole_cards.1] in
            let all_cards := sort_strings (comm_hand.1 ++ hole_cards.1) in
            if (length (unique all_cards) <? length all_cards)%nat then
              (diags ++ [Stdout (Failure ErrDuplicate)], Continue)
            else
              let call := Simulation iterations comm_hand.1 known_hands opponents in
              match compute_probabilities (sim ext) (convert_card ext)
                      (gen_samples ext n) iterations comm_hand.1 known_hands opponents with
              | OutOfRange v => (diags ++ [call; Undefined v], Crash)
              | Ok (inl e) log =>
                  (diags ++ call :: (Stderr <$> log)
                     ++ [Stdout (Failure (ErrException e))], Continue)
              | Ok (inr results) log =>
                  match results with
                  | (wins :: ties :: _) :: _ =>
                      (diags ++ call :: (Stderr <$> log)
                         ++ [Stdout (Success wins ties iterations)], Continue)
                  | _ => (diags ++ call :: (Stderr <$> log)
                            ++ [Undefined VResults], Crash)
                  end
              end
      end
      end
  | _ => ([Stdout (Failure ErrFormat)], Continue)
  end.

Record daemon_state := {
  marker_sent : bool;
  simulations : nat
}.

Definition is_calc (command : string) : bool :=
  String.eqb (String.substring 0 5 command) "CALC ".

Definition is_simulation (e : event) : bool :=
  match e with Simulation _ _ _ _ => true | _ => false end.

Definition is_marker (e : event) : bool :=
  match e with Stdout Marker => true | _ => false end.

(** One iteration of the loop [while (getline(cin, command))]. *)
Definition handle_line (ext : Extern) (st : daemon_state) (line : string)
    : list event * outcome * daemon_state :=
  let command := trim_right line in
  if String.eqb command "EXIT" then ([Stderr InfoExit], Exit, st)
  else if is_calc command then
    let marker := if marker_sent st then [] else [Stdout Marker] in
    let r := handle_calc ext (simulations st) command in
    (marker ++ r.1, r.2,
     {| marker_sent := true;
        simulations := (simulations st + length (filter is_simulation r.1))%nat |})
  else ([Stdout (Failure (ErrUnknown command))], Continue, st).

Fixpoint run_lines (ext : Extern) (st : daemon_state) (lines : list string)
    : list event :=
  match lines with
  | [] => []
  | line :: rest =>
      let r := handle_line ext st line in
      match r.1.2 with
      | Continue => r.1.1 ++ run_lines ext r.2 rest
      | _ => r.1.1
      end
  end.

Definition startup : list event :=
  [Stderr InfoLoading; Stderr InfoLoaded; Stdout Ready; Stderr InfoDaemonStart].

(** The session of the daemon on the lines of its standard input, once the
    table is loaded. *)
Definition runDaemonMode (ext : Extern) (lines : list string) : list event :=
  startup ++ run_lines ext {| marker_sent := false; simulations := 0 |} lines.

(** The card codec of [main.cpp]: rank + 13 * suit; [find] gives -1 for a
    character that is not found. *)
Definition cardStrToInt (card : string) : Z :=
  let find (c : option ascii) (s : string) : Z :=
    match c with
    | Some c =>
        match String.index 0 (String c EmptyString) s with
        | Some i => Z.of_nat i
        | None => -1
        end
    | None => -1
    end in
  let rank := find (String.get 0 card) "23456789TJQKA" in
  let suit := find (String.get 1 card) "cdhs" in
  wrap32 (rank + suit * 13).

(** *** The legacy mode *)

Definition convertHandsToInt (hands : list (list string)) : list (list Z) :=
  map (map cardStrToInt) hands.

(** The error lines of the legacy mode. *)
Inductive legacy_error :=
| LegacyBoardSize      (* Error: Board cannot have more than 5 cards *)
| LegacyHandSize       (* Error: Each hand must have exactly 2 cards *)
| LegacyNoHand         (* Error: At least one known hand is required *)
| LegacyOpponents      (* Error: Opponents must be 0-8 *)
| LegacyDuplicate      (* Error: Duplicate cards detected *)
| LegacyException (e : exn).

(** What a run of the legacy mode does, in order: the usage text, the
    diagnostics, an error line, the lines that repeat the request, the call
    of the simulation, the call of [print_results] with its arguments, and
    an access outside a vector. *)
Inductive legacy_event :=
| Usage
| Diagnostic (d : diag)
| Rejected (e : legacy_error)
| Announced (comm_hand : list string) (known_hands : list (list string))
    (opponents : Z)
| Simulated (iterations : Z) (comm_hand : list string)
    (known_hands : list (list string)) (opponents : Z)
| Printed (N : Z) (hands : list (list Z)) (results : list (list Z))
| Aborted (v : vec_id).

(** The loop of [runLegacyMode] over the hands separated by [|]: [None]
    when a hand has not two cards, with the diagnostics written until then. *)
Fixpoint parse_hands (pairs : list string) (known_hands : list (list string))
    : option (list (list string)) * list diag :=
  match pairs with
  | [] => (Some known_hands, [])
  | hand_pair :: rest =>
      let hand := parseCards hand_pair in
      if negb (length hand.1 =? 2)%nat then (None, hand.2)
      else
        let r := parse_hands rest (known_hands ++ [hand.1]) in
        (r.1, hand.2 ++ r.2)
  end.

(** [runLegacyMode(argc, argv)] on the arguments [argv[1]], [argv[2]], ... *)
Definition runLegacyMode (ext : Extern) (args : list string) : list legacy_event :=
  match args with
  | board_str :: hands_input :: opponents_str :: _ =>
      let comm_hand := parseCards board_str in
      if (5 <? length comm_hand.1)%nat then
        (Diagnostic <$> comm_hand.2) ++ [Rejected LegacyBoardSize]
      else
        let hands := parse_hands (getlines "|" hands_input) [] in
        let diags := Diagnostic <$> (comm_hand.2 ++ hands.2) in
        match hands.1 with
        | None => diags ++ [Rejected LegacyHandSize]
        | Some [] => diags ++ [Rejected LegacyNoHand]
        | Some known_hands =>
            match stoi opponents_str with
            | inl e => diags ++ [Rejected (LegacyException e)]
            | inr opponents =>
                if (opponents <? 0) || (8 <? opponents) then
                  diags ++ [Rejected LegacyOpponents]
                else
                  let all_cards :=
                    sort_strings (comm_hand.1 ++ concat known_hands) in
                  if (length (unique all_cards) <? length all_cards)%nat then
                    diags ++ [Rejected LegacyDuplicate]
                  else
                    let N := 100000 in
                    let known_hands_int := convertHandsToInt known_hands in
                    let calls :=
                      [Announced comm_hand.1 known_hands opponents;
                       Simulated N comm_hand.1 known_hands opponents] in
                    match compute_probabilities (sim ext) (convert_card ext)
                            (gen_samples ext 0) N comm_hand.1 known_hands
                            opponents with
                    | OutOfRange v => diags ++ calls ++ [Aborted v]
                    | Ok (inl e) log =>
                        diags ++ calls ++ (Diagnostic <$> log)
                          ++ [Rejected (LegacyException e)]
                    | Ok (inr results) log =>
                        diags ++ calls ++ (Diagnostic <$> log)
                          ++ [Printed N known_hands_int results]
                    end
            end
        end
  | _ => [Usage]
  end.

(** ** The reference evaluator

    The five-card score as the specification words it: the sum over the
    five positions of the contribution of the card at that position, looked
    up in the score table; and the 21 five-card hands of a sorted selection. *)

Definition zlookup (v : list Z) (i : Z) : option Z :=
  if 0 <=? i then v !! Z.to_nat i else None.

Fixpoint ckey_sum_from (sim : Simulator) (i : Z) (hand : list Z) : option Z :=
  match hand with
  | [] => Some 0
  | card :: rest =>
      c ← zlookup (c_table sim) ((i + 1) * 53 + card);
      k ← ckey_sum_from sim (i + 1) rest;
      Some (c + k)
  end.

Definition score5 (sim : Simulator) (hand : list Z) : option Z :=
  key ← ckey_sum_from sim 0 hand;
  zlookup (table sim) key.

(** The sublists of [k] elements, in the order of the list. *)
Fixpoint sublists {A} (k : nat) (l : list A) : list (list A) :=
  match k, l with
  | O, _ => [[]]
  | S _, [] => []
  | S k', x :: rest => (cons x <$> sublists k' rest) ++ sublists k rest
  end.

Definition max_list (d : Z) (l : list Z) : Z := foldl Z.max d l.

(** The positions of the selection the hand holds after each of [n]
    substitution steps read from the table [r] at [j], starting from the
    positions [idxs]; [None] when an entry is missing or not a position. *)
Fixpoint index_path (r : list Z) (n : nat) (j : nat) (idxs : list Z)
    : option (list (list Z)) :=
  match n with
  | O => Some []
  | S n' =>
      match r !! j, r !! S j with
      | Some p, Some q =>
          if (0 <=? p) && (p <? 5) && (0 <=? q) && (q <? 7) then
            let idxs' := <[Z.to_nat p := q]> idxs in
            cons idxs' <$> index_path r n' (S (S j)) idxs'
          else None
      | _, _ => None
      end
  end.

Definition base_positions : list Z := [2; 3; 4; 5; 6].

(** The substitution table enumerates the five-card subsets: the 21 hands
    it visits from the base are the 21 sublists of the seven positions. *)
Definition replace_covers (r : list Z) : bool :=
  match index_path r 20 0 base_positions with
  | Some path =>
      bool_decide (base_positions :: path ⊆ sublists 5 [0; 1; 2; 3; 4; 5; 6])
      && bool_decide (sublists 5 [0; 1; 2; 3; 4; 5; 6] ⊆ base_positions :: path)
  | None => false
  end.

(** Modelled from the spec: the substitution table [replace] is declared in
    [simulator.h], which is not part of the sources. This is a table of 20
    (replaced position, source position) steps that visits each five-card
    subset of the sorted seven once, from the base hand. *)
Definition reference_replace : list Z :=
  [0; 0; 0; 1; 1; 2; 0; 0; 1; 1; 2; 2; 2; 3; 1; 2; 0; 1; 3; 4;
   0; 0; 1; 1; 2; 2; 3; 3; 4; 4; 4; 5; 3; 4; 2; 3; 1; 2; 0; 1].

(** ** Vocabulary of the statements and invariants *)

(** The seats with the best score, in seat order. *)
Definition best_score (seats : list (Z * Z)) : Z := max_list 0 seats.*2.

Definition top_seats (seats : list (Z * Z)) : list Z :=
  (filter (λ s, s.2 = best_score seats) seats).*1.

(** The running maximum and the winners of [simulate] are the best score
    and the seats that reach it. *)
Definition winners_inv (st : sim_state) : Prop :=
  ss_max st = best_score (ss_seats st)
  ∧ ss_winners st = top_seats (ss_seats st)
  ∧ Forall (λ s, 0 <= s.2) (ss_seats st).

(** With the winners, the seats evaluated so far have distinct indices,
    all below [b]. *)
Definition seat_inv (b : Z) (st : sim_state) : Prop :=
  winners_inv st
  ∧ NoDup (ss_seats st).*1
  ∧ Forall (λ s, 0 <= s.1 < b) (ss_seats st).

(** The counters are pairs [wins; ties]; a counter about to be
    incremented is below the largest [int]. *)
Definition counters_ok (ws : list Z) (results : list (list Z)) : Prop :=
  ∀ (i : nat) row, results !! i = Some row →
    ∃ wins ties, row = [wins; ties]
      ∧ - 2^31 <= wins ∧ - 2^31 <= ties
      ∧ (Z.of_nat i ∈ ws → wins < 2^31 - 1 ∧ ties < 2^31 - 1).

(** The cards of the selection at the positions [idxs]. *)
Definition pick (s : list Z) (idxs : list Z) : list Z :=
  (λ i, s !!! Z.to_nat i) <$> idxs.

(** The state of the substitution loop when the hand holds the positions
    [idxs] of the sorted selection [s]. *)
Definition hand_inv (sim : Simulator) (s : list Z) (idxs : list Z)
    (st : eval_state) : Prop :=
  es_hand st = pick s idxs
  ∧ length idxs = 5%nat
  ∧ ckey_sum_from sim 0 (es_hand st) = Some (es_key st)
  ∧ 0 <= es_key st < Z.of_nat (length (table sim)).

(** The diagnostics a computation writes all satisfy [P]. *)
Definition quiet {A} (P : diag → Prop) (m : result A) : Prop :=
  match m with
  | Ok _ log => Forall P log
  | OutOfRange _ => True
  end.

(** The fields of a request that reaches the call of the simulation. *)
Record validated (command : string) (iterations : Z) (comm_hand : list string)
    (known_hands : list (list string)) (opponents : Z) : Prop := {
  v_fields : ∃ board_str hole_str opponents_str iterations_str,
    getlines "|" (substr_from 5 command)
      = [board_str; hole_str; opponents_str; iterations_str]
    ∧ stoi opponents_str = inr opponents
    ∧ stoi iterations_str = inr iterations
    ∧ comm_hand = (parseCards board_str).1
    ∧ known_hands = [(parseCards hole_str).1];
  v_opponents : 1 <= opponents <= 8;
  v_iterations : 100 <= iterations <= 1000000;
  v_board : (length comm_hand <= 5)%nat;
  v_hole : ∃ hole_cards, known_hands = [hole_cards] ∧ length hole_cards = 2%nat;
  v_distinct :
    length (unique (sort_strings (comm_hand ++ concat known_hands)))
    = length (sort_strings (comm_hand ++ concat known_hands))
}.

(** ** Vocabulary of the further properties *)

(** The 52 cards: a rank of [23456789TJQKA] and a suit of [cdhs], suit by
    suit in the order of the two strings of [cardStrToInt]. *)
Definition all_cards : list string :=
  suit ← String.list_ascii_of_string "cdhs";
  rank ← String.list_ascii_of_string "23456789TJQKA";
  [String rank (String suit EmptyString)].

(** The last character of [s] is [c]. *)
Definition ends_with (c : ascii) (s : string) : bool :=
  match last (String.list_ascii_of_string s) with
  | Some c' => Ascii.eqb c' c
  | None => false
  end.

(** The lines of the standard output that answer a command: an error or
    the rates. *)
Definition is_response (e : event) : bool :=
  match e with
  | Stdout (Failure _) | Stdout (Success _ _ _) => true
  | _ => false
  end.

Definition is_undefined (e : event) : bool :=
  match e with Undefined _ => true | _ => false end.

(** The answer [resp] fits the line: a line that is not a [CALC] command is
    answered by the error that repeats it, a [CALC] command by another
    error or by the rates. *)
Definition answers (line : string) (resp : event) : Prop :=
  is_response resp = true
  ∧ if is_calc (trim_right line)
    then ∀ command, resp ≠ Stdout (Failure (ErrUnknown command))
    else resp = Stdout (Failure (ErrUnknown (trim_right line))).

(** The counters after [k] trials: each row is a pair [wins; ties] of
    counters that are not negative and count at most [k] trials together. *)
Definition tally_inv (k : Z) (results : list (list Z)) : Prop :=
  Forall (λ row, ∃ wins ties, row = [wins; ties]
            ∧ 0 <= wins ∧ 0 <= ties ∧ wins + ties <= k) results.

(** ** Example tables and sessions *)

(** A small pair of tables: the contribution of a card at position [p]
    (1 to 5) is the parity of the card at bit [p - 1] of the key, and the 32
    keys have distinct scores. *)
Definition example_c_table : list Z :=
  (λ k, if k <? 53 then 0 else ((k mod 53) mod 2) * 2 ^ (k / 53 - 1)) <$> seqZ 0 318.

Definition example_table : list Z := (λ k, (k * 7) mod 32 + 1) <$> seqZ 0 32.

Definition example_sim : Simulator :=
  {| table := example_table; c_table := example_c_table;
     replace := reference_replace |}.

(** [N] samples of [c] distinct positions of the remaining deck. *)
Definition example_draw (N c n : Z) : list (list Z) :=
  (λ k, (λ i, (k + i) mod n) <$> seqZ 0 c) <$> seqZ 0 N.

Definition example_ext : Extern :=
  {| sim := example_sim; convert_card := cardStrToInt;
     gen_samples := λ _, example_draw |}.

(** A score table of one entry against a contribution table that sends the
    first substitution step to the key 1. *)
Definition short_table_sim : Simulator :=
  {| table := [7]; c_table := <[53%nat := 1]> (replicate 318 0);
     replace := reference_replace |}.

(** The arguments of a run of sixteen known hands against eight opponents. *)
Definition crowded_args : list string :=
  [EmptyString;
   "2c,3c|4c,5c|6c,7c|8c,9c|Tc,Jc|Qc,Kc|Ac,2d|3d,4d|5d,6d|7d,8d|9d,Td|Jd,Qd|Kd,Ad|2h,3h|4h,5h|6h,7h";
   "8"].

(** * Properties *)

(** ** Machine integers *)

Lemma wrap32_id z : - 2^31 <= z < 2^31 → wrap32 z = z.
Proof. intros Hz. unfold wrap32. rewrite Z.mod_small; lia. Qed.

Lemma wrap32_range z : - 2^31 <= wrap32 z < 2^31.
Proof.
  unfold wrap32.
  pose proof (Z.mod_pos_bound (z + 2^31) (2^32)). lia.
Qed.

Lemma wrap32_le z : 0 <= z → wrap32 z <= z.
Proof.
  intros Hz. unfold wrap32.
  pose proof (Z.mod_le (z + 2^31) (2^32)). lia.
Qed.

Lemma wrap32_add_r a b : wrap32 (a + wrap32 b) = wrap32 (a + b).
Proof.
  unfold wrap32.
  replace (a + ((b + 2^31) mod 2^32 - 2^31) + 2^31)
    with (a + (b + 2^31) mod 2^32) by lia.
  rewrite Zplus_mod_idemp_r. do 2 f_equal. lia.
Qed.

Lemma wrap32_add_l a b : wrap32 (wrap32 a + b) = wrap32 (a + b).
Proof. rewrite (Z.add_comm (wrap32 a)), wrap32_add_r. f_equal. lia. Qed.

Lemma isize_le {A} (v : list A) : isize v <= Z.of_nat (length v).
Proof. apply wrap32_le. lia. Qed.

Lemma isize_small {A} (v : list A) :
  Z.of_nat (length v) < 2^31 → isize v = Z.of_nat (length v).
Proof. intros. apply wrap32_id. lia. Qed.

(** ** Vector reads *)

Lemma vget_Ok {A} id (v : list A) i x :
  0 <= i → v !! Z.to_nat i = Some x → vget id v i = Ok x [].
Proof.
  intros Hi Hx. unfold vget.
  destruct (Z.leb_spec 0 i); [|lia]. by rewrite Hx.
Qed.

Lemma in_bounds_lookup {A} (v : list A) i :
  in_bounds i v = true → ∃ x, v !! Z.to_nat i = Some x ∧ 0 <= i.
Proof.
  unfold in_bounds. intros [H0 H1]%andb_prop.
  apply Z.leb_le in H0. apply Z.ltb_lt in H1.
  pose proof (isize_le v).
  destruct (lookup_lt_is_Some_2 v (Z.to_nat i)) as [x Hx]; [lia|]. eauto.
Qed.

Lemma vget_in_bounds {A} id (v : list A) i :
  in_bounds i v = true → ∃ x, vget id v i = Ok x [] ∧ v !! Z.to_nat i = Some x.
Proof.
  intros (x & Hx & Hi)%in_bounds_lookup. exists x. eauto using vget_Ok.
Qed.

(** ** Sorting *)

Lemma sort_Permutation (l l' : list Z) : l ≡ₚ l' → sort l = sort l'.
Proof.
  intros Hp. unfold sort.
  apply (Sorted_unique Z.le); try apply (Sorted_merge_sort Z.le).
  by rewrite !merge_sort_Permutation.
Qed.

Lemma sort_eq_Permutation (l l' : list Z) : sort l = sort l' → l ≡ₚ l'.
Proof.
  unfold sort. intros Hs.
  rewrite <- (merge_sort_Permutation Z.le l), Hs.
  apply merge_sort_Permutation.
Qed.

(** C9. The score of the seven-card evaluator does not depend on the order
    of its input: two selections that are permutations of each other are
    sorted to the same vector before any key is computed, and get the same
    result (score and diagnostics). *)
Theorem evaluate_selection_permutation (sim : Simulator) (sel sel' : list Z) :
  sel ≡ₚ sel' → evaluate_selection sim sel = evaluate_selection sim sel'.
Proof.
  intros Hp. unfold evaluate_selection.
  by rewrite (sort_Permutation sel sel' Hp).
Qed.

(** ** The remaining deck *)

Lemma mark_filled_length filled card :
  length (mark_filled filled card) = length filled.
Proof. unfold mark_filled. case_match; by rewrite ?length_insert. Qed.

Lemma mark_filled_lookup filled card (n : nat) :
  (n < length filled)%nat → length filled = 52%nat →
  mark_filled filled card !! n = Some 0 ↔
  filled !! n = Some 0 ∧ Z.of_nat n ≠ card.
Proof.
  intros Hn Hlen. unfold mark_filled.
  destruct ((0 <=? card) && (card <? 52)) eqn:Hc.
  - apply andb_prop in Hc as [H0%Z.leb_le H1%Z.ltb_lt].
    destruct (decide (Z.to_nat card = n)) as [<-|Hne].
    + rewrite list_lookup_insert_eq by lia. split; [done|]. intros [_ ?]. lia.
    + rewrite list_lookup_insert_ne by done. split; [|tauto].
      intros ?. split; [done|]. lia.
  - split; [|tauto]. intros ?. split; [done|]. intros <-.
    apply andb_false_iff in Hc as [?%Z.leb_gt | ?%Z.ltb_ge]; lia.
Qed.

Lemma foldl_mark_filled_length cards filled :
  length (foldl mark_filled filled cards) = length filled.
Proof.
  revert filled. induction cards as [|c cards IH]; intros filled; simpl; [done|].
  by rewrite IH, mark_filled_length.
Qed.

Lemma foldl_mark_filled_lookup cards filled (n : nat) :
  (n < 52)%nat → length filled = 52%nat →
  foldl mark_filled filled cards !! n = Some 0 ↔
  filled !! n = Some 0 ∧ Z.of_nat n ∉ cards.
Proof.
  intros Hn. revert filled.
  induction cards as [|c cards IH]; intros filled Hlen; simpl.
  - rewrite elem_of_nil. tauto.
  - rewrite IH by (by rewrite mark_filled_length).
    rewrite mark_filled_lookup by lia. rewrite not_elem_of_cons. tauto.
Qed.

Lemma foldl_hands_length hands filled :
  length (foldl (foldl mark_filled) filled hands) = length filled.
Proof.
  revert filled. induction hands as [|h hands IH]; intros filled; simpl; [done|].
  by rewrite IH, foldl_mark_filled_length.
Qed.

Lemma foldl_hands_lookup hands filled (n : nat) :
  (n < 52)%nat → length filled = 52%nat →
  foldl (foldl mark_filled) filled hands !! n = Some 0 ↔
  filled !! n = Some 0 ∧ Z.of_nat n ∉ concat hands.
Proof.
  intros Hn. revert filled.
  induction hands as [|h hands IH]; intros filled Hlen; simpl.
  - rewrite elem_of_nil. tauto.
  - rewrite IH by (by rewrite foldl_mark_filled_length).
    rewrite foldl_mark_filled_lookup by done.
    rewrite not_elem_of_app. tauto.
Qed.

Lemma filter_iff_elem (P1 P2 : Z → Prop) `{!∀ x, Decision (P1 x), !∀ x, Decision (P2 x)}
    (l : list Z) :
  (∀ x, x ∈ l → P1 x ↔ P2 x) → filter P1 l = filter P2 l.
Proof.
  induction l as [|a l IH]; intros Hiff; [done|].
  rewrite !filter_cons.
  rewrite IH by (intros x Hx; apply Hiff; by right).
  destruct (decide (P1 a)) as [H1|H1], (decide (P2 a)) as [H2|H2]; try done;
    exfalso; apply (Hiff a) in H1 || apply (Hiff a) in H2; try done; by left.
Qed.

Lemma elem_of_concat_hand (x : Z) (hands : list (list Z)) :
  x ∈ concat hands ↔ ∃ hand, hand ∈ hands ∧ x ∈ hand.
Proof.
  induction hands as [|h hands IH]; simpl.
  - rewrite elem_of_nil. split; [done|]. intros (? & []%elem_of_nil & _).
  - rewrite elem_of_app, IH. split.
    + intros [?|(h' & ? & ?)]; [exists h|exists h']; split; try done;
        [by left|by right].
    + intros (h' & [->|?]%elem_of_cons & ?); [by left|right; eauto].
Qed.

(** The remaining cards are the cards of the deck, in order, that are on
    neither the board nor a known hand. *)
Lemma get_remaining_filter comm_hand known_hands :
  get_remaining comm_hand known_hands =
  filter (λ i, i ∉ comm_hand ++ concat known_hands) (seqZ 0 52).
Proof.
  unfold get_remaining. apply filter_iff_elem.
  intros i Hi%elem_of_seqZ.
  rewrite foldl_hands_lookup; [|lia|by rewrite foldl_mark_filled_length].
  rewrite foldl_mark_filled_lookup; [|lia|done].
  rewrite lookup_replicate, not_elem_of_app, Z2Nat.id by lia.
  intuition lia.
Qed.

Lemma filter_used_length (used l : list Z) :
  NoDup l →
  (length (filter (λ i, i ∉ used) l) + length (filter (λ i, i ∈ used) l)
   = length l)%nat.
Proof.
  intros _. induction l as [|x l IH]; simpl; [done|].
  rewrite !filter_cons. destruct (decide (x ∈ used)).
  - rewrite decide_False by tauto. simpl. lia.
  - rewrite decide_True by tauto. simpl. lia.
Qed.

(** The remaining deck never has fewer cards than the deck less the cards
    in use, whether or not those are valid or distinct. *)
Lemma get_remaining_length_ge comm_hand known_hands :
  (52 <= length (get_remaining comm_hand known_hands)
         + length comm_hand + length (concat known_hands))%nat.
Proof.
  rewrite get_remaining_filter.
  set (used := comm_hand ++ concat known_hands).
  pose proof (filter_used_length used (seqZ 0 52) (NoDup_seqZ _ _)) as Hsum.
  rewrite length_seqZ in Hsum.
  assert (length (filter (λ i, i ∈ used) (seqZ 0 52)) <= length used)%nat as Hle.
  { apply submseteq_length, NoDup_submseteq.
    - apply NoDup_filter, NoDup_seqZ.
    - intros x [? _]%list_elem_of_filter. done. }
  assert (length used = length comm_hand + length (concat known_hands))%nat
    by apply length_app.
  lia.
Qed.

(** C5. For a board and known hands of two cards each, all cards in
    [0,52) and pairwise distinct, [get_remaining] returns a list without
    duplicates of exactly 52 - |board| - 2 |known_hands| cards: the cards of
    the deck, 0 to 51, that are neither on the board nor in a known hand. *)
Theorem get_remaining_spec (comm_hand : list Z) (known_hands : list (list Z)) :
  Forall (λ card, 0 <= card < 52) (comm_hand ++ concat known_hands) →
  NoDup (comm_hand ++ concat known_hands) →
  Forall (λ hand, length hand = 2%nat) known_hands →
  let remaining := get_remaining comm_hand known_hands in
  NoDup remaining
  ∧ (Z.of_nat (length remaining)
     = 52 - Z.of_nat (length comm_hand) - 2 * Z.of_nat (length known_hands))
  ∧ (∀ card, card ∈ remaining ↔
       0 <= card < 52 ∧ (card ∉ comm_hand)
       ∧ (∀ hand, hand ∈ known_hands → card ∉ hand)).
Proof.
  intros Hvalid Hnodup Hpairs. simpl.
  rewrite get_remaining_filter.
  set (used := comm_hand ++ concat known_hands) in *.
  split; [apply NoDup_filter, NoDup_seqZ|]. split.
  - pose proof (filter_used_length used (seqZ 0 52) (NoDup_seqZ _ _)) as Hsum.
    rewrite length_seqZ in Hsum.
    assert (filter (λ i, i ∈ used) (seqZ 0 52) ≡ₚ used) as Hperm.
    { apply NoDup_Permutation; [apply NoDup_filter, NoDup_seqZ|done|].
      intros x. rewrite list_elem_of_filter, elem_of_seqZ.
      split; [tauto|]. intros Hx. split; [done|].
      rewrite Forall_forall in Hvalid. specialize (Hvalid x Hx). lia. }
    rewrite Hperm in Hsum.
    assert (length used = length comm_hand + length (concat known_hands))%nat
      as Hu by apply length_app.
    assert (length (concat known_hands) = 2 * length known_hands)%nat as Hc.
    { clear -Hpairs. induction Hpairs as [|h hs Hh _ IH]; simpl; [done|].
      rewrite length_app, IH, Hh. lia. }
    lia.
  - intros card. rewrite list_elem_of_filter, elem_of_seqZ. unfold used.
    rewrite not_elem_of_app, elem_of_concat_hand. split.
    + intros [[Hb Hk] Hrange]. split; [lia|]. split; [done|].
      intros hand Hhand Hin. apply Hk. eauto.
    + intros (Hrange & Hb & Hk). split; [|lia]. split; [done|].
      intros (hand & Hhand & Hin). by apply (Hk hand).
Qed.

Lemma get_remaining_length_le comm_hand known_hands :
  (length (get_remaining comm_hand known_hands) <= 52)%nat.
Proof.
  rewrite get_remaining_filter.
  etrans; [apply length_filter|]. by rewrite length_seqZ.
Qed.

(** With a board of at most five cards, one known hand of two cards and
    one to eight unknown seats, the remaining deck is large enough and
    [fill_empty] maps the drawn samples. *)
Lemma fill_empty_enough draw N comm_hand hole opponents :
  (length comm_hand <= 5)%nat → length hole = 2%nat → 1 <= opponents <= 8 →
  let remaining := get_remaining comm_hand [hole] in
  let c := 2 * opponents + 5 - Z.of_nat (length comm_hand) in
  c <= Z.of_nat (length remaining)
  ∧ fill_empty draw N comm_hand [hole] opponents
    = mapM (λ sample, relabel_from remaining c (isize sample) 0 sample)
        (draw N c (Z.of_nat (length remaining))).
Proof.
  intros Hb Hh Ho. simpl.
  pose proof (get_remaining_length_ge comm_hand [hole]) as Hge.
  pose proof (get_remaining_length_le comm_hand [hole]) as Hle.
  assert (length (concat [hole]) = 2%nat) as Hk
    by (simpl; by rewrite app_nil_r).
  split; [lia|]. unfold fill_empty.
  rewrite (isize_small comm_hand) by lia.
  rewrite (isize_small (get_remaining _ _)) by lia.
  rewrite wrap32_id by lia.
  replace (opponents * 2 + 5 - Z.of_nat (length comm_hand))
    with (2 * opponents + 5 - Z.of_nat (length comm_hand)) by lia.
  destruct (Z.ltb_spec (Z.of_nat (length (get_remaining comm_hand [hole])))
              (2 * opponents + 5 - Z.of_nat (length comm_hand))); [lia|done].
Qed.

(** [calculate] throws nothing but [std::length_error], and only for a
    row count beyond [max_rows]. *)
Lemma calculate_throws sim draw N comm_hand known_hands players_unknown e log :
  calculate sim draw N comm_hand known_hands players_unknown = Ok (inl e) log →
  e = LengthError ∧ max_rows < row_count known_hands players_unknown.
Proof.
  unfold calculate.
  destruct (fill_empty _ _ _ _ _) as [samples log0|v]; [|done].
  unfold mbind, result_bind. destruct samples as [|sample samples]; [done|].
  cbv zeta. destruct (Z.ltb_spec max_rows (row_count known_hands players_unknown)).
  - by intros [= <- _].
  - by destruct (run_trials _ _ _ _ _).
Qed.

Lemma row_count_small known_hands players_unknown :
  0 <= Z.of_nat (length known_hands) + players_unknown < 2^32 →
  row_count known_hands players_unknown
  = Z.of_nat (length known_hands) + players_unknown
  ∧ (max_rows <? row_count known_hands players_unknown) = false.
Proof.
  intros H. unfold row_count. rewrite Z.mod_small by lia.
  split; [done|]. apply Z.ltb_ge. unfold max_rows.
  assert (2^32 <= (2^63 - 1) / 24) by (by vm_compute). lia.
Qed.

Lemma row_count_negative known_hands players_unknown :
  - 2^32 <= Z.of_nat (length known_hands) + players_unknown < 0 →
  (max_rows <? row_count known_hands players_unknown) = true.
Proof.
  intros H. unfold row_count.
  rewrite <- (Z.mod_add _ 1) by done. rewrite Z.mod_small by lia.
  apply Z.ltb_lt. unfold max_rows.
  assert ((2^63 - 1) / 24 < 2^64 - 2^32) by (by vm_compute). lia.
Qed.

(** ** The request handler *)

Section request_handler.
Context (ext : Extern).

Lemma simulation_not_stderr (l : list diag) N comm known opp :
  Simulation N comm known opp ∉ Stderr <$> l.
Proof. intros (d & Hd & _)%list_elem_of_fmap. discriminate. Qed.

Lemma simulation_not_failure (l : list diag) e N comm known opp :
  Simulation N comm known opp ∉ (Stderr <$> l) ++ [Stdout (Failure e)].
Proof.
  intros [H|H%list_elem_of_singleton]%elem_of_app; [|discriminate].
  by apply simulation_not_stderr in H.
Qed.

Ltac elem_cases H :=
  repeat match type of H with
  | _ ∈ _ ++ _ => apply elem_of_app in H as [H|H]
  | _ ∈ _ :: _ => apply elem_of_cons in H as [H|H]
  | _ ∈ [] => by apply elem_of_nil in H
  | _ ∈ Stderr <$> _ => by apply simulation_not_stderr in H
  | _ = _ => discriminate H
  end.

Lemma handle_calc_validated n command iterations comm_hand known_hands opponents :
  Simulation iterations comm_hand known_hands opponents
    ∈ (handle_calc ext n command).1 →
  validated command iterations comm_hand known_hands opponents.
Proof.
  unfold handle_calc.
  destruct (getlines "|" (substr_from 5 command))
    as [|board_str [|hole_str [|opp_str [|iter_str [|]]]]] eqn:Hparts;
    simpl; try (by intros [=]%list_elem_of_singleton).
  destruct (stoi opp_str) as [e|opp] eqn:Hopp;
    [by intros [=]%list_elem_of_singleton|].
  destruct (stoi iter_str) as [e|iters] eqn:Hiters;
    [by intros [=]%list_elem_of_singleton|].
  destruct ((opp <? 1) || (8 <? opp)) eqn:Ho;
    [by intros [=]%list_elem_of_singleton|].
  destruct ((iters <? 100) || (1000000 <? iters)) eqn:Hi;
    [by intros [=]%list_elem_of_singleton|].
  destruct (5 <? length (parseCards board_str).1)%nat eqn:Hb;
    [by intros ?%simulation_not_failure|].
  destruct (length (parseCards hole_str).1 =? 2)%nat eqn:Hh; simpl;
    [|by intros ?%simulation_not_failure].
  destruct (length (unique _) <? length _)%nat eqn:Hd;
    [by intros ?%simulation_not_failure|].
  intros Hin.
  assert (Simulation iterations comm_hand known_hands opponents
          = Simulation iters (parseCards board_str).1 [(parseCards hole_str).1] opp)
    as [= -> -> -> ->].
  { repeat case_match; simpl in Hin; elem_cases Hin; done. }
  apply orb_false_elim in Ho as [?%Z.ltb_ge ?%Z.ltb_ge].
  apply orb_false_elim in Hi as [?%Z.ltb_ge ?%Z.ltb_ge].
  apply Nat.ltb_ge in Hb. apply Nat.eqb_eq in Hh. apply Nat.ltb_ge in Hd.
  split; try done; try lia.
  - by exists board_str, hole_str, opp_str, iter_str.
  - eauto.
  - simpl. rewrite app_nil_r.
    assert (∀ l, length (unique l) <= length l)%nat as Hle.
    { clear. induction l as [|x [|y l] IH]; simpl in *; try lia.
      destruct (String.eqb x y); simpl in *; lia. }
    specialize (Hle (sort_strings ((parseCards board_str).1 ++ (parseCards hole_str).1))).
    lia.
Qed.

(** C10. A request that passes the validation of the daemon and reaches the
    simulation never takes the failure branch of [fill_empty]: the cards to
    sample per trial, 2 * opponents + 5 - |board|, are no more than the
    remaining deck, and [fill_empty] maps the drawn samples. *)
Theorem validated_request_has_enough_cards (n : nat)
    (command : string) (iterations : Z) (comm_hand_str : list string)
    (known_hands_str : list (list string)) (opponents : Z) :
  Simulation iterations comm_hand_str known_hands_str opponents
    ∈ (handle_calc ext n command).1 →
  let comm_hand := convert_hand (convert_card ext) comm_hand_str in
  let known_hands := map (convert_hand (convert_card ext)) known_hands_str in
  let remaining := get_remaining comm_hand known_hands in
  let c := 2 * opponents + 5 - Z.of_nat (length comm_hand) in
  c <= Z.of_nat (length remaining)
  ∧ ∀ draw N,
      fill_empty draw N comm_hand known_hands opponents
      = mapM (λ sample, relabel_from remaining c (isize sample) 0 sample)
          (draw N c (Z.of_nat (length remaining))).
Proof.
  intros [_ Ho _ Hb (hole & -> & Hh) _]%handle_calc_validated. simpl.
  assert (length (convert_hand (convert_card ext) comm_hand_str) <= 5)%nat
    as Hb' by (unfold convert_hand; by rewrite length_map).
  assert (length (convert_hand (convert_card ext) hole) = 2%nat)
    as Hh' by (unfold convert_hand; by rewrite length_map).
  split.
  - exact (proj1 (fill_empty_enough (λ _ _ _, []) 0 _ _ _ Hb' Hh' Ho)).
  - intros draw N. exact (proj2 (fill_empty_enough draw N _ _ _ Hb' Hh' Ho)).
Qed.

(** *** The one-time marker *)

Lemma fmap_stderr_no_marker (l : list diag) :
  Forall (λ e, is_marker e = false) (Stderr <$> l).
Proof. induction l; simpl; by constructor. Qed.

Lemma handle_calc_no_marker n command :
  Forall (λ e, is_marker e = false) (handle_calc ext n command).1.
Proof.
  unfold handle_calc.
  repeat case_match; simpl;
    repeat first
      [ apply Forall_app_2 | apply fmap_stderr_no_marker
      | apply Forall_cons_2; [done|] | apply Forall_nil_2 ].
Qed.

Lemma handle_line_marker_sent st line :
  marker_sent st = true →
  Forall (λ e, is_marker e = false) (handle_line ext st line).1.1
  ∧ marker_sent (handle_line ext st line).2 = true.
Proof.
  intros Hsent. unfold handle_line. rewrite Hsent.
  repeat case_match; simpl; split; try done;
    try (repeat constructor; done).
  apply handle_calc_no_marker.
Qed.

Lemma run_lines_marker_sent st lines :
  marker_sent st = true →
  Forall (λ e, is_marker e = false) (run_lines ext st lines).
Proof.
  revert st. induction lines as [|line lines IH]; intros st Hsent; simpl.
  - constructor.
  - destruct (handle_line_marker_sent st line Hsent) as [Hevs Hst].
    case_match; try done. apply Forall_app_2; auto.
Qed.

(** A line that is neither [EXIT] nor a [CALC] command is answered with an
    error and leaves the state of the daemon as it was. *)
Lemma handle_line_unknown st line :
  is_calc (trim_right line) = false → trim_right line ≠ "EXIT" →
  handle_line ext st line
  = ([Stdout (Failure (ErrUnknown (trim_right line)))], Continue, st).
Proof.
  intros Hcalc Hexit. unfold handle_line. rewrite Hcalc.
  destruct (String.eqb_spec (trim_right line) "EXIT"); done.
Qed.

Lemma run_lines_unknown st pre rest :
  Forall (λ l, is_calc (trim_right l) = false ∧ trim_right l ≠ "EXIT") pre →
  run_lines ext st (pre ++ rest)
  = ((λ l, Stdout (Failure (ErrUnknown (trim_right l)))) <$> pre)
    ++ run_lines ext st rest.
Proof.
  induction 1 as [|l pre [Hc He] _ IH]; simpl; [done|].
  rewrite handle_line_unknown by done. simpl. by rewrite IH.
Qed.

Lemma is_calc_not_exit command : is_calc command = true → command ≠ "EXIT".
Proof. intros Hc ->. discriminate. Qed.

Lemma filter_marker_nil (evs : list event) :
  Forall (λ e, is_marker e = false) evs → filter is_marker evs = [].
Proof.
  induction 1 as [|e evs He _ IH]; [done|].
  rewrite filter_cons, IH. rewrite He. by destruct (decide _).
Qed.

(** C4 (as amended). In a session whose input holds a [CALC] command
    before any [EXIT], the marker is written exactly once: it is the first
    output of the first [CALC] command, written before the request is even
    parsed and so whether or not the request succeeds; nothing before it and
    nothing after it is a marker. *)
Theorem marker_on_first_calc (pre : list string) (line : string)
    (rest : list string) :
  Forall (λ l, is_calc (trim_right l) = false ∧ trim_right l ≠ "EXIT") pre →
  is_calc (trim_right line) = true →
  let st0 := {| marker_sent := false; simulations := 0 |} in
  let evs := runDaemonMode ext (pre ++ line :: rest) in
  length (filter is_marker evs) = 1%nat
  ∧ ∃ post,
      evs = (startup ++ run_lines ext st0 pre)
            ++ Stdout Marker :: (handle_calc ext 0 (trim_right line)).1 ++ post
      ∧ Forall (λ e, is_marker e = false) (startup ++ run_lines ext st0 pre)
      ∧ Forall (λ e, is_marker e = false)
          ((handle_calc ext 0 (trim_right line)).1 ++ post).
Proof.
  intros Hpre Hcalc st0 evs.
  assert (run_lines ext st0 pre
          = (λ l, Stdout (Failure (ErrUnknown (trim_right l)))) <$> pre) as Hrun.
  { rewrite <- (app_nil_r pre) at 1.
    rewrite run_lines_unknown by done. simpl. by rewrite app_nil_r. }
  assert (Forall (λ e, is_marker e = false) (startup ++ run_lines ext st0 pre))
    as Hbefore.
  { apply Forall_app_2; [repeat constructor|].
    rewrite Hrun. clear. induction pre; simpl; by constructor. }
  assert (∃ post,
    run_lines ext st0 (line :: rest)
    = Stdout Marker :: (handle_calc ext 0 (trim_right line)).1 ++ post
    ∧ Forall (λ e, is_marker e = false) post) as (post & Hline & Hpost).
  { simpl. unfold handle_line. rewrite Hcalc.
    destruct (String.eqb_spec (trim_right line) "EXIT") as [He|_];
      [by apply is_calc_not_exit in Hcalc|].
    simpl. destruct (handle_calc ext 0 (trim_right line)).2.
    - eexists. split; [done|]. by apply run_lines_marker_sent.
    - exists []. by rewrite app_nil_r.
    - exists []. by rewrite app_nil_r. }
  assert (evs = (startup ++ run_lines ext st0 pre)
            ++ Stdout Marker :: (handle_calc ext 0 (trim_right line)).1 ++ post)
    as Hevs.
  { unfold evs, runDaemonMode. fold st0. rewrite run_lines_unknown by done.
    rewrite Hline, Hrun. by rewrite <- app_assoc. }
  pose proof (handle_calc_no_marker 0 (trim_right line)) as Hcalc_evs.
  split.
  - rewrite Hevs, filter_app, (filter_marker_nil _ Hbefore), filter_cons.
    rewrite filter_marker_nil by (by apply Forall_app_2). done.
  - exists post. split_and!; try done. by apply Forall_app_2.
Qed.

(** A session that meets no [CALC] command writes no marker. *)
Lemma no_calc_no_marker lines :
  Forall (λ l, is_calc (trim_right l) = false) lines →
  Forall (λ e, is_marker e = false) (runDaemonMode ext lines).
Proof.
  intros Hlines. apply Forall_app_2; [repeat constructor|].
  generalize ({| marker_sent := false; simulations := 0 |}).
  induction Hlines as [|l lines Hl _ IH]; intros st; simpl; [constructor|].
  unfold handle_line. rewrite Hl.
  destruct (String.eqb_spec (trim_right l) "EXIT"); simpl.
  - repeat constructor.
  - constructor; [done|]. apply IH.
Qed.

(** *** Duplicate cards *)

Lemma string_leb_trans s1 s2 s3 :
  String.leb s1 s2 = true → String.leb s2 s3 = true → String.leb s1 s3 = true.
Proof.
  unfold String.leb. revert s2 s3.
  induction s1 as [|a s1 IH]; intros [|b s2] [|c s3]; simpl; try done.
  unfold Ascii.compare.
  destruct (N.compare_spec (N_of_ascii a) (N_of_ascii b)) as [Hab|Hab|Hab],
    (N.compare_spec (N_of_ascii b) (N_of_ascii c)) as [Hbc|Hbc|Hbc],
    (N.compare_spec (N_of_ascii a) (N_of_ascii c)) as [Hac|Hac|Hac];
    try done; try lia.
  apply IH.
Qed.

#[local] Instance string_le_trans : Transitive string_le.
Proof. intros ???. apply string_leb_trans. Qed.

#[local] Instance string_le_total : Total string_le.
Proof. intros ??. apply String.leb_total. Qed.

#[local] Instance string_le_antisym : AntiSymm (=) string_le.
Proof. intros ??. apply String.leb_antisym. Qed.

Lemma unique_length_le (l : list string) : (length (unique l) <= length l)%nat.
Proof.
  induction l as [|x [|y l] IH]; simpl in *; try lia.
  destruct (String.eqb x y); simpl in *; lia.
Qed.

(** On a sorted vector, [std::unique] removes nothing only when the
    elements are pairwise distinct. *)
Lemma unique_sorted_NoDup (l : list string) :
  StronglySorted string_le l → length (unique l) = length l → NoDup l.
Proof.
  induction 1 as [|x l Hs IH Hx]; intros Hlen; [constructor|].
  destruct l as [|y l]; [repeat constructor; by intros ?%elem_of_nil|].
  cbn [unique] in Hlen.
  pose proof (unique_length_le (y :: l)) as Hle.
  destruct (String.eqb_spec x y) as [->|Hne]; [simpl in *; lia|].
  constructor.
  - intros [->|Hin]%elem_of_cons; [done|].
    apply Hne, (anti_symm string_le).
    + by apply Forall_cons in Hx as [? _].
    + apply StronglySorted_inv in Hs as [_ Hy].
      rewrite Forall_forall in Hy. auto.
  - apply IH. simpl in *. lia.
Qed.

(** The check [unique(...) != end()] after sorting fires on every vector
    that holds the same card twice. *)
Lemma duplicate_detected (l : list string) :
  ¬ NoDup l →
  (length (unique (sort_strings l)) <? length (sort_strings l))%nat = true.
Proof.
  intros Hdup. apply Nat.ltb_lt.
  pose proof (unique_length_le (sort_strings l)) as Hle.
  destruct (decide (length (unique (sort_strings l)) = length (sort_strings l)))
    as [Heq|]; [|lia].
  exfalso. apply Hdup.
  rewrite <- (merge_sort_Permutation string_le l).
  apply unique_sorted_NoDup; [|done].
  apply (StronglySorted_merge_sort string_le).
Qed.

(** C6 (as amended). A [CALC] request with four fields, opponents and
    iterations in range, a parsed board of at most five cards and a parsed
    hole of two cards, in which the same card appears twice, is answered by
    the duplicate-card error; no simulation is run and the loop goes on with
    the next line. *)
Theorem duplicate_cards_rejected (st : daemon_state)
    (line board_str hole_str opponents_str iterations_str : string)
    (opponents iterations : Z) :
  is_calc (trim_right line) = true →
  getlines "|" (substr_from 5 (trim_right line))
    = [board_str; hole_str; opponents_str; iterations_str] →
  stoi opponents_str = inr opponents → 1 <= opponents <= 8 →
  stoi iterations_str = inr iterations → 100 <= iterations <= 1000000 →
  (length (parseCards board_str).1 <= 5)%nat →
  length (parseCards hole_str).1 = 2%nat →
  ¬ NoDup ((parseCards board_str).1 ++ (parseCards hole_str).1) →
  let evs :=
    (if marker_sent st then [] else [Stdout Marker])
    ++ (Stderr <$> ((parseCards board_str).2 ++ (parseCards hole_str).2))
    ++ [Stdout (Failure ErrDuplicate)] in
  let st' := {| marker_sent := true; simulations := simulations st |} in
  handle_line ext st line = (evs, Continue, st')
  ∧ Forall (λ e, is_simulation e = false) evs
  ∧ ∀ rest, run_lines ext st (line :: rest) = evs ++ run_lines ext st' rest.
Proof.
  intros Hcalc Hparts Hopp Ho Hiters Hi Hb Hh Hdup evs st'.
  assert (handle_calc ext (simulations st) (trim_right line)
          = ((Stderr <$> ((parseCards board_str).2 ++ (parseCards hole_str).2))
             ++ [Stdout (Failure ErrDuplicate)], Continue)) as Hc.
  { unfold handle_calc. rewrite Hparts, Hopp, Hiters.
    destruct (Z.ltb_spec opponents 1); [lia|].
    destruct (Z.ltb_spec 8 opponents); [lia|].
    destruct (Z.ltb_spec iterations 100); [lia|].
    destruct (Z.ltb_spec 1000000 iterations); [lia|]. simpl.
    destruct (Nat.ltb_spec 5 (length (parseCards board_str).1)); [lia|].
    rewrite Hh. simpl. by rewrite duplicate_detected. }
  assert (Forall (λ e, is_simulation e = false) evs) as Hnosim.
  { unfold evs. repeat apply Forall_app_2.
    - destruct (marker_sent st); repeat constructor.
    - generalize ((parseCards board_str).2 ++ (parseCards hole_str).2).
      induction l; simpl; by constructor.
    - repeat constructor. }
  assert (handle_line ext st line = (evs, Continue, st')) as Hline.
  { unfold handle_line. rewrite Hcalc, Hc.
    destruct (String.eqb_spec (trim_right line) "EXIT") as [He|_];
      [by apply is_calc_not_exit in Hcalc|].
    simpl. unfold evs, st'. do 2 f_equal.
    assert (filter is_simulation
              ((Stderr <$> (parseCards board_str).2 ++ (parseCards hole_str).2)
               ++ [Stdout (Failure ErrDuplicate)]) = []) as ->; [|f_equal; simpl; lia].
    generalize ((parseCards board_str).2 ++ (parseCards hole_str).2).
    induction l; simpl; [done|]. by rewrite filter_cons. }
  split_and!; try done.
  intros rest. simpl. by rewrite Hline.
Qed.

Lemma handle_calc_invalid_board n :
  handle_calc ext n "CALC Xx|As,Kh|2|100"
  = let call := Simulation 100 [] [["As"; "Kh"]] 2 in
    match compute_probabilities (sim ext) (convert_card ext) (gen_samples ext n)
            100 [] [["As"; "Kh"]] 2 with
    | OutOfRange v => ([Stderr (ErrInvalidCard "Xx"); call; Undefined v], Crash)
    | Ok (inl e) log =>
        (Stderr (ErrInvalidCard "Xx") :: call :: (Stderr <$> log)
           ++ [Stdout (Failure (ErrException e))], Continue)
    | Ok (inr results) log =>
        match results with
        | (wins :: ties :: _) :: _ =>
            (Stderr (ErrInvalidCard "Xx") :: call :: (Stderr <$> log)
               ++ [Stdout (Success wins ties 100)], Continue)
        | _ => (Stderr (ErrInvalidCard "Xx") :: call :: (Stderr <$> log)
                  ++ [Undefined VResults], Crash)
        end
    end.
Proof. reflexivity. Qed.

(** C2 (the defect). An invalid token in the board field empties the parsed
    board, which passes the check on the board size: for any tables and any
    samples, the request [CALC Xx|As,Kh|2|100] runs the simulation on an empty
    board, and none of its responses is an error. *)
Theorem invalid_board_token_runs_simulation (n : nat) :
  let evs := (handle_calc ext n "CALC Xx|As,Kh|2|100").1 in
  isValidCard "Xx" = false
  ∧ Stderr (ErrInvalidCard "Xx") ∈ evs
  ∧ Simulation 100 [] [["As"; "Kh"]] 2 ∈ evs
  ∧ ∀ e, Stdout (Failure e) ∉ evs.
Proof.
  simpl. split; [done|]. rewrite handle_calc_invalid_board.
  destruct (compute_probabilities _ _ _ _ _ _ _)
    as [[e'|[|[|wins [|ties row]] results]] log|v] eqn:Hcalc;
    [apply calculate_throws in Hcalc as [_ Hrows]; by vm_compute in Hrows|..];
    cbn; (split; [|split]); try (intros e He);
    repeat first
      [ done
      | apply elem_of_cons in He as [He|He]
      | apply elem_of_app in He as [He|He]
      | apply list_elem_of_fmap in He as (? & ? & _)
      | apply elem_of_nil in He
      | (left; done) | right ].
Qed.

(** *** Invalid tokens *)





End request_handler.

(** ** Loading the table *)

Lemma read_ints_length n bytes : length (read_ints n bytes) = n.
Proof.
  revert bytes. induction n as [|n IH]; intros bytes; [done|].
  destruct bytes as [|b0 [|b1 [|b2 [|b3 rest]]]]; simpl;
    by rewrite ?length_replicate, ?IH.
Qed.

Lemma read_ints_lookup n bytes (i : nat) :
  (i < n)%nat → (4 * n <= length bytes)%nat →
  read_ints n bytes !! i = int_at bytes i.
Proof.
  revert bytes i. induction n as [|n IH]; intros bytes i Hi Hlen; [lia|].
  destruct bytes as [|b0 [|b1 [|b2 [|b3 rest]]]]; simpl in Hlen; try lia.
  destruct i as [|i]; [done|].
  cbn [read_ints]. rewrite lookup_cons_ne_0 by done. simpl.
  rewrite IH by lia. unfold int_at.
  replace (4 * S i)%nat with (S (S (S (S (4 * i))))) by lia.
  replace (4 * S i + 1)%nat with (S (S (S (S (4 * i + 1))))) by lia.
  replace (4 * S i + 2)%nat with (S (S (S (S (4 * i + 2))))) by lia.
  replace (4 * S i + 3)%nat with (S (S (S (S (4 * i + 3))))) by lia.
  done.
Qed.

Lemma read_vect_Some bytes :
  read_vect (Some bytes)
  = let fsize := wrap32 (Z.of_nat (length bytes)) in
    if (fsize <=? 0) || negb (fsize mod 4 =? 0)
    then Ok [] [ErrInvalidFileSize fsize]
    else Ok (read_ints (Z.to_nat (fsize / 4)) bytes) [].
Proof.
  unfold read_vect, filesize. simpl.
  by destruct (_ || _).
Qed.

Lemma read_vect_nonpositive bytes :
  wrap32 (Z.of_nat (length bytes)) <= 0 →
  read_vect (Some bytes)
  = Ok [] [ErrInvalidFileSize (wrap32 (Z.of_nat (length bytes)))].
Proof.
  intros Hle. rewrite read_vect_Some. simpl.
  by destruct (Z.leb_spec (wrap32 (Z.of_nat (length bytes))) 0); [|lia].
Qed.

(** C8 (as amended). For a file of less than 2^31 bytes, [read_vect] fails,
    returning the empty vector with one diagnostic, exactly when the file
    cannot be opened or its length is not a positive multiple of four;
    otherwise it returns, without a diagnostic, the length / 4 integers the
    file holds, in order. *)
Theorem read_vect_spec (f : file) :
  (∀ bytes, f = Some bytes → Z.of_nat (length bytes) < 2^31) →
  let invalid :=
    match f with
    | None => True
    | Some bytes =>
        ¬ (0 < Z.of_nat (length bytes) ∧ Z.of_nat (length bytes) mod 4 = 0)
    end in
  (invalid → ∃ d, read_vect f = Ok [] [d])
  ∧ (¬ invalid → ∃ bytes v,
       f = Some bytes ∧ read_vect f = Ok v []
       ∧ Z.of_nat (length v) = Z.of_nat (length bytes) / 4
       ∧ ∀ i : nat, (i < length v)%nat → v !! i = int_at bytes i).
Proof.
  intros Hsmall. destruct f as [bytes|]; cbv zeta.
  - specialize (Hsmall bytes eq_refl).
    rewrite read_vect_Some. cbv zeta.
    rewrite wrap32_id by lia.
    set (len := Z.of_nat (length bytes)) in *.
    destruct (Z.leb_spec len 0) as [Hle|Hpos]; simpl.
    + split; [eauto|]. intros Hn. exfalso. apply Hn. lia.
    + destruct (Z.eqb_spec (len mod 4) 0) as [Hmod|Hmod]; simpl.
      * split; [intros Hn; exfalso; apply Hn; lia|]. intros _.
        exists bytes, (read_ints (Z.to_nat (len / 4)) bytes).
        pose proof (Z.div_mod len 4 ltac:(lia)) as Hdm.
        assert (0 <= len / 4) by (apply Z.div_pos; lia).
        rewrite read_ints_length. split_and!; try done; [by rewrite Z2Nat.id|].
        intros i Hi. apply read_ints_lookup; [done|]. unfold len in *. lia.
      * split; [eauto|]. intros Hn. exfalso. apply Hn. lia.
  - split; [eauto|]. tauto.
Qed.

(** C8 (counterexample). A file of 2^31 bytes has a length that is a
    positive multiple of four, but the length read into an [int] is
    negative and [read_vect] fails. *)
Lemma read_vect_two_gib_counterexample :
  let bytes := replicate (Z.to_nat (2^31)) Byte.x00 in
  0 < Z.of_nat (length bytes)
  ∧ Z.of_nat (length bytes) mod 4 = 0
  ∧ read_vect (Some bytes) = Ok [] [ErrInvalidFileSize (- 2^31)].
Proof.
  intros bytes.
  assert (Z.of_nat (length bytes) = 2^31) as Hlen.
  { unfold bytes. rewrite length_replicate. apply Z2Nat.id. lia. }
  assert (wrap32 (Z.of_nat (length bytes)) = - 2^31) as Hw
    by (rewrite Hlen; reflexivity).
  split_and!.
  - rewrite Hlen. lia.
  - rewrite Hlen. reflexivity.
  - rewrite read_vect_nonpositive by (rewrite Hw; lia). by rewrite Hw.
Qed.

(** ** The evaluator: bounds *)

Lemma mbind_Ok_nil {A B} (a : A) (f : A → result B) : (Ok a [] ≫= f) = f a.
Proof.
  unfold mbind, result_bind. destruct (f a); [|done]. done.
Qed.

Lemma mbind_Ok {A B} (a : A) (l : list diag) (f : A → result B) :
  (Ok a l ≫= f)
  = match f a with
    | Ok b l' => Ok b (l ++ l')
    | OutOfRange v => OutOfRange v
    end.
Proof. done. Qed.

Lemma mbind_OutOfRange {A B} v (f : A → result B) :
  (OutOfRange v ≫= f) = OutOfRange v.
Proof. done. Qed.

Lemma vget_cases {A} id (v : list A) i :
  (0 <= i ∧ ∃ x, v !! Z.to_nat i = Some x ∧ vget id v i = Ok x [])
  ∨ ((i < 0 ∨ Z.of_nat (length v) <= i) ∧ vget id v i = OutOfRange id).
Proof.
  unfold vget. destruct (Z.leb_spec 0 i) as [Hi|Hi]; [|right; split; [lia|done]].
  destruct (v !! Z.to_nat i) as [x|] eqn:Hx.
  - left. eauto.
  - right. apply lookup_ge_None in Hx. split; [lia|done].
Qed.

Lemma vget_in_range {A} id (v : list A) i :
  0 <= i < Z.of_nat (length v) →
  ∃ x, v !! Z.to_nat i = Some x ∧ vget id v i = Ok x [].
Proof.
  intros Hi. destruct (vget_cases id v i) as [(_ & x & ? & ?)|([?|?] & _)];
    [eauto|lia|lia].
Qed.

Lemma vset_in_range {A} id (v : list A) i x :
  0 <= i < Z.of_nat (length v) →
  vset id v i x = Ok (<[Z.to_nat i := x]> v) [].
Proof.
  intros Hi. unfold vset.
  destruct (Z.leb_spec 0 i); [|lia].
  destruct (Z.ltb_spec i (Z.of_nat (length v))); [done|lia].
Qed.

Lemma in_bounds_range {A} i (v : list A) :
  in_bounds i v = true → 0 <= i < Z.of_nat (length v).
Proof.
  unfold in_bounds. intros [H0%Z.leb_le H1%Z.ltb_lt]%andb_prop.
  pose proof (isize_le v). lia.
Qed.

(** What one substitution step can do: it ends without a diagnostic, keeping
    the hand at five cards and never lowering the maximum, or it reads the
    hand or the selection at a negative entry of the substitution table. *)
Lemma replace_step_safe sim selection j st :
  0 <= j → length (es_hand st) = 5%nat →
  match replace_step sim selection j st with
  | Ok st' log =>
      log = [] ∧ length (es_hand st') = 5%nat ∧ es_max st <= es_max st'
  | OutOfRange v =>
      (v = VHand ∨ v = VSelection) ∧ ¬ Forall (λ r, 0 <= r) (replace sim)
  end.
Proof.
  intros Hj Hhand. unfold replace_step.
  assert (∀ b : bool, (if b then @mret result _ _ st else mret st) = Ok st [])
    as Hskip by (by intros []).
  destruct (Z.leb_spec (isize (replace sim)) (j + 1)) as [|Hj1];
    [split_and!; (done || lia)|].
  pose proof (isize_le (replace sim)) as Hr.
  destruct (vget_in_range VReplace (replace sim) j) as (rj & Hrj & ->); [lia|].
  rewrite mbind_Ok_nil.
  destruct (Z.leb_spec 5 rj) as [|Hrj5]; [split_and!; (done || lia)|].
  destruct (vget_in_range VReplace (replace sim) (j + 1)) as (rj1 & Hrj1 & ->);
    [lia|].
  rewrite mbind_Ok_nil.
  destruct (Z.leb_spec (isize selection) rj1) as [|Hsel];
    [split_and!; (done || lia)|].
  pose proof (isize_le selection) as Hs.
  destruct (vget_cases VSelection selection rj1)
    as [(Hrj1' & s & Hs1 & ->)|([?|?] & ->)]; [| |lia].
  2:{ rewrite mbind_OutOfRange. split; [by right|].
      intros Hall. rewrite Forall_forall in Hall.
      apply list_elem_of_lookup_2 in Hrj1. apply Hall in Hrj1. lia. }
  rewrite mbind_Ok_nil.
  destruct (vget_cases VHand (es_hand st) rj)
    as [(Hrj' & h & Hh & ->)|([?|?] & ->)]; [| |lia].
  2:{ rewrite mbind_OutOfRange. split; [by left|].
      intros Hall. rewrite Forall_forall in Hall.
      apply list_elem_of_lookup_2 in Hrj. apply Hall in Hrj. lia. }
  rewrite mbind_Ok_nil.
  destruct (in_bounds _ (c_table sim)) eqn:Hb1; [|split_and!; (done || lia)].
  destruct (in_bounds (wrap32 (wrap32 ((rj + 1) * 53) + h)) (c_table sim))
    eqn:Hb2; [|split_and!; (done || lia)].
  cbn [andb].
  apply in_bounds_range in Hb1, Hb2.
  destruct (vget_in_range VCTable (c_table sim) _ Hb1) as (c1 & _ & ->).
  rewrite mbind_Ok_nil.
  destruct (vget_in_range VCTable (c_table sim) _ Hb2) as (c2 & _ & ->).
  rewrite mbind_Ok_nil.
  rewrite vset_in_range by lia. rewrite mbind_Ok_nil.
  destruct (in_bounds _ (table sim)) eqn:Hb3.
  - apply in_bounds_range in Hb3.
    destruct (vget_in_range VTable (table sim) _ Hb3) as (t & _ & ->).
    rewrite mbind_Ok_nil. simpl. rewrite length_insert.
    split_and!; (done || lia).
  - simpl. rewrite length_insert. split_and!; (done || lia).
Qed.

Lemma replace_loop_safe sim selection n j st :
  0 <= j → length (es_hand st) = 5%nat →
  match replace_loop sim selection n j st with
  | Ok st' log => log = [] ∧ es_max st <= es_max st'
  | OutOfRange v =>
      (v = VHand ∨ v = VSelection) ∧ ¬ Forall (λ r, 0 <= r) (replace sim)
  end.
Proof.
  revert j st. induction n as [|n IH]; intros j st Hj Hhand;
    [split; (done || simpl; lia)|].
  cbn [replace_loop].
  pose proof (replace_step_safe sim selection j st Hj Hhand) as Hstep.
  destruct (replace_step sim selection j st) as [st' log|v]; [|done].
  destruct Hstep as (-> & Hhand' & Hmax). rewrite mbind_Ok_nil.
  specialize (IH (j + 2) st' ltac:(lia) Hhand').
  destruct (replace_loop sim selection n (j + 2) st'); [|done].
  split; [tauto|lia].
Qed.

(** [to_ckey] always returns: the key with no diagnostic, or the key 0 with
    the report of the first index outside the contribution table. *)
Lemma to_ckey_from_total sim hand i key :
  ∃ k log, to_ckey_from sim i hand key = Ok k log
    ∧ (log = []
       ∨ ∃ ix, log = [ErrCkeyIndex ix] ∧ in_bounds ix (c_table sim) = false
               ∧ k = 0).
Proof.
  revert i key. induction hand as [|card hand IH]; intros i key; simpl.
  - exists key, []. eauto.
  - destruct (in_bounds _ (c_table sim)) eqn:Hb.
    + apply in_bounds_range in Hb.
      destruct (vget_in_range VCTable (c_table sim) _ Hb) as (c & _ & ->).
      rewrite mbind_Ok_nil. apply IH.
    + eexists 0, _. split; [done|]. right. eauto.
Qed.

Lemma base_hand_Ok (s : list Z) :
  (7 <= length s)%nat →
  ∃ s0 s1 s2 s3 s4 s5 s6 rest,
    s = s0 :: s1 :: s2 :: s3 :: s4 :: s5 :: s6 :: rest
    ∧ mapM (λ i, vget VSelection s (i + 2)) [0; 1; 2; 3; 4]
      = Ok [s2; s3; s4; s5; s6] [].
Proof.
  intros Hlen.
  destruct s as [|s0 [|s1 [|s2 [|s3 [|s4 [|s5 [|s6 rest]]]]]]];
    simpl in Hlen; try lia.
  by exists s0, s1, s2, s3, s4, s5, s6, rest.
Qed.

Lemma sort_length (v : list Z) : length (sort v) = length v.
Proof. unfold sort. by rewrite merge_sort_Permutation. Qed.

(** C7 (as amended). Whatever the sizes of the tables, the evaluator never
    reads the score table, the contribution table or the substitution table
    outside their bounds (a read outside a vector can only be one of the hand
    or the selection at a negative entry of the substitution table). A
    selection of fewer than seven cards is reported and gives -1; an index
    of the base hand outside the contribution table is reported by [to_ckey],
    which gives the key 0; a base key outside the score table is reported and
    gives 0. Inside the substitution steps nothing is reported: the result
    carries the diagnostics of the base key only and is at least the score of
    the base key. *)
Theorem evaluate_selection_bounds (sim : Simulator) (sel : list Z) :
  let hand := take 5 (drop 2 (sort sel)) in
  (∀ v, evaluate_selection sim sel = OutOfRange v →
        (v = VHand ∨ v = VSelection) ∧ ¬ Forall (λ r, 0 <= r) (replace sim))
  ∧ ((length sel < 7)%nat →
     evaluate_selection sim sel = Ok (-1) [ErrSelectionSize])
  ∧ ((7 <= length sel)%nat →
     ∃ key log0,
       to_ckey sim hand = Ok key log0
       ∧ (log0 = []
          ∨ ∃ ix, log0 = [ErrCkeyIndex ix]
                  ∧ in_bounds ix (c_table sim) = false ∧ key = 0)
       ∧ (in_bounds key (table sim) = false →
          evaluate_selection sim sel = Ok 0 (log0 ++ [ErrKeyBounds key]))
       ∧ (in_bounds key (table sim) = true →
          ∃ base, table sim !! Z.to_nat key = Some base
            ∧ ∀ score log, evaluate_selection sim sel = Ok score log →
                log = log0 ∧ base <= score)).
Proof.
  intros hand. unfold evaluate_selection.
  pose proof (sort_length sel) as Hlen.
  destruct (Nat.ltb_spec (length (sort sel)) 7) as [Hshort|Hlong].
  { split_and!; [done|done|lia]. }
  destruct (base_hand_Ok (sort sel) Hlong)
    as (s0 & s1 & s2 & s3 & s4 & s5 & s6 & rest & Hs & ->).
  rewrite mbind_Ok_nil.
  assert (hand = [s2; s3; s4; s5; s6]) as Hhand by (unfold hand; by rewrite Hs).
  rewrite <- Hhand.
  destruct (to_ckey_from_total sim hand 0 0) as (key & log0 & Hkey & Hlog).
  fold (to_ckey sim hand) in Hkey. rewrite Hkey, mbind_Ok.
  assert (in_bounds key (table sim)
          = negb ((key <? 0) || (isize (table sim) <=? key))) as Hb.
  { unfold in_bounds.
    destruct (Z.ltb_spec key 0), (Z.leb_spec 0 key),
      (Z.ltb_spec key (isize (table sim))),
      (Z.leb_spec (isize (table sim)) key); simpl; try done; lia. }
  destruct ((key <? 0) || (isize (table sim) <=? key)) eqn:Hout; simpl in Hb.
  { change (report (ErrKeyBounds key) ≫= λ _, mret 0)
      with (Ok 0 [ErrKeyBounds key]).
    split_and!; [done|lia|]. intros _. exists key, log0.
    split_and!; try done. by rewrite Hb. }
  pose proof (in_bounds_range _ _ Hb) as Hrange.
  destruct (vget_in_range VTable (table sim) key Hrange) as (base & Hbase & Hget).
  rewrite Hget, mbind_Ok_nil.
  pose proof (replace_loop_safe sim (sort sel) 20 0
    {| es_key := key; es_hand := hand; es_max := base |}
    ltac:(lia) ltac:(by rewrite Hhand)) as Hloop.
  destruct (replace_loop _ _ _ _ _) as [st' log|v] eqn:Hrun.
  - destruct Hloop as [-> Hmax]. simpl in Hmax.
    change (Ok st' [] ≫= λ st, mret (es_max st)) with (Ok (es_max st') []).
    split_and!; [done|lia|]. intros _. exists key, log0.
    split_and!; try done; [by rewrite Hb|]. intros _. exists base.
    split; [done|]. intros score log [= <- <-].
    by rewrite !app_nil_r.
  - rewrite mbind_OutOfRange. split_and!; [|lia|].
    + by intros v' [= <-].
    + intros _. exists key, log0. split_and!; try done; [by rewrite Hb|].
      intros _. exists base. split; [done|]. by intros score log.
Qed.

(** ** One trial: winners and counters *)

Lemma max_list_snoc d l x : max_list d (l ++ [x]) = Z.max (max_list d l) x.
Proof. unfold max_list. by rewrite foldl_app. Qed.

Lemma max_list_ge_init d l : d <= max_list d l.
Proof.
  unfold max_list. revert d. induction l as [|x l IH]; intros d; simpl; [lia|].
  etrans; [|apply IH]. lia.
Qed.

Lemma max_list_mono d d' l : d <= d' → max_list d l <= max_list d' l.
Proof.
  unfold max_list. revert d d'.
  induction l as [|x l IH]; intros d d' Hd; simpl; [done|].
  apply IH. lia.
Qed.

Lemma max_list_ge d l x : x ∈ l → x <= max_list d l.
Proof.
  unfold max_list. revert d. induction l as [|y l IH]; intros d Hx.
  - by apply elem_of_nil in Hx.
  - apply elem_of_cons in Hx as [->|Hx]; simpl; [|by apply IH].
    etrans; [|apply (max_list_ge_init _ l)]. lia.
Qed.

Lemma max_list_elem d l : max_list d l = d ∨ max_list d l ∈ l.
Proof.
  unfold max_list. revert d. induction l as [|y l IH]; intros d; simpl; [by left|].
  destruct (IH (Z.max d y)) as [->|Hin]; [|right; by right].
  destruct (Z.max_spec d y) as [[_ ->]|[_ ->]]; [right; by left|by left].
Qed.

Lemma filter_none {A} (P : A → Prop) `{!∀ x, Decision (P x)} (l : list A) :
  Forall (λ x, ¬ P x) l → filter P l = [].
Proof.
  induction 1 as [|x l Hx _ IH]; [done|]. by rewrite filter_cons_False.
Qed.

Lemma best_score_snoc seats ix v :
  best_score (seats ++ [(ix, v)]) = Z.max (best_score seats) v.
Proof. unfold best_score. rewrite fmap_app. simpl. by rewrite max_list_snoc. Qed.

Lemma best_score_ge seats ix v : (ix, v) ∈ seats → v <= best_score seats.
Proof.
  intros Hin. apply max_list_ge. apply list_elem_of_fmap. by exists (ix, v).
Qed.

Lemma top_seats_snoc_new seats ix v :
  best_score seats < v → top_seats (seats ++ [(ix, v)]) = [ix].
Proof.
  intros Hlt. unfold top_seats. rewrite best_score_snoc, Z.max_r by lia.
  rewrite filter_app, fmap_app.
  rewrite (filter_singleton_True _ (ix, v) []) by done.
  replace (filter _ seats) with (@nil (Z * Z)); [done|].
  symmetry. apply filter_none.
  apply Forall_forall. intros [ix' v'] Hin Hv. simpl in Hv. subst v'.
  apply best_score_ge in Hin. lia.
Qed.

Lemma top_seats_snoc_tie seats ix v :
  v = best_score seats → top_seats (seats ++ [(ix, v)]) = top_seats seats ++ [ix].
Proof.
  intros ->. unfold top_seats. rewrite best_score_snoc, Z.max_id.
  rewrite filter_app, fmap_app.
  by rewrite (filter_singleton_True _ (ix, _) []).
Qed.

Lemma top_seats_snoc_lower seats ix v :
  v < best_score seats → top_seats (seats ++ [(ix, v)]) = top_seats seats.
Proof.
  intros Hlt. unfold top_seats. rewrite best_score_snoc, Z.max_l by lia.
  rewrite filter_app, fmap_app.
  rewrite (filter_singleton_False _ (ix, v) []) by (simpl; lia).
  by rewrite app_nil_r.
Qed.

Lemma update_winners_inv st ix v :
  winners_inv st → 0 <= v →
  winners_inv
    {| ss_selection := ss_selection st;
       ss_max := (update_winners v (ss_max st) ix (ss_winners st)).1;
       ss_winners := (update_winners v (ss_max st) ix (ss_winners st)).2;
       ss_seats := ss_seats st ++ [(ix, v)] |}.
Proof.
  intros (Hmax & Hwin & Hpos) Hv. unfold winners_inv, update_winners. simpl.
  rewrite best_score_snoc, Hmax, Hwin.
  destruct (Z.ltb_spec (best_score (ss_seats st)) v) as [Hlt|Hge]; simpl.
  - rewrite top_seats_snoc_new by done. split_and!; [lia|done|].
    apply Forall_app_2; [done|]. by repeat constructor.
  - destruct (Z.eqb_spec v (best_score (ss_seats st))) as [Heq|Hne]; simpl.
    + rewrite top_seats_snoc_tie by done. split_and!; [lia|done|].
      apply Forall_app_2; [done|]. by repeat constructor.
    + rewrite top_seats_snoc_lower by lia. split_and!; [lia|done|].
      apply Forall_app_2; [done|]. by repeat constructor.
Qed.

Lemma mbind_Ok_inv {A B} (m : result A) (f : A → result B) b l :
  (m ≫= f) = Ok b l →
  ∃ a l1 l2, m = Ok a l1 ∧ f a = Ok b l2 ∧ l = l1 ++ l2.
Proof.
  destruct m as [a l1|v]; [|done]. rewrite mbind_Ok.
  destruct (f a) as [b' l2|v] eqn:Hf; [|done].
  intros [= <- <-]. eauto 6.
Qed.

Lemma seat_inv_mono b b' st : b <= b' → seat_inv b st → seat_inv b' st.
Proof.
  intros Hb (Hw & Hn & Hf). split_and!; try done.
  eapply Forall_impl; [done|]. simpl. intros. lia.
Qed.

Lemma seat_eval_inv sim c1 c2 ix st st' log b :
  seat_eval sim c1 c2 ix st = Ok st' log →
  seat_inv b st → 0 <= b <= ix →
  seat_inv (ix + 1) st'.
Proof.
  unfold seat_eval. intros Hrun (Hw & Hn & Hf) Hb.
  apply mbind_Ok_inv in Hrun as (sel1 & ? & ? & _ & Hrun & _).
  apply mbind_Ok_inv in Hrun as (sel2 & ? & ? & _ & Hrun & _).
  apply mbind_Ok_inv in Hrun as (v & ? & ? & _ & Hrun & _).
  destruct (Z.leb_spec 0 v) as [Hv|Hv]; injection Hrun as <- _.
  - split_and!.
    + by apply (update_winners_inv st ix v).
    + simpl. rewrite fmap_app. apply NoDup_app. split_and!; [done| |].
      * intros seat Hseat [->|[]%elem_of_nil]%elem_of_cons.
        apply list_elem_of_fmap in Hseat as ([ix' v'] & Heq & Hin).
        rewrite Forall_forall in Hf. apply Hf in Hin. simpl in Heq, Hin. lia.
      * apply NoDup_singleton.
    + simpl. apply Forall_app_2.
      * eapply Forall_impl; [done|]. simpl. intros. lia.
      * repeat constructor; simpl; lia.
  - split_and!; simpl; try done.
    eapply Forall_impl; [done|]. simpl. intros. lia.
Qed.

Lemma simulate_known_inv sim known_hands i st st' log :
  simulate_known sim i known_hands st = Ok st' log →
  0 <= i → i + Z.of_nat (length known_hands) < 2^31 →
  seat_inv i st →
  seat_inv (i + Z.of_nat (length known_hands)) st'.
Proof.
  revert i st log.
  induction known_hands as [|hand known_hands IH]; intros i st log Hrun Hi Hlen Hinv.
  - injection Hrun as <- _. simpl. by rewrite Z.add_0_r.
  - cbn [simulate_known] in Hrun. cbn [length] in *.
    replace (i + Z.of_nat (S (length known_hands)))
      with (i + 1 + Z.of_nat (length known_hands)) by lia.
    destruct (length hand <? 2)%nat.
    + eapply IH; [done|lia|lia|]. eapply seat_inv_mono; [|done]. lia.
    + apply mbind_Ok_inv in Hrun as (c1 & ? & ? & _ & Hrun & _).
      apply mbind_Ok_inv in Hrun as (c2 & ? & ? & _ & Hrun & _).
      apply mbind_Ok_inv in Hrun as (st1 & ? & ? & Hseat & Hrun & _).
      eapply IH; [done|lia|lia|].
      rewrite wrap32_id in Hseat by lia.
      eapply seat_eval_inv; [done|done|lia].
Qed.

Lemma simulate_unknown_inv sim n_known sample start fuel i st st' log :
  simulate_unknown sim n_known sample start fuel i st = Ok st' log →
  0 <= i → 0 <= n_known → n_known + i + Z.of_nat fuel < 2^31 →
  seat_inv (n_known + i) st →
  seat_inv (n_known + i + Z.of_nat fuel) st'.
Proof.
  revert i st log.
  induction fuel as [|fuel IH]; intros i st log Hrun Hi Hn Hlen Hinv.
  - injection Hrun as <- _. by rewrite Z.add_0_r.
  - cbn [simulate_unknown] in Hrun.
    replace (n_known + i + Z.of_nat (S fuel))
      with (n_known + (i + 1) + Z.of_nat fuel) by lia.
    destruct (wrap32 (start + i * 2 + 1) <? isize sample).
    + apply mbind_Ok_inv in Hrun as (c1 & ? & ? & _ & Hrun & _).
      apply mbind_Ok_inv in Hrun as (c2 & ? & ? & _ & Hrun & _).
      apply mbind_Ok_inv in Hrun as (st1 & ? & ? & Hseat & Hrun & _).
      eapply IH; [done|lia|lia|lia|].
      rewrite wrap32_id in Hseat by lia.
      replace (n_known + (i + 1)) with (n_known + i + 1) by lia.
      eapply seat_eval_inv; [done|done|lia].
    + injection Hrun as <- _. eapply seat_inv_mono; [|done]. lia.
Qed.

Lemma simulate_state_inv sim selection known_hands sample start st log :
  simulate_state sim selection known_hands sample start = Ok st log →
  Z.of_nat (length known_hands) + Z.of_nat (length sample) + 1 < 2^31 →
  seat_inv (Z.of_nat (length known_hands) + Z.of_nat (S (length sample))) st.
Proof.
  unfold simulate_state. intros Hrun Hlen.
  apply mbind_Ok_inv in Hrun as (st1 & ? & ? & Hknown & Hunknown & _).
  apply simulate_known_inv in Hknown; [|lia|lia|].
  2:{ split_and!; [|constructor|constructor].
      unfold winners_inv. simpl. by split_and!. }
  rewrite isize_small in Hunknown by lia.
  apply simulate_unknown_inv in Hunknown; [|lia|lia|lia|].
  - by rewrite Z.add_0_r in Hunknown.
  - by rewrite Z.add_0_r.
Qed.

Lemma bump_wins results w wins ties :
  0 <= w → results !! Z.to_nat w = Some [wins; ties] →
  - 2^31 <= wins + 1 < 2^31 →
  bump 0 w results = Ok (<[Z.to_nat w := [wins + 1; ties]]> results) [].
Proof.
  intros Hw Hrow Hwins. unfold bump.
  rewrite (vget_Ok VResults results w _ Hw Hrow), mbind_Ok_nil.
  assert (Z.to_nat w < length results)%nat by (by eapply lookup_lt_Some).
  change (vget VResults [wins; ties] 0) with (Ok wins (@nil diag)).
  rewrite mbind_Ok_nil, wrap32_id by done.
  change (vset VResults [wins; ties] 0 (wins + 1))
    with (Ok [wins + 1; ties] (@nil diag)).
  rewrite mbind_Ok_nil. apply vset_in_range. lia.
Qed.

Lemma bump_ties results w wins ties :
  0 <= w → results !! Z.to_nat w = Some [wins; ties] →
  - 2^31 <= ties + 1 < 2^31 →
  bump 1 w results = Ok (<[Z.to_nat w := [wins; ties + 1]]> results) [].
Proof.
  intros Hw Hrow Hties. unfold bump.
  rewrite (vget_Ok VResults results w _ Hw Hrow), mbind_Ok_nil.
  assert (Z.to_nat w < length results)%nat by (by eapply lookup_lt_Some).
  change (vget VResults [wins; ties] 1) with (Ok ties (@nil diag)).
  rewrite mbind_Ok_nil, wrap32_id by done.
  change (vset VResults [wins; ties] 1 (ties + 1))
    with (Ok [wins; ties + 1] (@nil diag)).
  rewrite mbind_Ok_nil. apply vset_in_range. lia.
Qed.

Lemma credit_ties_spec ws results :
  NoDup ws → Forall (λ w, 0 <= w) ws →
  Z.of_nat (length results) < 2^31 →
  counters_ok ws results →
  ∃ results',
    credit_ties ws results = Ok results' []
    ∧ length results' = length results
    ∧ ∀ (i : nat) wins ties, results !! i = Some [wins; ties] →
        results' !! i
        = Some [wins; if decide (Z.of_nat i ∈ ws) then ties + 1 else ties].
Proof.
  intros Hnd. revert results.
  induction Hnd as [|w ws Hw Hnd IH]; intros results Hpos Hlen Hok.
  - exists results. by split_and!.
  - apply Forall_cons in Hpos as [Hw0 Hpos]. cbn [credit_ties].
    unfold in_bounds. rewrite isize_small by done.
    destruct (Z.leb_spec 0 w); [|lia]. cbn [andb].
    destruct (Z.ltb_spec w (Z.of_nat (length results))) as [Hin|Hout].
    + destruct (lookup_lt_is_Some_2 results (Z.to_nat w)) as [row Hrow]; [lia|].
      destruct (Hok _ _ Hrow) as (wins & ties & -> & Hwl & Htl & Hup).
      destruct Hup as [_ Hup]; [rewrite Z2Nat.id by done; by left|].
      rewrite (bump_ties results w wins ties) by (done || lia).
      rewrite mbind_Ok_nil.
      destruct (IH (<[Z.to_nat w := [wins; ties + 1]]> results))
        as (results' & -> & Hlen' & Hrows); [done|by rewrite length_insert| |].
      { intros i row Hi. destruct (decide (i = Z.to_nat w)) as [->|Hne].
        - rewrite list_lookup_insert_eq in Hi by lia. injection Hi as <-.
          exists wins, (ties + 1). split_and!; try done; try lia.
          rewrite Z2Nat.id by done. done.
        - rewrite list_lookup_insert_ne in Hi by done.
          destruct (Hok _ _ Hi) as (a & b & -> & ? & ? & Hup').
          exists a, b. split_and!; try done. intros ?. apply Hup'. by right. }
      exists results'. rewrite length_insert in Hlen'. split_and!; try done.
      intros i a b Hi. destruct (decide (i = Z.to_nat w)) as [->|Hne].
      * rewrite Hrow in Hi. injection Hi as <- <-.
        rewrite (Hrows (Z.to_nat w) wins (ties + 1))
          by (by rewrite list_lookup_insert_eq by lia).
        rewrite Z2Nat.id by done.
        rewrite decide_False by done. rewrite decide_True by (by left). done.
      * rewrite (Hrows i a b) by (by rewrite list_lookup_insert_ne).
        do 3 f_equal.
        destruct (decide (Z.of_nat i ∈ ws)) as [Hi'|Hi'].
        -- rewrite decide_True by (by right). done.
        -- rewrite decide_False; [done|].
           intros [Heq|?]%elem_of_cons; [lia|done].
    + change (mret results) with (Ok results (@nil diag)).
      cbv iota. rewrite mbind_Ok_nil.
      destruct (IH results) as (results' & -> & Hlen' & Hrows); [done|done| |].
      { intros i row Hi. destruct (Hok _ _ Hi) as (a & b & -> & ? & ? & Hup').
        exists a, b. split_and!; try done. intros ?. apply Hup'. by right. }
      exists results'. split_and!; try done.
      intros i a b Hi. rewrite (Hrows i a b Hi). do 3 f_equal.
      apply lookup_lt_Some in Hi.
      destruct (decide (Z.of_nat i ∈ ws)) as [Hi'|Hi'].
      * rewrite decide_True by (by right). done.
      * rewrite decide_False; [done|].
        intros [Heq|?]%elem_of_cons; [lia|done].
Qed.

Lemma NoDup_fmap_fst_filter (P : Z * Z → Prop) `{!∀ x, Decision (P x)}
    (l : list (Z * Z)) :
  NoDup l.*1 → NoDup (filter P l).*1.
Proof.
  induction l as [|x l IH]; [done|].
  rewrite fmap_cons. intros [Hx Hl]%NoDup_cons. rewrite filter_cons.
  destruct (decide (P x)); [|by apply IH].
  rewrite fmap_cons. apply NoDup_cons. split; [|by apply IH].
  intros Hin. apply Hx.
  apply list_elem_of_fmap in Hin as (y & -> & [_ Hy]%list_elem_of_filter).
  apply list_elem_of_fmap. by exists y.
Qed.



(** ** The evaluator: best of the 21 hands *)

Lemma zlookup_Some v i x :
  zlookup v i = Some x ↔ 0 <= i ∧ v !! Z.to_nat i = Some x.
Proof.
  unfold zlookup. destruct (Z.leb_spec 0 i) as [Hi|Hi].
  - tauto.
  - split; [done|]. intros [? _]. lia.
Qed.

Lemma zlookup_in_bounds v i x :
  Z.of_nat (length v) < 2^31 → zlookup v i = Some x →
  wrap32 i = i ∧ in_bounds i v = true ∧ ∀ id, vget id v i = Ok x [].
Proof.
  intros Hlen [Hi Hx]%zlookup_Some.
  pose proof (lookup_lt_Some _ _ _ Hx) as Hlt.
  split_and!.
  - apply wrap32_id. lia.
  - unfold in_bounds. rewrite isize_small by done.
    destruct (Z.leb_spec 0 i), (Z.ltb_spec i (Z.of_nat (length v))); try done; lia.
  - intros id. by apply vget_Ok.
Qed.

Lemma wrap32_idemp z : wrap32 (wrap32 z) = wrap32 z.
Proof. apply wrap32_id, wrap32_range. Qed.

Lemma sublists_fmap {A B} (f : A → B) k (l : list A) :
  sublists k (f <$> l) = fmap (M := list) f <$> sublists k l.
Proof.
  revert k. induction l as [|x l IH]; intros [|k]; try done.
  cbn [sublists fmap list_fmap]. rewrite !IH, fmap_app.
  f_equal. rewrite <- !list_fmap_compose. done.
Qed.

Lemma pick_all (s : list Z) :
  length s = 7%nat → pick s [0; 1; 2; 3; 4; 5; 6] = s.
Proof.
  intros Hlen.
  destruct s as [|s0 [|s1 [|s2 [|s3 [|s4 [|s5 [|s6 [|]]]]]]]]; done.
Qed.

Lemma sublists_pick (s : list Z) :
  length s = 7%nat →
  sublists 5 s = pick s <$> sublists 5 [0; 1; 2; 3; 4; 5; 6].
Proof.
  intros Hlen. rewrite <- (pick_all s Hlen) at 1.
  unfold pick at 1. by rewrite sublists_fmap.
Qed.

(** The tables of a simulator that can be indexed by an [int]. *)
Section best_of_21.
Context (sim : Simulator).
Hypothesis Htable : Z.of_nat (length (table sim)) < 2^31.
Hypothesis Hc_table : Z.of_nat (length (c_table sim)) < 2^31.
Hypothesis Hreplace : Z.of_nat (length (replace sim)) < 2^31.

(** [to_ckey] computes the sum of the contributions, reduced to an [int]. *)
Lemma to_ckey_from_sum hand i key K :
  wrap32 key = key →
  ckey_sum_from sim i hand = Some K →
  to_ckey_from sim i hand key = Ok (wrap32 (key + K)) [].
Proof.
  revert i key K.
  induction hand as [|card hand IH]; intros i key K Hkey Hsum; simpl in *.
  - injection Hsum as <-. by rewrite Z.add_0_r, Hkey.
  - destruct (zlookup (c_table sim) ((i + 1) * 53 + card)) as [c|] eqn:Hc;
      [|done]. simpl in Hsum.
    destruct (ckey_sum_from sim (i + 1) hand) as [K'|] eqn:HK'; [|done].
    injection Hsum as <-.
    destruct (zlookup_in_bounds _ _ _ Hc_table Hc) as (-> & -> & ->).
    rewrite mbind_Ok_nil.
    rewrite (IH _ _ K') by (done || apply wrap32_idemp).
    f_equal. rewrite wrap32_add_l. f_equal. lia.
Qed.

(** Replacing the card at one position changes the sum by the difference
    of the two contributions at that position. *)
Lemma ckey_sum_update hand i (p : nat) h x K K' :
  hand !! p = Some h →
  ckey_sum_from sim i hand = Some K →
  ckey_sum_from sim i (<[p := x]> hand) = Some K' →
  ∃ c1 c2,
    zlookup (c_table sim) ((i + Z.of_nat p + 1) * 53 + x) = Some c1
    ∧ zlookup (c_table sim) ((i + Z.of_nat p + 1) * 53 + h) = Some c2
    ∧ K' = K + (c1 - c2).
Proof.
  revert i p K K'.
  induction hand as [|card hand IH]; intros i p K K' Hp HK HK'; [done|].
  destruct p as [|p]; simpl in *.
  - injection Hp as ->. rewrite Z.add_0_r.
    destruct (zlookup _ ((i + 1) * 53 + h)) as [c2|]; [|done].
    destruct (zlookup _ ((i + 1) * 53 + x)) as [c1|]; [|done].
    destruct (ckey_sum_from sim (i + 1) hand) as [k|]; [|done].
    simpl in *. injection HK as <-. injection HK' as <-.
    exists c1, c2. split_and!; try done. lia.
  - destruct (zlookup _ ((i + 1) * 53 + card)) as [c|]; [|done].
    simpl in *.
    destruct (ckey_sum_from sim (i + 1) hand) as [k|] eqn:Hk; [|done].
    destruct (ckey_sum_from sim (i + 1) (<[p := x]> hand)) as [k'|] eqn:Hk';
      [|done].
    simpl in *. injection HK as <-. injection HK' as <-.
    destruct (IH (i + 1) p k k' Hp Hk Hk') as (c1 & c2 & H1 & H2 & ->).
    exists c1, c2.
    replace (i + Z.of_nat (S p) + 1) with (i + 1 + Z.of_nat p + 1) by lia.
    split_and!; try done. lia.
Qed.

Lemma score5_inv hand v :
  score5 sim hand = Some v →
  ∃ K, ckey_sum_from sim 0 hand = Some K
    ∧ 0 <= K < Z.of_nat (length (table sim))
    ∧ zlookup (table sim) K = Some v.
Proof.
  unfold score5. destruct (ckey_sum_from sim 0 hand) as [K|]; [|done].
  simpl. intros Hv. exists K. split_and!; try done.
  - by apply zlookup_Some in Hv as [? _].
  - apply zlookup_Some in Hv as [? Hv%lookup_lt_Some]. lia.
Qed.

(** One substitution step moves the hand to the next positions of the
    path and takes the score of the new hand into the maximum. *)
Lemma replace_step_path s (j : nat) idxs st p q v :
  length s = 7%nat →
  replace sim !! j = Some p → replace sim !! S j = Some q →
  0 <= p < 5 → 0 <= q < 7 →
  hand_inv sim s idxs st →
  score5 sim (pick s (<[Z.to_nat p := q]> idxs)) = Some v →
  ∃ st',
    replace_step sim s (Z.of_nat j) st = Ok st' []
    ∧ hand_inv sim s (<[Z.to_nat p := q]> idxs) st'
    ∧ es_max st' = Z.max (es_max st) v.
Proof.
  intros Hs Hp Hq Hp5 Hq7 (Hhand & Hidxs & Hsum & Hkey) Hscore.
  apply score5_inv in Hscore as (K' & Hsum' & HK' & Hv).
  assert (pick s (<[Z.to_nat p := q]> idxs)
          = <[Z.to_nat p := s !!! Z.to_nat q]> (es_hand st)) as Hpick.
  { rewrite Hhand. unfold pick. by rewrite list_fmap_insert. }
  rewrite Hpick in Hsum'.
  destruct (lookup_lt_is_Some_2 (es_hand st) (Z.to_nat p)) as [h Hh].
  { rewrite Hhand. unfold pick. rewrite length_fmap. lia. }
  destruct (ckey_sum_update _ 0 _ h _ _ _ Hh Hsum Hsum')
    as (c1 & c2 & Hc1 & Hc2 & HKeq).
  rewrite Z2Nat.id in Hc1, Hc2 by lia.
  replace (0 + p + 1) with (p + 1) in Hc1, Hc2 by lia.
  unfold replace_step.
  rewrite isize_small by done.
  pose proof (lookup_lt_Some _ _ _ Hq) as Hjlt.
  destruct (Z.leb_spec (Z.of_nat (length (replace sim))) (Z.of_nat j + 1)); [lia|].
  rewrite (vget_Ok VReplace (replace sim) (Z.of_nat j) p)
    by (lia || by rewrite Nat2Z.id).
  rewrite mbind_Ok_nil.
  destruct (Z.leb_spec 5 p); [lia|].
  rewrite (vget_Ok VReplace (replace sim) (Z.of_nat j + 1) q)
    by (lia || (by replace (Z.to_nat (Z.of_nat j + 1)) with (S j) by lia)).
  rewrite mbind_Ok_nil.
  rewrite isize_small by lia. rewrite Hs.
  destruct (Z.leb_spec (Z.of_nat 7) q); [lia|].
  rewrite (vget_Ok VSelection s q (s !!! Z.to_nat q));
    [|lia|apply list_lookup_lookup_total_lt; lia].
  rewrite mbind_Ok_nil.
  rewrite (vget_Ok VHand (es_hand st) p h) by (lia || done).
  rewrite mbind_Ok_nil.
  assert (wrap32 ((p + 1) * 53) = (p + 1) * 53) as -> by (apply wrap32_id; lia).
  destruct (zlookup_in_bounds _ _ _ Hc_table Hc1) as (-> & -> & ->).
  destruct (zlookup_in_bounds _ _ _ Hc_table Hc2) as (-> & -> & ->).
  cbn [andb]. rewrite !mbind_Ok_nil.
  rewrite vset_in_range.
  2:{ apply lookup_lt_Some in Hh. lia. }
  rewrite mbind_Ok_nil.
  rewrite wrap32_add_r.
  rewrite <- HKeq, (wrap32_id K') by lia.
  destruct (zlookup_in_bounds _ _ _ Htable Hv) as (_ & -> & ->).
  rewrite mbind_Ok_nil.
  eexists. split; [done|]. split; [|done].
  unfold hand_inv. simpl. rewrite length_insert.
  split_and!; done || lia.
Qed.

Lemma replace_loop_path s n (j : nat) idxs st path :
  length s = 7%nat →
  index_path (replace sim) n j idxs = Some path →
  hand_inv sim s idxs st →
  Forall (λ ix, is_Some (score5 sim (pick s ix))) path →
  ∃ vs st',
    Forall2 (λ ix v, score5 sim (pick s ix) = Some v) path vs
    ∧ replace_loop sim s n (Z.of_nat j) st = Ok st' []
    ∧ es_max st' = max_list (es_max st) vs.
Proof.
  intros Hs. revert j idxs st path.
  induction n as [|n IH]; intros j idxs st path Hpath Hinv Hscores.
  - injection Hpath as <-. exists [], st. by split_and!.
  - cbn [index_path] in Hpath.
    destruct (replace sim !! j) as [p|] eqn:Hp; [|done].
    destruct (replace sim !! S j) as [q|] eqn:Hq; [|done].
    destruct ((0 <=? p) && (p <? 5) && (0 <=? q) && (q <? 7)) eqn:Hpq; [|done].
    apply andb_prop in Hpq as [[[?%Z.leb_le ?%Z.ltb_lt]%andb_prop
      ?%Z.leb_le]%andb_prop ?%Z.ltb_lt].
    destruct (index_path (replace sim) n (S (S j)) _) as [path'|] eqn:Hpath';
      [|done].
    injection Hpath as <-.
    apply Forall_cons in Hscores as [[v Hv] Hscores].
    destruct (replace_step_path s j idxs st p q v)
      as (st1 & Hstep & Hinv1 & Hmax1); try done.
    destruct (IH _ _ st1 _ Hpath' Hinv1 Hscores) as (vs & st' & Hvs & Hloop & Hmax).
    exists (v :: vs), st'. split_and!.
    + by constructor.
    + cbn [replace_loop]. rewrite Hstep, mbind_Ok_nil.
      replace (Z.of_nat j + 2) with (Z.of_nat (S (S j))) by lia. done.
    + rewrite Hmax, Hmax1. done.
Qed.

(** C1. For a selection of seven cards, with tables that can be indexed
    by an [int], a substitution table whose 20 steps visit the 21 five-card
    subsets, and a score for each of the 21 five-card hands of the sorted
    selection: the hands are 21, [evaluate_selection] returns without a
    diagnostic a score that is at least the score of each of them and is the
    score of one of them, and this score is the running maximum over the base
    hand and the 20 hands reached by the substitution steps. *)
Theorem evaluate_selection_best_of_21 (sel : list Z) :
  length sel = 7%nat →
  replace_covers (replace sim) = true →
  Forall (λ hand, is_Some (score5 sim hand)) (sublists 5 (sort sel)) →
  let hands := sublists 5 (sort sel) in
  length hands = 21%nat
  ∧ ∃ best,
      evaluate_selection sim sel = Ok best []
      ∧ (∀ hand, hand ∈ hands → ∃ v, score5 sim hand = Some v ∧ v <= best)
      ∧ (∃ hand, hand ∈ hands ∧ score5 sim hand = Some best)
      ∧ ∃ path v0 vs,
          index_path (replace sim) 20 0 base_positions = Some path
          ∧ length path = 20%nat
          ∧ score5 sim (pick (sort sel) base_positions) = Some v0
          ∧ Forall2 (λ idxs v, score5 sim (pick (sort sel) idxs) = Some v) path vs
          ∧ best = max_list v0 vs.
Proof.
  intros Hlen Hcov Hscores hands.
  set (s := sort sel) in *.
  assert (length s = 7%nat) as Hs by (unfold s; by rewrite sort_length).
  unfold replace_covers in Hcov.
  destruct (index_path (replace sim) 20 0 base_positions) as [path|] eqn:Hpath;
    [|done].
  apply andb_prop in Hcov as [Hsub1%bool_decide_eq_true_1 Hsub2%bool_decide_eq_true_1].
  assert (hands = pick s <$> sublists 5 [0; 1; 2; 3; 4; 5; 6]) as Hhands
    by (by apply sublists_pick).
  assert (∀ idxs, idxs ∈ base_positions :: path →
            is_Some (score5 sim (pick s idxs))) as Hsome.
  { intros idxs Hin. rewrite Forall_forall in Hscores. apply Hscores.
    fold hands. rewrite Hhands. apply list_elem_of_fmap. exists idxs.
    split; [done|]. by apply Hsub1. }
  destruct (Hsome base_positions) as [v0 Hv0]; [by left|].
  destruct (score5_inv _ _ Hv0) as (K0 & HK0 & HK0r & Ht0).
  destruct (base_hand_Ok s) as (s0 & s1 & s2 & s3 & s4 & s5 & s6 & rest & Hseq & Hbase);
    [lia|].
  assert (pick s base_positions = [s2; s3; s4; s5; s6]) as Hpb
    by (by rewrite Hseq).
  rewrite Hpb in *.
  set (st0 := {| es_key := K0; es_hand := [s2; s3; s4; s5; s6]; es_max := v0 |}).
  destruct (replace_loop_path s 20 0 base_positions st0 path)
    as (vs & st' & Hvs & Hloop & Hmax); try done.
  { apply Forall_forall. intros idxs Hin. apply Hsome. by right. }
  simpl in Hmax.
  assert (evaluate_selection sim sel = Ok (max_list v0 vs) []) as Heval.
  { unfold evaluate_selection. fold s. rewrite Hs. cbn [Nat.ltb Nat.leb].
    rewrite Hbase, mbind_Ok_nil.
    unfold to_ckey. rewrite (to_ckey_from_sum _ 0 0 K0) by done.
    rewrite Z.add_0_l, (wrap32_id K0) by lia. rewrite mbind_Ok_nil.
    rewrite isize_small by done.
    destruct (Z.ltb_spec K0 0); [lia|].
    destruct (Z.leb_spec (Z.of_nat (length (table sim))) K0); [lia|].
    cbn [orb].
    destruct (zlookup_in_bounds _ _ _ Htable Ht0) as (_ & _ & ->).
    rewrite mbind_Ok_nil. fold st0.
    change (Z.of_nat 0) with 0 in Hloop. rewrite Hloop, mbind_Ok_nil.
    by rewrite Hmax. }
  (* the scores of the visited hands *)
  assert (∀ idxs, idxs ∈ base_positions :: path →
            ∃ v, score5 sim (pick s idxs) = Some v ∧ v ∈ v0 :: vs) as Hvisited.
  { intros idxs [->|Hin]%elem_of_cons.
    - exists v0. rewrite Hpb. split; [done|by left].
    - apply list_elem_of_lookup in Hin as [i Hi].
      destruct (Forall2_lookup_l _ _ _ _ _ Hvs Hi) as (v & Hv & Hsc).
      exists v. split; [done|]. right. by eapply list_elem_of_lookup_2. }
  split.
  { rewrite Hhands, length_fmap. done. }
  exists (max_list v0 vs). split; [done|]. split_and!.
  - intros hand Hhand. rewrite Hhands in Hhand.
    apply list_elem_of_fmap in Hhand as (idxs & -> & Hidxs).
    destruct (Hvisited idxs) as (v & Hv & Hin); [by apply Hsub2|].
    exists v. split; [done|].
    apply elem_of_cons in Hin as [->|Hin];
      [apply max_list_ge_init|by apply max_list_ge].
  - assert (∃ idxs, idxs ∈ base_positions :: path
              ∧ score5 sim (pick s idxs) = Some (max_list v0 vs))
      as (idxs & Hin & Hsc).
    { destruct (max_list_elem v0 vs) as [->|Hel].
      - exists base_positions. rewrite Hpb. split; [by left|done].
      - apply list_elem_of_lookup in Hel as [i Hi].
        destruct (Forall2_lookup_r _ _ _ _ _ Hvs Hi) as (idxs & Hidxs & Hsc).
        exists idxs. split; [|done]. right. by eapply list_elem_of_lookup_2. }
    exists (pick s idxs). split; [|done].
    rewrite Hhands. apply list_elem_of_fmap. exists idxs. split; [done|].
    by apply Hsub1.
  - exists path, v0, vs. split_and!; try done.
    apply Forall2_length in Hvs.
    assert (∀ r n j idxs p, index_path r n j idxs = Some p → length p = n)
      as Hlenp.
    { clear. intros r n. induction n as [|n IH]; intros j idxs p Hp; simpl in Hp.
      - by injection Hp as <-.
      - repeat case_match; try done.
        destruct (index_path r n (S (S j)) _) eqn:Hq; [|done].
        injection Hp as <-. simpl. f_equal. by eapply IH. }
    by eapply Hlenp.
Qed.

End best_of_21.

(** *** The fuel of the loop over the unknown seats *)

Lemma mbind_ext {A B} (m : result A) (f g : A → result B) :
  (∀ a, f a = g a) → (m ≫= f) = (m ≫= g).
Proof. intros Hfg. destruct m as [a l|v]; [|done]. by rewrite !mbind_Ok, Hfg. Qed.

Lemma simulate_unknown_more_fuel sim n_known sample start n k i st :
  (wrap32 (start + (i + Z.of_nat n) * 2 + 1) <? isize sample) = false →
  simulate_unknown sim n_known sample start (n + k) i st
  = simulate_unknown sim n_known sample start n i st.
Proof.
  revert i st. induction n as [|n IH]; intros i st Hstop.
  - rewrite Z.add_0_r in Hstop. destruct k as [|k]; [done|].
    cbn [Nat.add simulate_unknown]. by rewrite Hstop.
  - cbn [Nat.add simulate_unknown].
    destruct (wrap32 (start + i * 2 + 1) <? isize sample); [|done].
    apply mbind_ext. intros c1. apply mbind_ext. intros c2.
    apply mbind_ext. intros st'. apply IH.
    rewrite <- Hstop. do 3 f_equal. lia.
Qed.

(** X24. The loop of [simulate] over the sample ends within one more
    iteration than the sample has cards: more fuel than [simulate_state]
    gives does not change its result, since by then the loop has ended or
    its first read was before the start of the sample. *)
Lemma simulate_unknown_fuel sim n_known sample start k st :
  - 2^31 <= start →
  start + 2 * Z.of_nat (length sample) + 3 < 2^31 →
  simulate_unknown sim n_known sample start (S (length sample) + k) 0 st
  = simulate_unknown sim n_known sample start (S (length sample)) 0 st.
Proof.
  intros Hlo Hhi. destruct (Z.le_gt_cases 0 start) as [Hpos|Hneg].
  - apply simulate_unknown_more_fuel.
    pose proof (isize_le sample).
    rewrite wrap32_id by lia. apply Z.ltb_ge. lia.
  - cbn [Nat.add simulate_unknown].
    destruct (wrap32 (start + 0 * 2 + 1) <? isize sample); [|done].
    replace (wrap32 (start + 0 * 2)) with start
      by (rewrite Z.mul_0_l, Z.add_0_r, wrap32_id; lia).
    destruct (vget_cases VSample sample start) as [(? & _)|(_ & ->)]; [lia|done].
Qed.

(** ** The diagnostics of a simulation *)

Section quiet.
Context (P : diag → Prop).
Hypothesis HP : ∀ d, d ≠ ErrNotEnoughCards → P d.

Lemma quiet_ret {A} (a : A) : quiet P (mret a).
Proof. constructor. Qed.

Lemma quiet_bind {A B} (m : result A) (f : A → result B) :
  quiet P m → (∀ a, quiet P (f a)) → quiet P (m ≫= f).
Proof.
  destruct m as [a l|v]; [|done]. intros Hm Hf. rewrite mbind_Ok.
  specialize (Hf a). destruct (f a); [|done]. by apply Forall_app_2.
Qed.

Lemma quiet_vget {A} id (v : list A) i : quiet P (vget id v i).
Proof. unfold vget. repeat case_match; constructor. Qed.

Lemma quiet_vset {A} id (v : list A) i x : quiet P (vset id v i x).
Proof. unfold vset. case_match; constructor. Qed.

Lemma quiet_report d : d ≠ ErrNotEnoughCards → quiet P (report d).
Proof. intros Hd. repeat constructor. by apply HP. Qed.

Lemma quiet_mapM {A B} (f : A → result B) (l : list A) :
  (∀ a, quiet P (f a)) → quiet P (mapM f l).
Proof.
  intros Hf. induction l as [|a l IH]; [constructor|].
  cbn [mapM]. apply quiet_bind; [done|]. intros b.
  apply quiet_bind; [done|]. intros k. apply quiet_ret.
Qed.

Create HintDb quiet.

#[local] Hint Resolve quiet_ret quiet_vget quiet_vset quiet_mapM : quiet.
#[local] Hint Extern 1 (quiet _ (report _)) =>
  apply quiet_report; discriminate : quiet.
#[local] Hint Extern 2 (quiet _ (_ ≫= _)) =>
  apply quiet_bind; [|intros ?] : quiet.
#[local] Hint Extern 3 (quiet _ (if _ then _ else _)) => case_match : quiet.

Lemma quiet_to_ckey_from sim i hand key : quiet P (to_ckey_from sim i hand key).
Proof.
  revert i key. induction hand as [|card hand IH]; intros i key;
    cbn [to_ckey_from];
    eauto 10 with quiet.
Qed.

Lemma quiet_replace_step sim selection j st :
  quiet P (replace_step sim selection j st).
Proof. unfold replace_step. eauto 30 with quiet. Qed.

Lemma quiet_replace_loop sim selection n j st :
  quiet P (replace_loop sim selection n j st).
Proof.
  revert j st. induction n as [|n IH]; intros j st; cbn [replace_loop];
    eauto using quiet_replace_step with quiet.
Qed.

Lemma quiet_evaluate_selection sim selection :
  quiet P (evaluate_selection sim selection).
Proof.
  unfold evaluate_selection, to_ckey.
  eauto 20 using quiet_to_ckey_from, quiet_replace_loop with quiet.
Qed.

Lemma quiet_seat_eval sim c1 c2 ix st : quiet P (seat_eval sim c1 c2 ix st).
Proof. unfold seat_eval. eauto 20 using quiet_evaluate_selection with quiet. Qed.

Lemma quiet_simulate sim selection known_hands sample start :
  quiet P (simulate sim selection known_hands sample start).
Proof.
  assert (∀ i known st, quiet P (simulate_known sim i known st)) as Hknown.
  { intros i known. revert i.
    induction known as [|hand known IH]; intros i st; cbn [simulate_known];
      eauto 20 using quiet_seat_eval with quiet. }
  assert (∀ n fuel i st,
            quiet P (simulate_unknown sim n sample start fuel i st)) as Hunknown.
  { intros n fuel. induction fuel as [|fuel IH]; intros i st;
      cbn [simulate_unknown];
      eauto 20 using quiet_seat_eval with quiet. }
  unfold simulate, simulate_state. eauto 10 with quiet.
Qed.

Lemma quiet_credit winners results : quiet P (credit winners results).
Proof.
  assert (∀ col w rs, quiet P (bump col w rs)) as Hbump
    by (intros; unfold bump; eauto 10 with quiet).
  assert (∀ ws rs, quiet P (credit_ties ws rs)) as Hties.
  { induction ws as [|w ws IH]; intros rs; cbn [credit_ties];
      eauto 10 with quiet. }
  unfold credit. repeat case_match; eauto.
Qed.

Lemma quiet_fill_board s_comm len i sample selection :
  quiet P (fill_board s_comm len i sample selection).
Proof.
  revert i selection. induction sample as [|s sample IH]; intros i selection;
    cbn [fill_board]; eauto 10 with quiet.
Qed.

Lemma quiet_run_trials sim known_hands s_comm samples st :
  quiet P (run_trials sim known_hands s_comm samples st).
Proof.
  revert st. induction samples as [|sample samples IH]; intros st;
    cbn [run_trials]; [apply quiet_ret|].
  apply quiet_bind; [|done]. unfold trial.
  eauto 10 using quiet_fill_board, quiet_simulate, quiet_credit with quiet.
Qed.

Lemma quiet_relabel_from remaining c len i sample :
  quiet P (relabel_from remaining c len i sample).
Proof.
  revert i. induction sample as [|s sample IH]; intros i; cbn [relabel_from];
    eauto 10 with quiet.
Qed.

End quiet.

(** *** No session reports a lack of cards *)

Section never_starved.
Context (ext : Extern).

Let fed (d : diag) : Prop := d ≠ ErrNotEnoughCards.

Lemma parse_tokens_fed tokens cards : Forall fed (parse_tokens tokens cards).2.
Proof.
  revert cards. induction tokens as [|token tokens IH]; intros cards;
    cbn [parse_tokens]; [constructor|].
  repeat case_match; try done. by repeat constructor.
Qed.

Lemma parseCards_fed input : Forall fed (parseCards input).2.
Proof.
  unfold parseCards. case_match; [constructor|apply parse_tokens_fed].
Qed.

Lemma calculate_fed draw N comm_hand hole opponents :
  (length comm_hand <= 5)%nat → length hole = 2%nat → 1 <= opponents <= 8 →
  quiet fed (calculate (sim ext) draw N comm_hand [hole] opponents).
Proof.
  intros Hb Hh Ho. unfold calculate.
  destruct (fill_empty_enough draw N comm_hand hole opponents Hb Hh Ho)
    as [_ ->].
  apply quiet_bind.
  - apply quiet_mapM. intros sample. by apply quiet_relabel_from.
  - intros [|sample samples].
    + by repeat constructor.
    + cbv zeta. case_match; [constructor|].
      apply quiet_bind; [by apply quiet_run_trials|]. intros st. constructor.
Qed.

Lemma handle_calc_fed n command :
  Stderr ErrNotEnoughCards ∉ (handle_calc ext n command).1.
Proof.
  assert (∀ log, Forall fed log → Stderr ErrNotEnoughCards ∉ Stderr <$> log)
    as Hlog.
  { intros log Hfed (d & [= <-] & Hin)%list_elem_of_fmap.
    rewrite Forall_forall in Hfed. by apply (Hfed _ Hin). }
  unfold handle_calc.
  destruct (getlines "|" (substr_from 5 command))
    as [|board_str [|hole_str [|opp_str [|iter_str [|]]]]];
    try (by intros [=]%list_elem_of_singleton).
  destruct (stoi opp_str) as [e|opp]; [by intros [=]%list_elem_of_singleton|].
  destruct (stoi iter_str) as [e|iters]; [by intros [=]%list_elem_of_singleton|].
  destruct ((opp <? 1) || (8 <? opp)) eqn:Ho;
    [by intros [=]%list_elem_of_singleton|].
  destruct ((iters <? 100) || (1000000 <? iters));
    [by intros [=]%list_elem_of_singleton|].
  apply orb_false_elim in Ho as [?%Z.ltb_ge ?%Z.ltb_ge].
  pose proof (parseCards_fed board_str) as Hboard.
  pose proof (parseCards_fed hole_str) as Hhole.
  destruct (Nat.ltb_spec 5 (length (parseCards board_str).1)) as [|Hb].
  { intros [Hin|[=]%list_elem_of_singleton]%elem_of_app. by apply Hlog in Hin. }
  assert (Forall fed ((parseCards board_str).2 ++ (parseCards hole_str).2))
    as Hdiags by (by apply Forall_app_2).
  destruct (Nat.eqb_spec (length (parseCards hole_str).1) 2) as [Hh|]; cbn [negb].
  2:{ intros [Hin|[=]%list_elem_of_singleton]%elem_of_app. by apply Hlog in Hin. }
  destruct (_ <? _)%nat.
  { intros [Hin|[=]%list_elem_of_singleton]%elem_of_app. by apply Hlog in Hin. }
  pose proof (calculate_fed (gen_samples ext n) iters
    (convert_hand (convert_card ext) (parseCards board_str).1)
    (convert_hand (convert_card ext) (parseCards hole_str).1) opp) as Hcalc.
  unfold compute_probabilities. cbn [map].
  destruct (calculate _ _ _ _ _ _) as [results log|v].
  - specialize (Hcalc ltac:(unfold convert_hand; by rewrite length_map)
      ltac:(unfold convert_hand; by rewrite length_map) ltac:(lia)).
    simpl in Hcalc.
    repeat case_match; cbn [fst];
      intros [Hin|[[=]|[Hin|[=]%list_elem_of_singleton]%elem_of_app]%elem_of_cons]
        %elem_of_app; by apply Hlog in Hin.
  - cbn [fst].
    intros [Hin|[[=]|[=]%list_elem_of_singleton]%elem_of_cons]%elem_of_app.
    by apply Hlog in Hin.
Qed.

(** X22. Whatever lines the daemon reads, the diagnostic of [fill_empty]
    for a lack of cards is never written: the validation keeps every
    request that reaches the simulation within the deck. *)
Lemma daemon_never_starved lines :
  Stderr ErrNotEnoughCards ∉ runDaemonMode ext lines.
Proof.
  unfold runDaemonMode.
  intros [Hin|Hin]%elem_of_app.
  { unfold startup in Hin.
    repeat (apply elem_of_cons in Hin as [[=]|Hin]). by apply elem_of_nil in Hin. }
  revert Hin. generalize ({| marker_sent := false; simulations := 0 |}).
  induction lines as [|line lines IH]; intros st Hin; cbn [run_lines] in Hin;
    [by apply elem_of_nil in Hin|].
  assert (Stderr ErrNotEnoughCards ∉ (handle_line ext st line).1.1) as Hline.
  { unfold handle_line. repeat case_match; cbn [fst]; intros Hl;
      repeat match type of Hl with
      | _ ∈ _ ++ _ => apply elem_of_app in Hl as [Hl|Hl]
      | _ ∈ _ :: _ => apply elem_of_cons in Hl as [Hl|Hl]
      | _ ∈ [] => by apply elem_of_nil in Hl
      | _ = _ => discriminate Hl
      | _ ∈ (handle_calc _ _ _).1 => by apply handle_calc_fed in Hl
      end. }
  destruct ((handle_line ext st line).1.2); try done.
  apply elem_of_app in Hin as [Hin|Hin]; [done|]. by eapply IH.
Qed.

End never_starved.

(** ** Instances on the example tables *)

(** C7 (counterexample). With a score table of one entry, the first
    substitution step computes the key 1, outside the table: nothing is
    reported and the evaluator returns the score 7 of the base key, not a
    sentinel. *)
Lemma silent_skip_counterexample :
  replace_step short_table_sim [0; 1; 2; 3; 4; 5; 6] 0
      {| es_key := 0; es_hand := [2; 3; 4; 5; 6]; es_max := 7 |}
    = Ok {| es_key := 1; es_hand := [0; 3; 4; 5; 6]; es_max := 7 |} []
  ∧ in_bounds 1 (table short_table_sim) = false
  ∧ evaluate_selection short_table_sim [0; 1; 2; 3; 4; 5; 6] = Ok 7 [].
Proof. by vm_compute. Qed.

(** C4 (counterexample). A first [CALC] command with one field fails, and
    the marker is written all the same: the session has a marker and no
    successful request. *)
Lemma marker_without_success_counterexample :
  let evs := runDaemonMode example_ext ["CALC x"] in
  evs = startup ++ [Stdout Marker; Stdout (Failure ErrFormat)]
  ∧ Stdout Marker ∈ evs
  ∧ ∀ wins ties iterations, Stdout (Success wins ties iterations) ∉ evs.
Proof.
  split; [by vm_compute|]. split.
  - vm_compute. do 4 right. left.
  - intros wins ties iterations Hin. vm_compute in Hin.
    repeat (apply elem_of_cons in Hin as [Hin|Hin]; [discriminate|]).
    by apply elem_of_nil in Hin.
Qed.

(** C6 (counterexample). The request [CALC As|As,Kh|0|1000] holds the card
    [As] on the board and in the hole, and is answered by the error on the
    opponents, not by the duplicate-card error. *)
Lemma duplicate_with_bad_opponents_counterexample :
  let evs := runDaemonMode example_ext ["CALC As|As,Kh|0|1000"] in
  (parseCards "As").1 = ["As"]
  ∧ (parseCards "As,Kh").1 = ["As"; "Kh"]
  ∧ evs = startup ++ [Stdout Marker; Stdout (Failure ErrOpponents)]
  ∧ Stdout (Failure ErrDuplicate) ∉ evs.
Proof.
  split_and!; try by vm_compute.
  intros Hin. vm_compute in Hin.
  repeat (apply elem_of_cons in Hin as [Hin|Hin]; [discriminate|]).
  by apply elem_of_nil in Hin.
Qed.

(** C9 at a selection and one of its permutations. *)
Lemma evaluate_selection_permutation_witness :
  [51; 3; 17; 20; 8; 33; 40] ≡ₚ [3; 8; 17; 20; 33; 40; 51]
  ∧ evaluate_selection example_sim [51; 3; 17; 20; 8; 33; 40]
    = evaluate_selection example_sim [3; 8; 17; 20; 33; 40; 51].
Proof.
  assert ([51; 3; 17; 20; 8; 33; 40] ≡ₚ [3; 8; 17; 20; 33; 40; 51]) as Hp
    by (apply sort_eq_Permutation; vm_compute; reflexivity).
  split; [exact Hp|].
  apply (evaluate_selection_permutation example_sim _ _ Hp).
Defined.

(** C5 at a flop and two known hands. *)
Lemma get_remaining_spec_witness :
  let remaining := get_remaining [0; 1; 2] [[3; 4]; [10; 11]] in
  NoDup remaining
  ∧ (Z.of_nat (length remaining) = 52 - 3 - 2 * 2)
  ∧ (∀ card, card ∈ remaining ↔
       0 <= card < 52 ∧ (card ∉ [0; 1; 2])
       ∧ (∀ hand, hand ∈ [[3; 4]; [10; 11]] → card ∉ hand)).
Proof.
  apply (get_remaining_spec [0; 1; 2] [[3; 4]; [10; 11]]).
  - apply (bool_decide_unpack _). by vm_compute.
  - apply (bool_decide_unpack _). by vm_compute.
  - by repeat constructor.
Defined.

(** C10 at a preflop request with two opponents. *)
Lemma validated_request_has_enough_cards_witness :
  Simulation 100 [] [["As"; "Kh"]] 2
    ∈ (handle_calc example_ext 0 "CALC |As,Kh|2|100").1
  ∧ 2 * 2 + 5 - 0 <= Z.of_nat (length (get_remaining [] [[51; 37]])).
Proof.
  assert (Simulation 100 [] [["As"; "Kh"]] 2
            ∈ (handle_calc example_ext 0 "CALC |As,Kh|2|100").1) as Hin
    by (vm_compute; left).
  split; [exact Hin|].
  apply (validated_request_has_enough_cards example_ext 0 _ _ _ _ _ Hin).
Defined.

(** C6 at the request of the specification: board [As], hole [As,Kh]. *)
Lemma duplicate_cards_rejected_witness :
  handle_line example_ext {| marker_sent := false; simulations := 0 |}
      "CALC As|As,Kh|2|1000"
  = ([Stdout Marker; Stdout (Failure ErrDuplicate)], Continue,
     {| marker_sent := true; simulations := 0 |}).
Proof.
  refine (proj1 (duplicate_cards_rejected example_ext
    {| marker_sent := false; simulations := 0 |}
    "CALC As|As,Kh|2|1000" "As" "As,Kh" "2" "1000" 2 1000 _ _ _ _ _ _ _ _ _));
    try reflexivity; try lia; try (simpl; lia).
  apply (bool_decide_unpack _). by vm_compute.
Defined.

(** C4 at a session whose first [CALC] command follows an unknown command. *)
Lemma marker_on_first_calc_witness :
  length (filter is_marker
            (runDaemonMode example_ext (["foo"] ++ "CALC x" :: ["EXIT"])))
  = 1%nat.
Proof.
  refine (proj1 (marker_on_first_calc example_ext ["foo"] "CALC x" ["EXIT"] _ _)).
  - by repeat constructor.
  - reflexivity.
Defined.

(** C8 at a file of eight bytes: the integers 1 and -1. *)
Lemma read_vect_spec_witness :
  ∃ bytes v,
    Some [Byte.x01; Byte.x00; Byte.x00; Byte.x00;
          Byte.xff; Byte.xff; Byte.xff; Byte.xff] = Some bytes
    ∧ read_vect (Some [Byte.x01; Byte.x00; Byte.x00; Byte.x00;
                       Byte.xff; Byte.xff; Byte.xff; Byte.xff]) = Ok v []
    ∧ Z.of_nat (length v) = Z.of_nat (length bytes) / 4
    ∧ ∀ i : nat, (i < length v)%nat → v !! i = int_at bytes i.
Proof.
  refine (proj2 (read_vect_spec
    (Some [Byte.x01; Byte.x00; Byte.x00; Byte.x00;
           Byte.xff; Byte.xff; Byte.xff; Byte.xff]) _) _).
  - intros bytes [= <-]. simpl. lia.
  - simpl. intros Hn. apply Hn. split; [lia|reflexivity].
Defined.

(** C1 at a selection on the example tables. *)
Lemma evaluate_selection_best_of_21_witness :
  ∃ best,
    evaluate_selection example_sim [51; 3; 17; 20; 8; 33; 40] = Ok best []
    ∧ (∀ hand, hand ∈ sublists 5 (sort [51; 3; 17; 20; 8; 33; 40]) →
         ∃ v, score5 example_sim hand = Some v ∧ v <= best)
    ∧ (∃ hand, hand ∈ sublists 5 (sort [51; 3; 17; 20; 8; 33; 40])
         ∧ score5 example_sim hand = Some best).
Proof.
  destruct (evaluate_selection_best_of_21 example_sim
              ltac:(by vm_compute) ltac:(by vm_compute) ltac:(by vm_compute)
              [51; 3; 17; 20; 8; 33; 40])
    as (_ & best & Heval & Hall & Hone & _).
  - reflexivity.
  - by vm_compute.
  - apply (bool_decide_unpack _). by vm_compute.
  - exists best. by split_and!.
Defined.


(** C7 at a simulator whose score table is empty: the base key 0 is
    outside the table, which is reported, and the result is 0. *)
Lemma evaluate_selection_bounds_witness :
  evaluate_selection
    {| table := []; c_table := replicate 318 0; replace := reference_replace |}
    [0; 1; 2; 3; 4; 5; 6]
  = Ok 0 [ErrKeyBounds 0].
Proof.
  destruct (evaluate_selection_bounds
              {| table := []; c_table := replicate 318 0;
                 replace := reference_replace |}
              [0; 1; 2; 3; 4; 5; 6]) as (_ & _ & Hseven).
  destruct (Hseven ltac:(simpl; lia)) as (key & log0 & Hkey & _ & Hout & _).
  vm_compute in Hkey. injection Hkey as <- <-.
  apply Hout. reflexivity.
Defined.

(** * Further properties *)

(** ** The cards and their codes *)

Lemma valid_rank_elem rank :
  ((char_code "2" <=? char_code rank)%N && (char_code rank <=? char_code "9")%N)
  || Ascii.eqb rank "T" || Ascii.eqb rank "J"
  || Ascii.eqb rank "Q" || Ascii.eqb rank "K" || Ascii.eqb rank "A"
  = bool_decide (rank ∈ String.list_ascii_of_string "23456789TJQKA").
Proof.
  destruct rank as [[] [] [] [] [] [] [] []]; vm_compute; reflexivity.
Qed.

Lemma valid_suit_elem suit :
  Ascii.eqb suit "c" || Ascii.eqb suit "d" || Ascii.eqb suit "h" || Ascii.eqb suit "s"
  = bool_decide (suit ∈ String.list_ascii_of_string "cdhs").
Proof.
  destruct suit as [[] [] [] [] [] [] [] []]; vm_compute; reflexivity.
Qed.

Lemma all_cards_elem card :
  card ∈ all_cards ↔
  ∃ rank suit, card = String rank (String suit EmptyString)
    ∧ rank ∈ String.list_ascii_of_string "23456789TJQKA"
    ∧ suit ∈ String.list_ascii_of_string "cdhs".
Proof.
  unfold all_cards. rewrite list_elem_of_bind. split.
  - intros (suit & H & Hs). apply list_elem_of_bind in H as (rank & H & Hr).
    apply list_elem_of_singleton in H. eauto.
  - intros (rank & suit & -> & Hr & Hs). exists suit. split; [|done].
    apply list_elem_of_bind. exists rank. split; [|done].
    by apply list_elem_of_singleton.
Qed.

Lemma isValidCard_all_cards card : isValidCard card = true ↔ card ∈ all_cards.
Proof.
  rewrite all_cards_elem. split.
  - destruct card as [|rank [|suit [|]]]; try discriminate.
    cbn [isValidCard]. cbv zeta. rewrite valid_rank_elem, valid_suit_elem.
    intros [Hr%bool_decide_eq_true Hs%bool_decide_eq_true]%andb_prop.
    by exists rank, suit.
  - intros (rank & suit & -> & Hr & Hs).
    cbn [isValidCard]. cbv zeta. rewrite valid_rank_elem, valid_suit_elem.
    by rewrite !bool_decide_eq_true_2.
Qed.

Lemma card_codes : cardStrToInt <$> all_cards = seqZ 0 52.
Proof. vm_compute. reflexivity. Qed.

Lemma fmap_NoDup_inj {A B} (f : A → B) (l : list A) x y :
  NoDup (f <$> l) → x ∈ l → y ∈ l → f x = f y → x = y.
Proof.
  intros Hnd [i Hi]%list_elem_of_lookup [j Hj]%list_elem_of_lookup Hxy.
  assert (i = j) as ->.
  { eapply NoDup_lookup; [exact Hnd| |]; rewrite list_lookup_fmap.
    - by rewrite Hi.
    - rewrite Hj. simpl. by rewrite Hxy. }
  congruence.
Qed.

Lemma cardStrToInt_range card :
  isValidCard card = true → 0 <= cardStrToInt card < 52.
Proof.
  intros H%isValidCard_all_cards.
  assert (cardStrToInt card ∈ seqZ 0 52) as Hc.
  { rewrite <- card_codes. by apply list_elem_of_fmap_2. }
  apply elem_of_seqZ in Hc. lia.
Qed.

Lemma cardStrToInt_inj card card' :
  isValidCard card = true → isValidCard card' = true →
  cardStrToInt card = cardStrToInt card' → card = card'.
Proof.
  intros H%isValidCard_all_cards H'%isValidCard_all_cards.
  apply fmap_NoDup_inj with (l := all_cards); [|done..].
  rewrite card_codes. apply NoDup_seqZ.
Qed.

(** X1. [isValidCard] accepts exactly the 52 two-character cards, and
    [cardStrToInt] numbers them 0 to 51, suit by suit ([c], [d], [h], [s])
    and by rank within a suit: on the valid cards the codec is one-to-one
    and onto the deck. *)
Theorem cardStrToInt_bijection :
  (∀ card, isValidCard card = true ↔ card ∈ all_cards)
  ∧ cardStrToInt <$> all_cards = seqZ 0 52
  ∧ (∀ card, isValidCard card = true → 0 <= cardStrToInt card < 52)
  ∧ (∀ card card', isValidCard card = true → isValidCard card' = true →
       cardStrToInt card = cardStrToInt card' → card = card')
  ∧ (∀ code, 0 <= code < 52 →
       ∃ card, isValidCard card = true ∧ cardStrToInt card = code).
Proof.
  split_and!.
  - apply isValidCard_all_cards.
  - apply card_codes.
  - apply cardStrToInt_range.
  - apply cardStrToInt_inj.
  - intros code Hc.
    assert (code ∈ cardStrToInt <$> all_cards) as Hin.
    { rewrite card_codes. apply elem_of_seqZ. lia. }
    apply list_elem_of_fmap in Hin as (card & -> & Hin).
    exists card. split; [|done]. by apply isValidCard_all_cards.
Qed.

(** ** Splitting and parsing *)

Lemma getlines_from_nil delim acc s :
  getlines_from delim acc s = [] → acc = EmptyString ∧ s = EmptyString.
Proof.
  revert acc. induction s as [|c rest IH]; intros acc; simpl.
  - by destruct acc.
  - destruct (Ascii.eqb c delim); [done|].
    intros [H _]%IH. by destruct acc.
Qed.

Lemma string_app_assoc (s1 s2 s3 : string) : (s1 +:+ s2) +:+ s3 = s1 +:+ (s2 +:+ s3).
Proof.
  induction s1 as [|c s1 IH]; [done|].
  change (String c ((s1 +:+ s2) +:+ s3) = String c (s1 +:+ s2 +:+ s3)).
  by rewrite IH.
Qed.

Lemma string_app_nil_r (s : string) : s +:+ EmptyString = s.
Proof.
  induction s as [|c s IH]; [done|].
  change (String c (s +:+ EmptyString) = String c s). by rewrite IH.
Qed.

Lemma ends_with_cons delim c c' rest :
  ends_with delim (String c (String c' rest)) = ends_with delim (String c' rest).
Proof. done. Qed.

Lemma getlines_from_join delim acc s :
  String.concat (String delim EmptyString) (getlines_from delim acc s)
    +:+ (if ends_with delim s then String delim EmptyString else EmptyString)
  = acc +:+ s.
Proof.
  revert acc. induction s as [|c rest IH]; intros acc.
  - simpl. destruct acc; simpl; by rewrite ?string_app_nil_r.
  - cbn [getlines_from]. destruct (Ascii.eqb_spec c delim) as [->|Hc].
    + destruct (getlines_from delim EmptyString rest) as [|part parts] eqn:Hparts.
      * apply getlines_from_nil in Hparts as [_ ->]. simpl.
        unfold ends_with. simpl. by rewrite Ascii.eqb_refl.
      * specialize (IH EmptyString). rewrite Hparts in IH.
        destruct rest as [|c' rest]; [done|]. rewrite ends_with_cons.
        change (String.concat ?sep (acc :: part :: parts))
          with (acc +:+ sep +:+ String.concat sep (part :: parts)).
        rewrite !string_app_assoc, IH. done.
    + transitivity ((acc +:+ String c EmptyString) +:+ rest);
        [|by rewrite string_app_assoc].
      rewrite <- IH.
      destruct rest as [|c' rest]; [|by rewrite ends_with_cons].
      unfold ends_with. simpl. by destruct (Ascii.eqb_spec c delim).
Qed.

Lemma getlines_from_no_delim delim acc s :
  delim ∉ String.list_ascii_of_string acc →
  Forall (λ part, delim ∉ String.list_ascii_of_string part)
    (getlines_from delim acc s).
Proof.
  revert acc. induction s as [|c rest IH]; intros acc Hacc; simpl.
  - destruct (is_empty acc); by repeat constructor.
  - destruct (Ascii.eqb_spec c delim) as [->|Hc].
    + constructor; [done|]. apply IH. simpl. apply not_elem_of_nil.
    + apply IH. clear IH. induction acc as [|a acc IH]; simpl in *.
      * apply not_elem_of_cons. split; [done|apply not_elem_of_nil].
      * apply not_elem_of_cons in Hacc as [? ?]. apply not_elem_of_cons. auto.
Qed.

(** X2. The parts [getline] cuts a string into never contain the
    delimiter, and joining them with the delimiter gives the string back
    but for one delimiter at its end: a trailing delimiter adds no empty
    part, and the empty string has no part at all. *)
Theorem getlines_join (delim : ascii) (s : string) :
  Forall (λ part, delim ∉ String.list_ascii_of_string part) (getlines delim s)
  ∧ String.concat (String delim EmptyString) (getlines delim s)
      +:+ (if ends_with delim s then String delim EmptyString else EmptyString)
    = s.
Proof.
  split.
  - apply getlines_from_no_delim. simpl. apply not_elem_of_nil.
  - apply (getlines_from_join delim EmptyString s).
Qed.

Lemma parse_tokens_spec tokens cards :
  parse_tokens tokens cards =
  let ts := filter (λ t, t ≠ EmptyString) (remove_spaces <$> tokens) in
  match list_find (λ t, isValidCard t = false) ts with
  | None => (cards ++ ts, [])
  | Some (_, bad) => ([], [ErrInvalidCard bad])
  end.
Proof.
  revert cards. induction tokens as [|token rest IH]; intros cards.
  - simpl. by rewrite app_nil_r.
  - cbn [parse_tokens fmap list_fmap]. cbv zeta.
    destruct (remove_spaces token) as [|c card] eqn:Hcard.
    + rewrite filter_cons_False by (intros H; by apply H).
      cbn [is_empty negb andb]. apply IH.
    + rewrite filter_cons_True by done. cbn [is_empty negb andb list_find].
      destruct (isValidCard (String c card)) eqn:Hvalid.
      * rewrite decide_False by discriminate.
        rewrite IH. cbv zeta.
        destruct (list_find _ _) as [[i bad]|]; simpl; [done|].
        by rewrite <- app_assoc.
      * by rewrite decide_True.
Qed.

Lemma parseCards_valid input :
  Forall (λ card, isValidCard card = true) (parseCards input).1.
Proof.
  unfold parseCards. destruct (is_empty input); [by constructor|].
  rewrite parse_tokens_spec. cbv zeta.
  destruct (list_find _ _) as [[i bad]|] eqn:Hfind; [by constructor|].
  apply list_find_None in Hfind. simpl.
  eapply Forall_impl; [exact Hfind|]. intros card Hcard; simpl in Hcard.
  by destruct (isValidCard card).
Qed.

(** X3. [parseCards] returns all the cards or none: its tokens are the
    comma-separated parts with the spaces removed, the empty ones dropped;
    when all are valid cards they are returned in order without a
    diagnostic, and otherwise the result is empty and the first invalid
    token is the one reported. *)
Theorem parseCards_all_or_nothing (input : string) :
  let tokens :=
    filter (λ t, t ≠ EmptyString) (remove_spaces <$> getlines "," input) in
  match list_find (λ t, isValidCard t = false) tokens with
  | None =>
      parseCards input = (tokens, [])
      ∧ Forall (λ card, isValidCard card = true) tokens
  | Some (_, bad) => parseCards input = ([], [ErrInvalidCard bad])
  end.
Proof.
  intros tokens.
  assert (parseCards input = parse_tokens (getlines "," input) []) as Hparse.
  { unfold parseCards. by destruct input. }
  pose proof (parseCards_valid input) as Hvalid.
  rewrite Hparse, parse_tokens_spec in *. cbv zeta in *. fold tokens in Hvalid |- *.
  destruct (list_find _ tokens) as [[i bad]|]; [done|]. by split.
Qed.

(** ** The duplicate check *)

Section duplicate_check.
#[local] Existing Instance string_le_trans.
#[local] Existing Instance string_le_total.
#[local] Existing Instance string_le_antisym.

Lemma unique_NoDup (l : list string) : NoDup l → unique l = l.
Proof.
  induction l as [|x rest IH]; [done|]. intros Hnd.
  apply NoDup_cons in Hnd as [Hx Hnd]. specialize (IH Hnd).
  destruct rest as [|y rest]; [done|].
  change (unique (x :: y :: rest))
    with (if String.eqb x y then unique (y :: rest) else x :: unique (y :: rest)).
  destruct (String.eqb_spec x y) as [->|_].
  - exfalso. apply Hx. left.
  - by rewrite IH.
Qed.

Lemma sort_strings_NoDup (l : list string) : NoDup (sort_strings l) ↔ NoDup l.
Proof.
  unfold sort_strings. split; intros H.
  - by rewrite <- (merge_sort_Permutation string_le l).
  - by rewrite (merge_sort_Permutation string_le l).
Qed.

Lemma distinct_NoDup (l : list string) :
  length (unique (sort_strings l)) = length (sort_strings l) → NoDup l.
Proof.
  intros H. apply sort_strings_NoDup. apply unique_sorted_NoDup; [|done].
  apply (StronglySorted_merge_sort string_le).
Qed.

(** X4. The duplicate check is exact: sorting the cards and removing the
    adjacent repetitions shortens the vector exactly when a card occurs
    twice, so that distinct cards are never reported as duplicates. *)
Theorem duplicate_check_exact (cards : list string) :
  (length (unique (sort_strings cards)) <? length (sort_strings cards))%nat = true
  ↔ ¬ NoDup cards.
Proof.
  split.
  - intros H%Nat.ltb_lt Hnd. apply sort_strings_NoDup in Hnd.
    rewrite (unique_NoDup _ Hnd) in H. lia.
  - apply duplicate_detected.
Qed.

End duplicate_check.

(** ** Sessions of the daemon *)

Lemma trim_right_trailing (w : string) :
  Forall (λ c, is_trailing c = true) (String.list_ascii_of_string w) →
  trim_right w = EmptyString.
Proof.
  induction w as [|c w IH]; [done|]. intros [Hc Hw]%Forall_cons.
  cbn [trim_right]. cbv zeta. by rewrite (IH Hw), Hc.
Qed.

Lemma trim_right_app (s w : string) :
  Forall (λ c, is_trailing c = true) (String.list_ascii_of_string w) →
  trim_right (s +:+ w) = trim_right s.
Proof.
  intros Hw. induction s as [|c s IH]; [by apply trim_right_trailing|].
  change (String c s +:+ w) with (String c (s +:+ w)).
  cbn [trim_right]. cbv zeta. by rewrite IH.
Qed.

(** X5. White space at the end of a line is ignored: a line followed by
    spaces, tabs, carriage returns or line feeds is handled as the line
    itself, whatever the state of the daemon. *)
Theorem trailing_whitespace_ignored (ext : Extern) (st : daemon_state)
    (line w : string) :
  Forall (λ c, is_trailing c = true) (String.list_ascii_of_string w) →
  handle_line ext st (line +:+ w) = handle_line ext st line.
Proof. intros Hw. unfold handle_line. by rewrite trim_right_app. Qed.

Section sessions.
Context (ext : Extern).

Lemma handle_line_exit st line :
  trim_right line = "EXIT" → handle_line ext st line = ([Stderr InfoExit], Exit, st).
Proof. intros H. unfold handle_line. by rewrite H. Qed.

(** X6. [EXIT] ends the session: the lines that follow it are not read,
    and the command itself is answered on the diagnostic stream only. *)
Theorem exit_ends_session (pre : list string) (line : string) (rest : list string) :
  trim_right line = "EXIT" →
  runDaemonMode ext (pre ++ line :: rest) = runDaemonMode ext (pre ++ [line])
  ∧ ∀ st, handle_line ext st line = ([Stderr InfoExit], Exit, st).
Proof.
  intros Hexit. split; [|intros st; by apply handle_line_exit].
  unfold runDaemonMode. f_equal.
  generalize ({| marker_sent := false; simulations := 0 |}).
  induction pre as [|l pre IH]; intros st; cbn [app run_lines].
  - by rewrite handle_line_exit.
  - destruct ((handle_line ext st l).1.2); [|done..]. by rewrite IH.
Qed.

Lemma Forall_fmap_stderr (P : event → Prop) (l : list diag) :
  (∀ d, P (Stderr d)) → Forall P (Stderr <$> l).
Proof. intros H. apply Forall_fmap, Forall_forall. intros d _. apply H. Qed.

Lemma handle_calc_answer n command :
  match (handle_calc ext n command).2 with
  | Continue =>
      ∃ evs resp, (handle_calc ext n command).1 = evs ++ [resp]
        ∧ is_response resp = true
        ∧ (∀ c, resp ≠ Stdout (Failure (ErrUnknown c)))
        ∧ Forall (λ e, is_response e = false ∧ is_undefined e = false) evs
  | Exit => False
  | Crash =>
      ∃ evs v, (handle_calc ext n command).1 = evs ++ [Undefined v]
        ∧ Forall (λ e, is_response e = false) evs
  end.
Proof.
  assert (∀ e, (∀ c, e ≠ ErrUnknown c) →
    ∃ evs resp, [Stdout (Failure e)] = evs ++ [resp]
      ∧ is_response resp = true
      ∧ (∀ c, resp ≠ Stdout (Failure (ErrUnknown c)))
      ∧ Forall (λ e, is_response e = false ∧ is_undefined e = false) evs) as H1.
  { intros e He. exists [], (Stdout (Failure e)). split_and!; try done.
    intros c [= ?]. by eapply He. }
  assert (∀ l e, (∀ c, e ≠ ErrUnknown c) →
    ∃ evs resp, (Stderr <$> l) ++ [Stdout (Failure e)] = evs ++ [resp]
      ∧ is_response resp = true
      ∧ (∀ c, resp ≠ Stdout (Failure (ErrUnknown c)))
      ∧ Forall (λ e, is_response e = false ∧ is_undefined e = false) evs) as H2.
  { intros l e He. exists (Stderr <$> l), (Stdout (Failure e)).
    split_and!; try done.
    - intros c [= ?]. by eapply He.
    - by apply Forall_fmap_stderr. }
  unfold handle_calc.
  destruct (getlines "|" (substr_from 5 command))
    as [|board_str [|hole_str [|opp_str [|iter_str [|]]]]];
    cbn [snd fst]; try (by apply H1).
  destruct (stoi opp_str) as [e|opp]; [by apply H1|].
  destruct (stoi iter_str) as [e|iters]; [by apply H1|].
  destruct ((opp <? 1) || (8 <? opp)); [by apply H1|].
  destruct ((iters <? 100) || (1000000 <? iters)); [by apply H1|].
  destruct (5 <? length (parseCards board_str).1)%nat; [by apply H2|].
  destruct (negb (length (parseCards hole_str).1 =? 2)%nat); [by apply H2|].
  destruct (_ <? _)%nat; [by apply H2|].
  set (diags := Stderr <$> _).
  assert (Forall (λ e, is_response e = false ∧ is_undefined e = false) diags)
    as Hdiags by (by apply Forall_fmap_stderr).
  destruct (compute_probabilities _ _ _ _ _ _ _) as [[e|results] log|v];
    cbn [snd fst].
  - eexists (diags ++ _ :: (Stderr <$> log)), _.
    split_and!; [by rewrite <- app_assoc|done|done|].
    apply Forall_app_2; [done|]. apply Forall_cons_2; [done|].
    by apply Forall_fmap_stderr.
  - assert (Forall (λ e, is_response e = false ∧ is_undefined e = false)
              (Stderr <$> log)) as Hlog by (by apply Forall_fmap_stderr).
    destruct results as [|[|wins [|ties row]] results]; cbn [snd fst].
    1-3: eexists (diags ++ _ :: (Stderr <$> log)), VResults;
      (split; [by rewrite <- app_assoc|]);
      apply Forall_app_2; [|apply Forall_cons_2; [done|]];
      (eapply Forall_impl; [eassumption|]); by intros ? [? ?].
    eexists (diags ++ _ :: (Stderr <$> log)), _.
    split_and!; [by rewrite <- app_assoc|done|done|].
    apply Forall_app_2; [done|]. by apply Forall_cons_2.
  - eexists (diags ++ [_]), v. split; [by rewrite <- app_assoc|].
    apply Forall_app_2; [|by repeat constructor].
    eapply Forall_impl; [eassumption|]. by intros ? [? ?].
Qed.

Lemma handle_line_answer st line :
  match (handle_line ext st line).1.2 with
  | Continue =>
      ∃ evs resp, (handle_line ext st line).1.1 = evs ++ [resp]
        ∧ answers line resp
        ∧ Forall (λ e, is_response e = false ∧ is_undefined e = false) evs
  | Exit => trim_right line = "EXIT"
  | Crash =>
      ∃ evs v, (handle_line ext st line).1.1 = evs ++ [Undefined v]
        ∧ Forall (λ e, is_response e = false) evs
  end.
Proof.
  unfold handle_line, answers.
  destruct (String.eqb_spec (trim_right line) "EXIT") as [|Hexit]; [done|].
  destruct (is_calc (trim_right line)) eqn:Hcalc; cbn [fst snd].
  - pose proof (handle_calc_answer (simulations st) (trim_right line)) as H.
    destruct ((handle_calc ext (simulations st) (trim_right line)).2); [|done|].
    + destruct H as (evs & resp & -> & Hresp & Hunknown & Hevs).
      exists ((if marker_sent st then [] else [Stdout Marker]) ++ evs), resp.
      split_and!; [by rewrite app_assoc|done|done|].
      apply Forall_app_2; [|done]. destruct (marker_sent st); by repeat constructor.
    + destruct H as (evs & v & -> & Hevs).
      exists ((if marker_sent st then [] else [Stdout Marker]) ++ evs), v.
      split; [by rewrite app_assoc|].
      apply Forall_app_2; [|done]. destruct (marker_sent st); by repeat constructor.
  - exists [], (Stdout (Failure (ErrUnknown (trim_right line)))). by split_and!.
Qed.

Lemma filter_response_nil (evs : list event) :
  Forall (λ e, is_response e = false) evs → filter is_response evs = [].
Proof.
  intros H. apply filter_none. eapply Forall_impl; [exact H|].
  intros e He. simpl in He. rewrite He. auto.
Qed.

(** X7. One line in, one line out: in a session that meets no [EXIT] and
    no undefined access, the answers on the standard output are as many as
    the lines read and come in their order; a line that is not a [CALC]
    command is answered by the error that repeats it, a [CALC] command by
    another error or by the rates. *)
Theorem one_response_per_line (lines : list string) :
  Forall (λ l, trim_right l ≠ "EXIT") lines →
  Forall (λ e, is_undefined e = false) (runDaemonMode ext lines) →
  Forall2 answers lines (filter is_response (runDaemonMode ext lines))
  ∧ length (filter is_response (runDaemonMode ext lines)) = length lines.
Proof.
  intros Hlines Hdef.
  assert (Forall2 answers lines (filter is_response (runDaemonMode ext lines)))
    as H; [|split; [done|by apply Forall2_length in H]].
  unfold runDaemonMode in *. rewrite filter_app.
  change (filter is_response startup) with (@nil event). cbn [app].
  apply Forall_app in Hdef as [_ Hdef]. revert Hdef.
  generalize ({| marker_sent := false; simulations := 0 |}).
  induction Hlines as [|line lines Hline Hlines IH]; intros st Hdef;
    cbn [run_lines] in *; [constructor|].
  pose proof (handle_line_answer st line) as Hanswer.
  destruct ((handle_line ext st line).1.2).
  - destruct Hanswer as (evs & resp & Hevs & Hresp & Hquiet).
    rewrite Hevs in *. apply Forall_app in Hdef as [_ Hdef].
    rewrite !filter_app, filter_response_nil.
    2:{ eapply Forall_impl; [exact Hquiet|]. by intros ? [? ?]. }
    destruct Hresp as [Hresp Hfits].
    rewrite filter_cons_True by (by rewrite Hresp). cbn [filter list_filter app].
    constructor; [done|]. by apply IH.
  - done.
  - destruct Hanswer as (evs & v & Hevs & _). rewrite Hevs in Hdef.
    apply Forall_app in Hdef as [_ Hdef]. by apply Forall_cons in Hdef as [? _].
Qed.

#[local] Existing Instance string_le_trans.
#[local] Existing Instance string_le_total.

Lemma run_lines_elem st lines e :
  e ∈ run_lines ext st lines →
  ∃ st' line, line ∈ lines ∧ e ∈ (handle_line ext st' line).1.1.
Proof.
  revert st. induction lines as [|line lines IH]; intros st Hin;
    cbn [run_lines] in Hin; [by apply elem_of_nil in Hin|].
  assert (e ∈ (handle_line ext st line).1.1
          ∨ e ∈ run_lines ext (handle_line ext st line).2 lines) as [H|H].
  { destruct ((handle_line ext st line).1.2); auto.
    apply elem_of_app in Hin. tauto. }
  - exists st, line. split; [left|done].
  - apply IH in H as (st' & line' & Hl & He). exists st', line'.
    split; [by right|done].
Qed.

(** X8. The daemon runs a simulation on validated arguments only: in any
    session, every call of the simulation has between 100 and 1000000
    iterations, 1 to 8 opponents, a board of at most five cards and one
    known hand of two cards, and the cards of the board and of the hand are
    valid and pairwise distinct. *)
Theorem simulation_arguments_validated (lines : list string) (iterations : Z)
    (comm_hand : list string) (known_hands : list (list string)) (opponents : Z) :
  Simulation iterations comm_hand known_hands opponents ∈ runDaemonMode ext lines →
  100 <= iterations <= 1000000
  ∧ 1 <= opponents <= 8
  ∧ (length comm_hand <= 5)%nat
  ∧ ∃ hole_cards,
      known_hands = [hole_cards]
      ∧ length hole_cards = 2%nat
      ∧ NoDup (comm_hand ++ hole_cards)
      ∧ Forall (λ card, isValidCard card = true) (comm_hand ++ hole_cards).
Proof.
  unfold runDaemonMode. intros [Hin|Hin]%elem_of_app.
  { unfold startup in Hin.
    repeat (apply elem_of_cons in Hin as [[=]|Hin]). by apply elem_of_nil in Hin. }
  apply run_lines_elem in Hin as (st & line & _ & Hin).
  assert (∃ n command, Simulation iterations comm_hand known_hands opponents
            ∈ (handle_calc ext n command).1) as (n & command & Hcalc).
  { unfold handle_line in Hin. repeat case_match; cbn [fst] in Hin;
      repeat match type of Hin with
      | _ ∈ _ ++ _ => apply elem_of_app in Hin as [Hin|Hin]
      | _ ∈ _ :: _ => apply elem_of_cons in Hin as [Hin|Hin]
      | _ ∈ [] => by apply elem_of_nil in Hin
      | _ = _ => discriminate Hin
      end; eauto. }
  apply handle_calc_validated in Hcalc
    as [(board_str & hole_str & ? & ? & _ & _ & _ & -> & ->) ? ? ?
        (hole_cards & [= <-] & Hhole) Hdistinct].
  split_and!; try lia. exists (parseCards hole_str).1.
  cbn [concat] in Hdistinct. rewrite app_nil_r in Hdistinct.
  split_and!; try done.
  - by apply distinct_NoDup.
  - apply Forall_app_2; apply parseCards_valid.
Qed.

End sessions.

(** ** The remaining deck and the samples *)

Lemma StronglySorted_filter {A} (R : relation A) (P : A → Prop)
    `{!∀ x, Decision (P x)} (l : list A) :
  StronglySorted R l → StronglySorted R (filter P l).
Proof.
  induction 1 as [|x l Hl IH Hx]; [constructor|].
  rewrite filter_cons. case_decide; [|done].
  constructor; [done|]. rewrite Forall_forall in Hx |- *.
  intros y [_ Hy]%list_elem_of_filter. by apply Hx.
Qed.

Lemma get_remaining_elem comm_hand known_hands card :
  card ∈ get_remaining comm_hand known_hands
  ↔ 0 <= card < 52 ∧ (card ∉ comm_hand)
    ∧ ∀ hand, hand ∈ known_hands → card ∉ hand.
Proof.
  rewrite get_remaining_filter.
  rewrite list_elem_of_filter, elem_of_seqZ, not_elem_of_app.
  rewrite elem_of_concat_hand. split.
  - intros [[Hc Hk] ?]. split_and!; [lia..|done|]. intros hand ? ?. apply Hk. eauto.
  - intros (? & Hc & Hk). split_and!; [done| |lia..]. intros (hand & ? & ?).
    by eapply Hk.
Qed.

(** X9. Whatever the cards of the board and of the known hands, also
    repeated ones or ones outside the deck, the remaining deck lists in
    increasing order exactly the cards 0 to 51 that are neither on the board
    nor in a known hand. *)
Theorem get_remaining_complement (comm_hand : list Z) (known_hands : list (list Z)) :
  (∀ card, card ∈ get_remaining comm_hand known_hands
     ↔ 0 <= card < 52 ∧ (card ∉ comm_hand)
       ∧ ∀ hand, hand ∈ known_hands → card ∉ hand)
  ∧ StronglySorted Z.lt (get_remaining comm_hand known_hands).
Proof.
  split; [apply get_remaining_elem|].
  rewrite get_remaining_filter. apply StronglySorted_filter.
  apply (bool_decide_unpack _). by vm_compute.
Qed.

Lemma get_remaining_NoDup comm_hand known_hands :
  NoDup (get_remaining comm_hand known_hands).
Proof. rewrite get_remaining_filter. apply NoDup_filter, NoDup_seqZ. Qed.

Lemma get_remaining_length_exact comm_hand known_hands :
  Forall (λ card, 0 <= card < 52) (comm_hand ++ concat known_hands) →
  NoDup (comm_hand ++ concat known_hands) →
  (length (get_remaining comm_hand known_hands)
   + length (comm_hand ++ concat known_hands) = 52)%nat.
Proof.
  intros Hrange Hnd. rewrite get_remaining_filter.
  pose proof (filter_used_length (comm_hand ++ concat known_hands) (seqZ 0 52)
                (NoDup_seqZ 0 52)) as Hlen.
  rewrite length_seqZ in Hlen.
  assert (filter (λ i, i ∈ comm_hand ++ concat known_hands) (seqZ 0 52)
          ≡ₚ comm_hand ++ concat known_hands) as Hperm.
  { apply NoDup_Permutation; [apply NoDup_filter, NoDup_seqZ|done|].
    intros card. rewrite list_elem_of_filter, elem_of_seqZ. split; [tauto|].
    intros Hin. split; [done|]. rewrite Forall_forall in Hrange.
    specialize (Hrange _ Hin). lia. }
  rewrite Hperm in Hlen. lia.
Qed.

Lemma mapM_Ok_fmap {A B} (f : A → result B) (g : A → B) (l : list A) :
  Forall (λ x, f x = Ok (g x) []) l → mapM f l = Ok (g <$> l) [].
Proof.
  induction 1 as [|x l Hx Hl IH]; [done|].
  cbn [mapM fmap list_fmap]. by rewrite Hx, mbind_Ok_nil, IH, mbind_Ok_nil.
Qed.

Lemma relabel_from_in_range remaining c len i sample :
  Z.of_nat (length remaining) < 2^31 →
  0 <= i → i + Z.of_nat (length sample) <= c → i + Z.of_nat (length sample) <= len →
  Forall (λ s, 0 <= s < Z.of_nat (length remaining)) sample →
  relabel_from remaining c len i sample
  = Ok ((λ s, remaining !!! Z.to_nat s) <$> sample) [].
Proof.
  intros Hrem. revert i. induction sample as [|s rest IH]; intros i Hi Hc Hlen Hs;
    [done|].
  apply Forall_cons in Hs as [Hs Hrest]. cbn [relabel_from length] in *.
  replace ((i <? c) && (i <? len)) with true
    by (symmetry; apply andb_true_intro; split; apply Z.ltb_lt; lia).
  replace (in_bounds s remaining) with true.
  2:{ symmetry. unfold in_bounds. rewrite isize_small by done.
      apply andb_true_intro; split; [apply Z.leb_le|apply Z.ltb_lt]; lia. }
  destruct (vget_in_range VRemaining remaining s Hs) as (x & Hx & ->).
  rewrite mbind_Ok_nil, IH by (done || lia). rewrite mbind_Ok_nil.
  cbn [fmap list_fmap]. by rewrite (list_lookup_total_correct _ _ _ Hx).
Qed.

(** X10. When the cards suffice and the generator returns samples of at
    most [c] positions of the remaining deck, [fill_empty] replaces each
    position by the card at that position and writes no diagnostic: every
    card dealt is a card of the deck that is neither on the board nor in a
    known hand, and a sample of distinct positions deals distinct cards. *)
Theorem fill_empty_deals_remaining (draw : Z → Z → Z → list (list Z)) (N : Z)
    (comm_hand : list Z) (known_hands : list (list Z)) (players_unknown : Z) :
  let remaining := get_remaining comm_hand known_hands in
  let c := players_unknown * 2 + 5 - Z.of_nat (length comm_hand) in
  let drawn := draw N c (Z.of_nat (length remaining)) in
  Z.of_nat (length comm_hand) < 2^31 →
  - 2^31 <= c <= Z.of_nat (length remaining) →
  Forall (λ sample, Z.of_nat (length sample) <= c
            ∧ Forall (λ s, 0 <= s < Z.of_nat (length remaining)) sample) drawn →
  ∃ samples,
    fill_empty draw N comm_hand known_hands players_unknown = Ok samples []
    ∧ samples = fmap (M := list) (λ s, remaining !!! Z.to_nat s) <$> drawn
    ∧ Forall (Forall (λ card, 0 <= card < 52 ∧ (card ∉ comm_hand)
                ∧ ∀ hand, hand ∈ known_hands → card ∉ hand)) samples
    ∧ (Forall NoDup drawn → Forall NoDup samples).
Proof.
  intros remaining c drawn Hcomm Hc Hdrawn.
  pose proof (get_remaining_length_le comm_hand known_hands) as Hle.
  fold remaining in Hle.
  assert (Z.of_nat (length remaining) < 2^31) as Hrem by lia.
  eexists. split_and!; [|reflexivity| |].
  - unfold fill_empty. rewrite !isize_small by done.
    fold remaining. fold c. rewrite wrap32_id by lia.
    replace (Z.of_nat (length remaining) <? c) with false
      by (symmetry; apply Z.ltb_ge; lia).
    fold drawn. apply mapM_Ok_fmap.
    eapply Forall_impl; [exact Hdrawn|]. intros sample [Hlen Hs]. cbv beta.
    rewrite isize_small by lia. apply relabel_from_in_range; (done || lia).
  - apply Forall_fmap. eapply Forall_impl; [exact Hdrawn|].
    intros sample [_ Hs]. cbv beta. apply Forall_fmap.
    eapply Forall_impl; [exact Hs|]. intros s Hrange. cbv beta.
    apply get_remaining_elem.
    apply list_elem_of_lookup. exists (Z.to_nat s).
    apply list_lookup_lookup_total_lt. unfold remaining in *. lia.
  - intros Hnd. apply Forall_fmap.
    rewrite Forall_forall in Hdrawn, Hnd |- *. intros sample Hin. cbv beta.
    destruct (Hdrawn _ Hin) as [_ Hs]. rewrite Forall_forall in Hs.
    apply NoDup_fmap_2_strong; [|by apply Hnd].
    intros s1 s2 H1 H2 Heq. apply Hs in H1, H2.
    assert (Z.to_nat s1 = Z.to_nat s2); [|lia].
    eapply (NoDup_lookup remaining); [apply get_remaining_NoDup|..];
      [apply list_lookup_lookup_total_lt; lia|].
    rewrite Heq. apply list_lookup_lookup_total_lt. lia.
Qed.

(** ** The key kept by the substitution loop *)

Lemma wrap32_congr a b : (a - b) mod 2^32 = 0 → wrap32 a = wrap32 b.
Proof.
  intros H. unfold wrap32. f_equal.
  apply Z.mod_divide in H as [q Hq]; [|lia].
  replace (a + 2^31) with (b + 2^31 + q * 2^32) by lia.
  apply Z.mod_add. lia.
Qed.

Lemma wrap32_shift a b d : wrap32 (wrap32 (a + b) + d) = wrap32 (wrap32 (a + d) + b).
Proof.
  rewrite !wrap32_add_l. f_equal. lia.
Qed.

Lemma to_ckey_from_Ok_inv sim i card rest key k :
  to_ckey_from sim i (card :: rest) key = Ok k [] →
  ∃ c, in_bounds (wrap32 ((i + 1) * 53 + card)) (c_table sim) = true
    ∧ c_table sim !! Z.to_nat (wrap32 ((i + 1) * 53 + card)) = Some c
    ∧ to_ckey_from sim (i + 1) rest (wrap32 (key + c)) = Ok k [].
Proof.
  cbn [to_ckey_from]. cbv zeta.
  destruct (in_bounds _ (c_table sim)) eqn:Hb; [|done].
  destruct (vget_in_bounds VCTable _ _ Hb) as (c & -> & Hc).
  rewrite mbind_Ok_nil. eauto.
Qed.

Lemma to_ckey_from_step sim i card rest key c :
  in_bounds (wrap32 ((i + 1) * 53 + card)) (c_table sim) = true →
  c_table sim !! Z.to_nat (wrap32 ((i + 1) * 53 + card)) = Some c →
  to_ckey_from sim i (card :: rest) key
  = to_ckey_from sim (i + 1) rest (wrap32 (key + c)).
Proof.
  intros Hb Hc. cbn [to_ckey_from]. cbv zeta. rewrite Hb.
  destruct (vget_in_bounds VCTable _ _ Hb) as (c' & -> & Hc').
  rewrite mbind_Ok_nil. congruence.
Qed.

Lemma to_ckey_from_shift sim i hand key k d :
  to_ckey_from sim i hand key = Ok k [] →
  to_ckey_from sim i hand (wrap32 (key + d)) = Ok (wrap32 (k + d)) [].
Proof.
  revert i key. induction hand as [|card rest IH]; intros i key.
  - by intros [= ->].
  - intros (c & Hb & Hc & Hrest)%to_ckey_from_Ok_inv.
    rewrite (to_ckey_from_step _ _ _ _ _ c) by done.
    rewrite wrap32_shift. by apply IH.
Qed.

Lemma to_ckey_from_update sim i hand (p : nat) h x key k c1 :
  hand !! p = Some h →
  to_ckey_from sim i hand key = Ok k [] →
  in_bounds (wrap32 ((i + Z.of_nat p + 1) * 53 + x)) (c_table sim) = true →
  c_table sim !! Z.to_nat (wrap32 ((i + Z.of_nat p + 1) * 53 + x)) = Some c1 →
  ∃ c2,
    c_table sim !! Z.to_nat (wrap32 ((i + Z.of_nat p + 1) * 53 + h)) = Some c2
    ∧ to_ckey_from sim i (<[p := x]> hand) key = Ok (wrap32 (k + (c1 - c2))) [].
Proof.
  revert i p key. induction hand as [|card rest IH]; intros i p key Hp; [done|].
  intros (c & Hb & Hc & Hrest)%to_ckey_from_Ok_inv Hb1 Hc1.
  destruct p as [|p]; cbn [insert list_insert].
  - injection Hp as ->. replace (i + Z.of_nat 0 + 1) with (i + 1) in * by lia.
    exists c. split; [done|].
    rewrite (to_ckey_from_step _ _ _ _ _ c1) by done.
    replace (wrap32 (key + c1)) with (wrap32 (wrap32 (key + c) + (c1 - c))).
    + by apply to_ckey_from_shift.
    + rewrite wrap32_add_l. f_equal. lia.
  - replace (i + Z.of_nat (S p) + 1) with (i + 1 + Z.of_nat p + 1) in * by lia.
    rewrite (to_ckey_from_step _ _ _ _ _ c) by done.
    by eapply IH.
Qed.

Lemma replace_step_key sim selection j st st' log :
  to_ckey sim (es_hand st) = Ok (es_key st) [] →
  replace_step sim selection j st = Ok st' log →
  to_ckey sim (es_hand st') = Ok (es_key st') [].
Proof.
  intros Hkey. unfold replace_step.
  destruct (isize (replace sim) <=? j + 1); [by intros [= <- _]|].
  destruct (vget VReplace (replace sim) j) as [rj l1|] eqn:Hrj; [|done].
  rewrite mbind_Ok.
  destruct (5 <=? rj); [by destruct l1; intros [= <- _]|].
  destruct (vget VReplace (replace sim) (j + 1)) as [rj1 l2|] eqn:Hrj1; [|done].
  rewrite mbind_Ok.
  destruct (isize selection <=? rj1); [by intros [= <- _]|].
  destruct (vget VSelection selection rj1) as [s l3|] eqn:Hs; [|done].
  rewrite mbind_Ok.
  destruct (vget_cases VHand (es_hand st) rj) as [(Hrj0 & h & Hh & ->)|[_ ->]];
    [|done].
  rewrite mbind_Ok_nil.
  destruct (in_bounds _ (c_table sim)) eqn:Hb1; cbn [andb]; [|by intros [= <- _]].
  destruct (in_bounds (wrap32 (_ + h)) (c_table sim)) eqn:Hb2; [|by intros [= <- _]].
  destruct (vget_in_bounds VCTable _ _ Hb1) as (c1 & -> & Hc1).
  destruct (vget_in_bounds VCTable _ _ Hb2) as (c2 & -> & Hc2).
  rewrite !mbind_Ok_nil, vset_in_range, mbind_Ok_nil.
  2:{ apply lookup_lt_Some in Hh. lia. }
  rewrite wrap32_add_l in Hb1, Hc1, Hb2, Hc2.
  destruct (to_ckey_from_update sim 0 (es_hand st) (Z.to_nat rj) h s 0 (es_key st) c1)
    as (c2' & Hc2' & Hnew); try done.
  1,2: by replace (0 + Z.of_nat (Z.to_nat rj) + 1) with (rj + 1) by lia.
  replace (0 + Z.of_nat (Z.to_nat rj) + 1) with (rj + 1) in Hc2' by lia.
  assert (c2' = c2) as -> by congruence.
  assert (to_ckey sim (<[Z.to_nat rj := s]> (es_hand st))
          = Ok (wrap32 (es_key st + wrap32 (c1 - c2))) []) as Hto.
  { unfold to_ckey. by rewrite wrap32_add_r. }
  destruct (in_bounds _ (table sim)) eqn:Hb3.
  - destruct (vget_in_bounds VTable _ _ Hb3) as (t & -> & _).
    rewrite mbind_Ok_nil. by intros [= <- _].
  - by intros [= <- _].
Qed.

(** X11. The key that the substitution loop of [evaluate_selection] updates
    by differences is, after any number of iterations that do not leave a
    vector, the key [to_ckey] computes for the hand the loop holds; no
    bound on the tables or on the cards is needed. *)
Theorem incremental_key_correct (sim : Simulator) (selection : list Z) (n : nat)
    (j : Z) (st st' : eval_state) (log : list diag) :
  to_ckey sim (es_hand st) = Ok (es_key st) [] →
  replace_loop sim selection n j st = Ok st' log →
  to_ckey sim (es_hand st') = Ok (es_key st') [].
Proof.
  revert j st log. induction n as [|n IH]; intros j st log Hkey;
    cbn [replace_loop].
  - by intros [= <- _].
  - intros (st1 & l1 & l2 & Hstep & Hloop & _)%mbind_Ok_inv.
    eapply IH; [|exact Hloop]. by eapply replace_step_key.
Qed.

(** ** The shared selection buffer *)

Lemma fill_board_from s_comm len i sample selection :
  length selection = 7%nat → 0 <= i → s_comm <= 5 → s_comm <= len →
  s_comm - i <= Z.of_nat (length sample) →
  ∃ selection',
    fill_board s_comm len i sample selection = Ok selection' []
    ∧ length selection' = 7%nat
    ∧ (∀ k : nat, i <= Z.of_nat k < s_comm →
         selection' !! Z.to_nat (4 - Z.of_nat k)
         = sample !! Z.to_nat (Z.of_nat k - i))
    ∧ (∀ p : nat, Z.of_nat p < 5 - s_comm ∨ 4 - i < Z.of_nat p →
         selection' !! p = selection !! p).
Proof.
  intros Hsel Hi Hs Hlen. revert i selection Hsel Hi.
  induction sample as [|s rest IH]; intros i selection Hsel Hi Hrest;
    cbn [fill_board length] in *.
  - exists selection. split_and!; try done. lia.
  - destruct (Z.ltb_spec i s_comm) as [Hlt|Hge]; cbn [andb].
    + replace (i <? len) with true by (symmetry; apply Z.ltb_lt; lia).
      replace ((0 <=? 4 - i) && (4 - i <? 7)) with true
        by (symmetry; apply andb_true_intro; split;
            [apply Z.leb_le|apply Z.ltb_lt]; lia).
      rewrite vset_in_range, mbind_Ok_nil by lia.
      destruct (IH (i + 1) (<[Z.to_nat (4 - i) := s]> selection))
        as (selection' & -> & Hlen' & Hnew & Hold);
        [by rewrite length_insert|lia|lia|].
      exists selection'. split_and!; try done.
      * intros k Hk. destruct (decide (Z.of_nat k = i)) as [<-|Hne].
        -- rewrite Hold by lia. rewrite list_lookup_insert_eq by lia.
           by replace (Z.of_nat k - Z.of_nat k) with 0 by lia.
        -- rewrite Hnew by lia.
           replace (Z.to_nat (Z.of_nat k - i))
             with (S (Z.to_nat (Z.of_nat k - (i + 1)))) by lia.
           done.
      * intros p Hp. rewrite Hold by lia.
        apply list_lookup_insert_ne. lia.
    + exists selection. split_and!; try done. lia.
Qed.

Lemma seat_eval_selection sim c1 c2 ix st st' log :
  seat_eval sim c1 c2 ix st = Ok st' log →
  length (ss_selection st') = length (ss_selection st)
  ∧ ∀ p : nat, p ≠ 5%nat → p ≠ 6%nat →
      ss_selection st' !! p = ss_selection st !! p.
Proof.
  unfold seat_eval, vset.
  destruct ((0 <=? 5) && (5 <? Z.of_nat (length (ss_selection st)))); [|done].
  rewrite mbind_Ok_nil.
  destruct ((0 <=? 6) && (6 <? _)); [|done]. rewrite mbind_Ok_nil.
  intros (v & l1 & l2 & _ & H & _)%mbind_Ok_inv.
  assert (ss_selection st'
          = <[Z.to_nat 6 := c2]> (<[Z.to_nat 5 := c1]> (ss_selection st))) as ->.
  { destruct (0 <=? v); by injection H as <- _. }
  rewrite !length_insert. split; [done|]. intros p H5 H6.
  rewrite !list_lookup_insert_ne by lia. done.
Qed.

Lemma simulate_known_selection sim i known_hands st st' log :
  simulate_known sim i known_hands st = Ok st' log →
  length (ss_selection st') = length (ss_selection st)
  ∧ ∀ p : nat, p ≠ 5%nat → p ≠ 6%nat →
      ss_selection st' !! p = ss_selection st !! p.
Proof.
  revert i st log. induction known_hands as [|hand rest IH]; intros i st log;
    cbn [simulate_known].
  - by intros [= <- _].
  - destruct (length hand <? 2)%nat; [apply IH|].
    intros (c1 & ? & ? & _ & (c2 & ? & ? & _ & (st1 & ? & ? & Hseat & Hrest & _)
      %mbind_Ok_inv & _)%mbind_Ok_inv & _)%mbind_Ok_inv.
    apply seat_eval_selection in Hseat as [Hlen Hkeep].
    apply IH in Hrest as [Hlen' Hkeep']. split; [congruence|].
    intros p H5 H6. by rewrite Hkeep', Hkeep.
Qed.

Lemma simulate_unknown_selection sim n_known sample start fuel i st st' log :
  simulate_unknown sim n_known sample start fuel i st = Ok st' log →
  length (ss_selection st') = length (ss_selection st)
  ∧ ∀ p : nat, p ≠ 5%nat → p ≠ 6%nat →
      ss_selection st' !! p = ss_selection st !! p.
Proof.
  revert i st log. induction fuel as [|fuel IH]; intros i st log;
    cbn [simulate_unknown].
  - by intros [= <- _].
  - destruct (_ <? _); [|by intros [= <- _]].
    intros (c1 & ? & ? & _ & (c2 & ? & ? & _ & (st1 & ? & ? & Hseat & Hrest & _)
      %mbind_Ok_inv & _)%mbind_Ok_inv & _)%mbind_Ok_inv.
    apply seat_eval_selection in Hseat as [Hlen Hkeep].
    apply IH in Hrest as [Hlen' Hkeep']. split; [congruence|].
    intros p H5 H6. by rewrite Hkeep', Hkeep.
Qed.

Lemma simulate_state_selection sim selection known_hands sample start st log :
  simulate_state sim selection known_hands sample start = Ok st log →
  length (ss_selection st) = length (resize7 selection)
  ∧ ∀ p : nat, p ≠ 5%nat → p ≠ 6%nat →
      ss_selection st !! p = resize7 selection !! p.
Proof.
  unfold simulate_state.
  intros (st1 & ? & ? & Hknown & Hunknown & _)%mbind_Ok_inv.
  apply simulate_known_selection in Hknown as [Hlen Hkeep].
  apply simulate_unknown_selection in Hunknown as [Hlen' Hkeep'].
  cbn [ss_selection] in *. split; [congruence|].
  intros p H5 H6. by rewrite Hkeep', Hkeep.
Qed.

Lemma init_selection_board comm_hand :
  (length comm_hand <= 5)%nat →
  length (init_selection comm_hand) = 7%nat
  ∧ take (length comm_hand) (init_selection comm_hand) = comm_hand.
Proof.
  intros Hlen. unfold init_selection.
  rewrite (take_ge comm_hand 7) by lia. split.
  - rewrite length_app, length_replicate. lia.
  - by rewrite take_app_length.
Qed.

(** X12. The trials share one selection buffer, and each trial leaves the
    board in it: when the first slots hold the cards of the board and the
    sample has a card for each missing one, the buffer after the trial
    still has seven slots, of which the first five are the board followed
    by the first cards of the sample in reverse order. *)
Theorem trial_keeps_board (sim : Simulator) (known_hands : list (list Z))
    (comm_hand sample selection : list Z) (results : list (list Z))
    (selection' : list Z) (results' : list (list Z)) (log : list diag) :
  (length comm_hand <= 5)%nat →
  5 - Z.of_nat (length comm_hand) <= Z.of_nat (length sample) < 2^31 →
  length selection = 7%nat →
  take (length comm_hand) selection = comm_hand →
  trial sim known_hands (5 - Z.of_nat (length comm_hand)) sample
    (selection, results) = Ok (selection', results') log →
  length selection' = 7%nat
  ∧ take 5 selection'
    = comm_hand ++ reverse (take (5 - length comm_hand) sample).
Proof.
  intros Hcomm Hsample Hsel Hboard. unfold trial. cbn [fst snd].
  destruct (fill_board_from (5 - Z.of_nat (length comm_hand)) (isize sample) 0
              sample selection) as (selection1 & -> & Hlen1 & Hnew & Hold);
    [done|lia|lia|rewrite isize_small; lia|lia|].
  rewrite mbind_Ok_nil. unfold simulate.
  intros (ws & ? & ? & (st & ? & ? & Hsim & [= <-] & _)%mbind_Ok_inv
          & (r & ? & ? & _ & [= <- _] & _)%mbind_Ok_inv & _)%mbind_Ok_inv.
  apply simulate_state_selection in Hsim as [Hlen Hkeep].
  assert (resize7 selection1 = selection1) as Hresize.
  { unfold resize7. by rewrite Hlen1. }
  rewrite Hresize in *. cbn [snd]. split; [congruence|].
  apply list_eq. intros p.
  destruct (decide (p < 5)%nat) as [Hp|Hp].
  2:{ rewrite lookup_take_ge by lia. symmetry. apply lookup_ge_None.
      rewrite length_app, length_reverse, length_take. lia. }
  rewrite lookup_take_lt, Hkeep by lia.
  destruct (decide (p < length comm_hand)%nat) as [Hc|Hc].
  - rewrite Hold by lia. rewrite lookup_app_l by done.
    transitivity (take (length comm_hand) selection !! p);
      [by rewrite lookup_take_lt|by rewrite Hboard].
  - rewrite lookup_app_r by lia.
    specialize (Hnew (4 - p)%nat ltac:(lia)).
    replace (Z.to_nat (4 - Z.of_nat (4 - p)%nat)) with p in Hnew by lia.
    rewrite Hnew. rewrite reverse_lookup by (rewrite length_take; lia).
    rewrite length_take, lookup_take_lt by lia. f_equal. lia.
Qed.

(** ** Winners and counters over the trials *)

Lemma best_score_reached seats :
  Forall (λ s, 0 <= s.2) seats → seats ≠ [] →
  ∃ s, s ∈ seats ∧ s.2 = best_score seats.
Proof.
  intros Hpos Hne. unfold best_score.
  destruct (max_list_elem 0 seats.*2) as [H0|Hin].
  - destruct seats as [|s seats]; [done|]. exists s. split; [left|].
    apply Forall_cons in Hpos as [Hs _].
    assert (s.2 <= max_list 0 (s :: seats).*2); [|lia].
    apply max_list_ge. rewrite fmap_cons. left.
  - apply list_elem_of_fmap in Hin as (s & Hs & Hin). eauto.
Qed.

(** X13. A trial has no winner only when no seat was evaluated: as soon as
    one seat has an evaluation that is not negative, [simulate] returns at
    least one winner, and every winner is a seat whose evaluation is the
    maximum kept by [update_winners]. *)
Theorem simulate_winners_nonempty (sim : Simulator) (selection : list Z)
    (known_hands : list (list Z)) (sample : list Z) (start : Z)
    (st : sim_state) (log : list diag) :
  simulate_state sim selection known_hands sample start = Ok st log →
  Z.of_nat (length known_hands) + Z.of_nat (length sample) + 1 < 2^31 →
  (ss_winners st = [] ↔ ss_seats st = [])
  ∧ ∀ w, w ∈ ss_winners st → (w, ss_max st) ∈ ss_seats st.
Proof.
  intros Hsim Hsize.
  destruct (simulate_state_inv _ _ _ _ _ _ _ Hsim Hsize)
    as [(Hmax & Hwinners & Hpos) _].
  rewrite Hwinners, Hmax. unfold top_seats. split; [split|].
  - intros Hnil. destruct (decide (ss_seats st = [])) as [|Hne]; [done|].
    destruct (best_score_reached _ Hpos Hne) as (s & Hin & Hs).
    assert (s.1 ∈ (filter (λ s, s.2 = best_score (ss_seats st)) (ss_seats st)).*1)
      as Hw by (by apply list_elem_of_fmap_2, list_elem_of_filter).
    rewrite Hnil in Hw. by apply elem_of_nil in Hw.
  - by intros ->.
  - intros w ([w' v] & -> & [Hv Hin]%list_elem_of_filter)%list_elem_of_fmap.
    simpl in *. by subst v.
Qed.

Lemma tally_counters_ok k ws results :
  tally_inv k results → k < 2^31 - 1 → counters_ok ws results.
Proof.
  intros Hinv Hk i row Hrow. unfold tally_inv in Hinv.
  rewrite Forall_lookup in Hinv.
  destruct (Hinv _ _ Hrow) as (wins & ties & -> & ? & ? & ?).
  exists wins, ties. split_and!; (done || lia).
Qed.

Lemma credit_ties_tally k ws results results' log :
  NoDup ws → Forall (λ w, 0 <= w) ws → Z.of_nat (length results) < 2^31 →
  tally_inv k results → k < 2^31 - 1 →
  credit_ties ws results = Ok results' log →
  tally_inv (k + 1) results' ∧ length results' = length results.
Proof.
  intros Hnd Hpos Hlen Hinv Hk Hcredit.
  destruct (credit_ties_spec ws results Hnd Hpos Hlen
              (tally_counters_ok k ws results Hinv Hk))
    as (results'' & Heq & Hlen' & Hrows).
  rewrite Heq in Hcredit. injection Hcredit as <- _. split; [|done].
  unfold tally_inv in *. rewrite Forall_lookup in Hinv |- *. intros i row' Hrow'.
  destruct (lookup_lt_is_Some_2 results i) as [row Hrow].
  { rewrite <- Hlen'. by eapply lookup_lt_Some. }
  destruct (Hinv _ _ Hrow) as (wins & ties & -> & ? & ? & ?).
  rewrite (Hrows _ _ _ Hrow) in Hrow'. injection Hrow' as <-.
  eexists _, _. split; [done|]. case_decide; lia.
Qed.

Lemma credit_tally k ws results results' log :
  NoDup ws → Forall (λ w, 0 <= w) ws → Z.of_nat (length results) < 2^31 →
  tally_inv k results → k < 2^31 - 1 →
  credit ws results = Ok results' log →
  tally_inv (k + 1) results' ∧ length results' = length results.
Proof.
  intros Hnd Hpos Hlen Hinv Hk. unfold credit.
  destruct ws as [|w [|w' ws]]; try by apply credit_ties_tally.
  destruct (Z.ltb_spec w (isize results)) as [Hw|_];
    [|by apply credit_ties_tally].
  rewrite isize_small in Hw by done. apply Forall_cons in Hpos as [Hw0 _].
  destruct (lookup_lt_is_Some_2 results (Z.to_nat w)) as [row Hrow]; [lia|].
  pose proof Hinv as Hinv'. unfold tally_inv in Hinv'.
  rewrite Forall_lookup in Hinv'.
  destruct (Hinv' _ _ Hrow) as (wins & ties & -> & ? & ? & ?).
  rewrite (bump_wins results w wins ties) by (done || lia).
  intros [= <- _]. rewrite length_insert. split; [|done].
  apply Forall_insert.
  - eapply Forall_impl; [exact Hinv|].
    intros row (wins' & ties' & -> & ? & ? & ?). eexists _, _.
    split; [done|lia].
  - eexists _, _. split; [done|lia].
Qed.

Lemma trial_tally sim known_hands s_comm sample k st st' log :
  Z.of_nat (length known_hands) + Z.of_nat (length sample) + 1 < 2^31 →
  Z.of_nat (length st.2) < 2^31 →
  tally_inv k st.2 → k < 2^31 - 1 →
  trial sim known_hands s_comm sample st = Ok st' log →
  tally_inv (k + 1) st'.2 ∧ length st'.2 = length st.2.
Proof.
  intros Hsize Hlen Hinv Hk. unfold trial, simulate.
  intros (selection1 & ? & ? & _ & (ws & ? & ? & (s & ? & ? & Hsim & [= <-] & _)
    %mbind_Ok_inv & (r & ? & ? & Hcredit & [= <-] & _)%mbind_Ok_inv & _)
    %mbind_Ok_inv & _)%mbind_Ok_inv.
  cbn [fst snd] in *.
  destruct (simulate_state_inv _ _ _ _ _ _ _ Hsim Hsize)
    as ((_ & Hwinners & _) & Hnd & Hpos).
  eapply credit_tally; [| |done..|exact Hcredit].
  - rewrite Hwinners. by apply NoDup_fmap_fst_filter.
  - rewrite Hwinners. unfold top_seats. apply Forall_fmap, Forall_forall.
    intros seat [_ Hin]%list_elem_of_filter.
    rewrite Forall_forall in Hpos. apply Hpos in Hin. simpl. lia.
Qed.

Lemma run_trials_tally sim known_hands s_comm samples k st st' log :
  Forall (λ sample, Z.of_nat (length known_hands)
                    + Z.of_nat (length sample) + 1 < 2^31) samples →
  Z.of_nat (length st.2) < 2^31 →
  tally_inv k st.2 → k + Z.of_nat (length samples) < 2^31 →
  run_trials sim known_hands s_comm samples st = Ok st' log →
  tally_inv (k + Z.of_nat (length samples)) st'.2 ∧ length st'.2 = length st.2.
Proof.
  intros Hsizes. revert k st log.
  induction Hsizes as [|sample samples Hsize Hsizes IH]; intros k st log Hlen Hinv Hk;
    cbn [run_trials length] in *.
  - intros [= <- _]. by rewrite Z.add_0_r.
  - intros (st1 & ? & ? & Htrial & Hrest & _)%mbind_Ok_inv.
    apply (trial_tally _ _ _ _ k) in Htrial as [Hinv1 Hlen1]; [|done|done|done|lia].
    apply (IH (k + 1)) in Hrest as [Hinv' Hlen']; [|lia|done|lia].
    split; [|congruence].
    by replace (k + Z.of_nat (S (length samples)))
      with (k + 1 + Z.of_nat (length samples)) by lia.
Qed.

(** X14. For a number of seats that is not negative, what [calculate]
    returns on samples is a table of consistent counters and no exception:
    there is one row of two counters for each known hand and each opponent,
    no counter is negative, and the wins and ties of a seat together are at
    most the number of trials, so that the rates derived from them never
    exceed the whole. *)
Theorem calculate_counters_bounded (sim : Simulator)
    (draw : Z → Z → Z → list (list Z)) (N : Z) (comm_hand : list Z)
    (known_hands : list (list Z)) (players_unknown : Z)
    (samples : list (list Z)) (log0 : list diag)
    (outcome : exn + list (list Z)) (log : list diag) :
  fill_empty draw N comm_hand known_hands players_unknown = Ok samples log0 →
  samples ≠ [] →
  Z.of_nat (length samples) < 2^31 →
  Forall (λ sample, Z.of_nat (length known_hands)
                    + Z.of_nat (length sample) + 1 < 2^31) samples →
  0 <= Z.of_nat (length known_hands) + players_unknown < 2^31 →
  calculate sim draw N comm_hand known_hands players_unknown = Ok outcome log →
  ∃ results,
    outcome = inr results
    ∧ length results
      = Z.to_nat (Z.of_nat (length known_hands) + players_unknown)
    ∧ tally_inv (Z.of_nat (length samples)) results.
Proof.
  intros Hfill Hne Hcount Hsizes Hseats. unfold calculate.
  rewrite Hfill, mbind_Ok. destruct samples as [|sample samples]; [done|].
  destruct (row_count_small known_hands players_unknown) as [-> ->]; [lia|].
  cbv zeta. set (results0 := replicate _ [0; 0]).
  destruct (run_trials _ _ _ _ _) as [st l|] eqn:Hrun; [|done].
  rewrite mbind_Ok. intros [= <- _]. exists st.2. split; [done|].
  apply (run_trials_tally _ _ _ _ 0) in Hrun as [Hinv Hlen]; cbn [snd] in *.
  - split; [|done]. rewrite Hlen. unfold results0. by rewrite length_replicate.
  - done.
  - unfold results0. rewrite length_replicate. lia.
  - unfold results0, tally_inv. apply Forall_replicate. exists 0, 0.
    split_and!; (done || lia).
  - lia.
Qed.

(** ** The pool the daemon samples from *)

Section pool.
Context (ext : Extern).
Hypothesis Hrange : ∀ card, isValidCard card = true → 0 <= convert_card ext card < 52.
Hypothesis Hinj : ∀ card card', isValidCard card = true → isValidCard card' = true →
  convert_card ext card = convert_card ext card' → card = card'.

Lemma convert_hand_codes (cards : list string) :
  Forall (λ card, isValidCard card = true) cards → NoDup cards →
  Forall (λ code, 0 <= code < 52) (convert_hand (convert_card ext) cards)
  ∧ NoDup (convert_hand (convert_card ext) cards).
Proof.
  intros Hvalid Hnd. unfold convert_hand. split.
  - apply Forall_fmap. eapply Forall_impl; [exact Hvalid|]. apply Hrange.
  - apply NoDup_fmap_2_strong; [|done]. rewrite Forall_forall in Hvalid.
    intros card card' ? ?. apply Hinj; by apply Hvalid.
Qed.

(** X15. With a card codec that numbers the valid cards one-to-one within
    0 to 51, a request of the daemon that reaches the simulation samples
    from a pool of exactly 50 - |board| cards, none of which is a card of the
    request, and asks the generator for 2 * opponents + 5 - |board|
    positions of that pool. *)
Theorem daemon_pool_size (n : nat) (command : string) (iterations : Z)
    (comm_hand_str : list string) (known_hands_str : list (list string))
    (opponents : Z) :
  Simulation iterations comm_hand_str known_hands_str opponents
    ∈ (handle_calc ext n command).1 →
  let comm_hand := convert_hand (convert_card ext) comm_hand_str in
  let known_hands := map (convert_hand (convert_card ext)) known_hands_str in
  let remaining := get_remaining comm_hand known_hands in
  let c := 2 * opponents + 5 - Z.of_nat (length comm_hand_str) in
  Z.of_nat (length remaining) = 50 - Z.of_nat (length comm_hand_str)
  ∧ (∀ card, card ∈ comm_hand_str ++ concat known_hands_str →
       convert_card ext card ∉ remaining)
  ∧ ∀ draw N,
      fill_empty draw N comm_hand known_hands opponents
      = mapM (λ sample, relabel_from remaining c (isize sample) 0 sample)
          (draw N c (50 - Z.of_nat (length comm_hand_str))).
Proof.
  intros [(board_str & hole_str & ? & ? & _ & _ & _ & -> & ->) Hopp _ Hboard
          (hole_cards & [= <-] & Hhole) Hdistinct]%handle_calc_validated.
  cbn [concat map] in *. rewrite app_nil_r in *.
  apply distinct_NoDup in Hdistinct.
  assert (Forall (λ card, isValidCard card = true)
            ((parseCards board_str).1 ++ (parseCards hole_str).1)) as Hvalid
    by (apply Forall_app_2; apply parseCards_valid).
  destruct (convert_hand_codes _ Hvalid Hdistinct) as [Hcodes Hnd].
  unfold convert_hand in Hcodes, Hnd. rewrite fmap_app in Hcodes, Hnd.
  set (comm_hand := convert_hand (convert_card ext) (parseCards board_str).1).
  set (hole := convert_hand (convert_card ext) (parseCards hole_str).1).
  assert (length comm_hand = length (parseCards board_str).1) as Hlen_comm
    by apply length_fmap.
  assert (length hole = 2%nat) as Hlen_hole
    by (unfold hole, convert_hand; by rewrite length_fmap).
  pose proof (get_remaining_length_exact comm_hand [hole]) as Hlen.
  cbn [concat] in Hlen. rewrite app_nil_r in Hlen.
  specialize (Hlen Hcodes Hnd). rewrite length_app in Hlen.
  assert (Z.of_nat (length (get_remaining comm_hand [hole]))
          = 50 - Z.of_nat (length (parseCards board_str).1)) as Hpool by lia.
  split_and!.
  - done.
  - intros card Hcard Hin.
    apply get_remaining_elem in Hin as (_ & Hnot_comm & Hnot_hole).
    apply elem_of_app in Hcard as [Hcard|Hcard].
    + apply Hnot_comm. by apply list_elem_of_fmap_2.
    + apply (Hnot_hole hole); [left|]. by apply list_elem_of_fmap_2.
  - intros draw N.
    destruct (fill_empty_enough draw N comm_hand hole opponents) as [_ ->];
      [lia|done|done|].
    by rewrite Hlen_comm, Hpool.
Qed.

End pool.

(** ** Writing and reading the table *)

Lemma byte_of_to_N z : Z.of_N (Byte.to_N (byte_of z)) = z mod 2^8.
Proof.
  unfold byte_of. pose proof (Z.mod_pos_bound z (2^8) ltac:(lia)) as Hz.
  destruct (Byte.of_N (Z.to_N (z mod 2^8))) as [b|] eqn:Hb.
  - apply Byte.to_of_N in Hb. simpl. rewrite Hb. lia.
  - apply Byte.of_N_None_iff in Hb. lia.
Qed.

Lemma le_int_bytes z :
  le_int (byte_of z) (byte_of (z / 2^8)) (byte_of (z / 2^16)) (byte_of (z / 2^24))
  = wrap32 z.
Proof.
  unfold le_int. rewrite !byte_of_to_N. apply wrap32_congr.
  pose proof (Z.div_mod z (2^8) ltac:(lia)).
  pose proof (Z.div_mod (z / 2^8) (2^8) ltac:(lia)).
  pose proof (Z.div_mod (z / 2^16) (2^8) ltac:(lia)).
  pose proof (Z.div_mod (z / 2^24) (2^8) ltac:(lia)).
  assert (z / 2^8 / 2^8 = z / 2^16) by (rewrite Z.div_div by lia; done).
  assert (z / 2^16 / 2^8 = z / 2^24) by (rewrite Z.div_div by lia; done).
  apply Z.mod_divide; [lia|]. exists (- (z / 2^24 / 2^8)). lia.
Qed.

Lemma read_ints_bytes (vect : list Z) (rest : list Byte.byte) :
  Forall (λ z, - 2^31 <= z < 2^31) vect →
  read_ints (length vect) (concat (int_bytes <$> vect) ++ rest) = vect.
Proof.
  induction 1 as [|z vect Hz Hvect IH]; [done|].
  cbn [length fmap list_fmap concat int_bytes app read_ints].
  by rewrite le_int_bytes, wrap32_id, IH.
Qed.

Lemma length_int_bytes (vect : list Z) :
  length (concat (int_bytes <$> vect)) = (4 * length vect)%nat.
Proof.
  induction vect as [|z vect IH]; [done|].
  cbn [fmap list_fmap concat int_bytes app length] in *. lia.
Qed.

(** X16. What [write_vect] writes, [read_vect] reads back: a vector that
    is not empty and takes less than 2^31 bytes, written to a file that can
    be opened, is the vector [read_vect] returns from this file, without a
    diagnostic, whatever the file held before. *)
Theorem write_read_round_trip (vect : list Z) (f : file) :
  vect ≠ [] →
  Forall (λ z, - 2^31 <= z < 2^31) vect →
  4 * Z.of_nat (length vect) < 2^31 →
  (write_vect vect true f).2 = []
  ∧ read_vect (write_vect vect true f).1 = Ok vect [].
Proof.
  intros Hne Hints Hsize. unfold write_vect.
  destruct vect as [|z vect]; [done|]. cbn [fst snd]. split; [done|].
  rewrite read_vect_Some, length_int_bytes. cbv zeta.
  set (n := length (z :: vect)) in *.
  assert (0 < n)%nat by (unfold n; simpl; lia).
  rewrite wrap32_id by lia.
  replace (Z.of_nat (4 * n) <=? 0) with false by (symmetry; apply Z.leb_gt; lia).
  replace (Z.of_nat (4 * n) mod 4) with 0
    by (symmetry; apply Z.mod_divide; [lia|]; exists (Z.of_nat n); lia).
  cbn [orb negb Z.eqb]. f_equal.
  replace (Z.to_nat (Z.of_nat (4 * n) / 4)) with n.
  2:{ replace (Z.of_nat (4 * n)) with (Z.of_nat n * 4) by lia.
      rewrite Z.div_mul by lia. lia. }
  rewrite <- (app_nil_r (concat _)). by apply read_ints_bytes.
Qed.

(** ** A board with an invalid card *)

Lemma parse_tokens_invalid_diag tokens cards :
  Exists (λ token, remove_spaces token ≠ EmptyString
                   ∧ isValidCard (remove_spaces token) = false) tokens →
  ∃ bad, isValidCard bad = false
    ∧ parse_tokens tokens cards = ([], [ErrInvalidCard bad]).
Proof.
  intros Hex. revert cards.
  induction Hex as [token rest [Hne Hbad]|token rest Hex IH]; intros cards;
    cbn [parse_tokens]; cbv zeta.
  - rewrite Hbad, andb_false_r. destruct (remove_spaces token); [done|].
    cbn [is_empty negb]. eauto.
  - destruct (negb (is_empty (remove_spaces token))) eqn:He; cbn [andb];
      [|apply IH].
    destruct (isValidCard (remove_spaces token)) eqn:Hv; [apply IH|eauto].
Qed.

Lemma parseCards_invalid_diag input :
  Exists (λ token, remove_spaces token ≠ EmptyString
                   ∧ isValidCard (remove_spaces token) = false)
    (getlines "," input) →
  ∃ bad, isValidCard bad = false ∧ parseCards input = ([], [ErrInvalidCard bad]).
Proof.
  intros Hex. unfold parseCards. destruct input as [|c input].
  - by apply Exists_nil in Hex.
  - cbn [is_empty]. by apply parse_tokens_invalid_diag.
Qed.

(** X17. The daemon handles a board that holds an invalid card as the
    empty board: the outcome, the answer and the simulation are those of the
    same command with no board, after the diagnostic that names the card
    when the opponents and the iterations are accepted. *)
Theorem invalid_board_handled_as_empty (ext : Extern) (n : nat)
    (command command' board_str hole_str opponents_str iterations_str : string) :
  getlines "|" (substr_from 5 command)
    = [board_str; hole_str; opponents_str; iterations_str] →
  getlines "|" (substr_from 5 command')
    = [EmptyString; hole_str; opponents_str; iterations_str] →
  Exists (λ token, remove_spaces token ≠ EmptyString
                   ∧ isValidCard (remove_spaces token) = false)
    (getlines "," board_str) →
  ∃ bad,
    isValidCard bad = false
    ∧ (handle_calc ext n command).2 = (handle_calc ext n command').2
    ∧ ((handle_calc ext n command).1 = (handle_calc ext n command').1
       ∨ (handle_calc ext n command).1
         = Stderr (ErrInvalidCard bad) :: (handle_calc ext n command').1).
Proof.
  intros Hparts Hparts' (bad & Hbad & Hboard)%parseCards_invalid_diag.
  exists bad. split; [done|]. unfold handle_calc. rewrite Hparts, Hparts', Hboard.
  change (parseCards EmptyString) with (@nil string, @nil diag). cbn [fst snd app].
  destruct (stoi opponents_str) as [e|opp]; [by auto|].
  destruct (stoi iterations_str) as [e|iters]; [by auto|].
  destruct ((opp <? 1) || (8 <? opp)); [by auto|].
  destruct ((iters <? 100) || (1000000 <? iters)); [by auto|].
  cbn [length Nat.ltb Nat.leb fmap list_fmap app].
  repeat case_match; cbn [fst snd]; auto.
Qed.

(** ** The legacy mode *)

Lemma concat_convertHandsToInt hands :
  concat (convertHandsToInt hands) = cardStrToInt <$> concat hands.
Proof.
  induction hands as [|hand hands IH]; [done|].
  cbn [convertHandsToInt map concat] in *. by rewrite fmap_app, <- IH.
Qed.

(** X18. [convertHandsToInt] keeps the shape of the hands, and on valid
    cards that are pairwise distinct the codes it gives are pairwise
    distinct cards of the deck. *)
Theorem convertHandsToInt_codes (hands : list (list string)) :
  Forall (λ card, isValidCard card = true) (concat hands) →
  NoDup (concat hands) →
  Forall2 (λ hand codes, length codes = length hand) hands (convertHandsToInt hands)
  ∧ Forall (λ code, 0 <= code < 52) (concat (convertHandsToInt hands))
  ∧ NoDup (concat (convertHandsToInt hands)).
Proof.
  intros Hvalid Hnd. split_and!.
  - unfold convertHandsToInt. apply Forall2_fmap_r, Forall_Forall2_diag.
    apply Forall_forall. intros hand _. apply length_map.
  - rewrite concat_convertHandsToInt. apply Forall_fmap.
    eapply Forall_impl; [exact Hvalid|]. apply cardStrToInt_range.
  - rewrite concat_convertHandsToInt. apply NoDup_fmap_2_strong; [|done].
    rewrite Forall_forall in Hvalid.
    intros card card' ? ?. apply cardStrToInt_inj; by apply Hvalid.
Qed.

Lemma parse_hands_Some pairs known_hands hands diags :
  parse_hands pairs known_hands = (Some hands, diags) →
  ∃ new, hands = known_hands ++ new
    ∧ Forall (λ hand, length hand = 2%nat
                ∧ Forall (λ card, isValidCard card = true) hand) new.
Proof.
  revert known_hands diags. induction pairs as [|pair pairs IH];
    intros known_hands diags; cbn [parse_hands]; cbv zeta.
  - intros [= <- _]. exists []. by rewrite app_nil_r.
  - destruct (Nat.eqb_spec (length (parseCards pair).1) 2) as [Hlen|];
      cbn [negb]; [|done].
    destruct (parse_hands pairs _) as [r d] eqn:Hrest. cbn [fst snd].
    intros [= -> _]. apply IH in Hrest as (new & -> & Hnew).
    exists ((parseCards pair).1 :: new). rewrite <- app_assoc. split; [done|].
    constructor; [|done]. split; [done|apply parseCards_valid].
Qed.

Lemma parse_hands_fed pairs known_hands :
  Forall (λ d, d ≠ ErrNotEnoughCards) (parse_hands pairs known_hands).2.
Proof.
  revert known_hands. induction pairs as [|pair pairs IH]; intros known_hands;
    cbn [parse_hands]; cbv zeta; [constructor|].
  destruct (negb _); cbn [snd]; [apply parseCards_fed|].
  apply Forall_app_2; [apply parseCards_fed|apply IH].
Qed.

Section legacy.
Context (ext : Extern).

#[local] Existing Instance string_le_trans.
#[local] Existing Instance string_le_total.

Lemma simulated_not_rejected (l : list diag) e N comm known opp :
  Simulated N comm known opp ∉ (Diagnostic <$> l) ++ [Rejected e].
Proof.
  intros [(d & [=] & _)%list_elem_of_fmap|[=]%list_elem_of_singleton]%elem_of_app.
Qed.

(** The run that reaches the simulation. *)
Lemma runLegacyMode_simulated args N comm known opp :
  Simulated N comm known opp ∈ runLegacyMode ext args →
  ∃ board_str hands_input opponents_str rest hand_diags,
    args = board_str :: hands_input :: opponents_str :: rest
    ∧ N = 100000
    ∧ comm = (parseCards board_str).1
    ∧ (length comm <= 5)%nat
    ∧ parse_hands (getlines "|" hands_input) [] = (Some known, hand_diags)
    ∧ known ≠ []
    ∧ stoi opponents_str = inr opp
    ∧ 0 <= opp <= 8
    ∧ NoDup (comm ++ concat known)
    ∧ runLegacyMode ext args
      = (Diagnostic <$> ((parseCards board_str).2 ++ hand_diags))
        ++ [Announced comm known opp; Simulated N comm known opp]
        ++ match compute_probabilities (sim ext) (convert_card ext)
                   (gen_samples ext 0) N comm known opp with
           | OutOfRange v => [Aborted v]
           | Ok (inl e) log =>
               (Diagnostic <$> log) ++ [Rejected (LegacyException e)]
           | Ok (inr results) log =>
               (Diagnostic <$> log) ++ [Printed N (convertHandsToInt known) results]
           end.
Proof.
  destruct args as [|board_str [|hands_input [|opponents_str rest]]];
    try (by intros [=]%list_elem_of_singleton).
  cbn [runLegacyMode]. cbv zeta.
  destruct (Nat.ltb_spec 5 (length (parseCards board_str).1)) as [|Hboard];
    [by intros ?%simulated_not_rejected|].
  destruct (parse_hands (getlines "|" hands_input) []) as [hands hand_diags]
    eqn:Hhands. cbn [fst snd].
  destruct hands as [[|hand hands]|]; try (by intros ?%simulated_not_rejected).
  destruct (stoi opponents_str) as [e|opponents] eqn:Hopp;
    [by intros ?%simulated_not_rejected|].
  destruct ((opponents <? 0) || (8 <? opponents)) eqn:Ho;
    [by intros ?%simulated_not_rejected|].
  destruct (_ <? _)%nat eqn:Hd; [by intros ?%simulated_not_rejected|].
  intros Hin.
  assert (Simulated N comm known opp
          = Simulated 100000 (parseCards board_str).1 (hand :: hands) opponents)
    as [= -> -> -> ->].
  { destruct (compute_probabilities _ _ _ _ _ _ _) as [[e|results] log|v];
      repeat match type of Hin with
      | _ ∈ _ ++ _ => apply elem_of_app in Hin as [Hin|Hin]
      | _ ∈ _ :: _ => apply elem_of_cons in Hin as [Hin|Hin]
      | _ ∈ [] => by apply elem_of_nil in Hin
      | _ ∈ Diagnostic <$> _ =>
          by apply list_elem_of_fmap in Hin as (? & [=] & _)
      | _ = _ => discriminate Hin
      end; done. }
  apply orb_false_elim in Ho as [?%Z.ltb_ge ?%Z.ltb_ge].
  exists board_str, hands_input, opponents_str, rest, hand_diags.
  split_and!; try done; try lia.
  - apply distinct_NoDup. apply Nat.ltb_ge in Hd.
    pose proof (unique_length_le
      (sort_strings ((parseCards board_str).1 ++ concat (hand :: hands)))).
    lia.
  - destruct (compute_probabilities _ _ _ _ _ _ _) as [[e|results] log|v];
      by rewrite <- ?app_assoc.
Qed.

Lemma legacy_simulation_run args N comm known opp :
  Simulated N comm known opp ∈ runLegacyMode ext args →
  Forall (λ card, isValidCard card = true) (comm ++ concat known)
  ∧ Forall (λ hand, length hand = 2%nat) known
  ∧ ∃ board_diags hand_diags,
      Forall (λ d, d ≠ ErrNotEnoughCards) board_diags
      ∧ Forall (λ d, d ≠ ErrNotEnoughCards) hand_diags
      ∧ (length comm <= 5)%nat
      ∧ 0 <= opp <= 8
      ∧ NoDup (comm ++ concat known)
      ∧ runLegacyMode ext args
        = (Diagnostic <$> (board_diags ++ hand_diags))
          ++ [Announced comm known opp; Simulated N comm known opp]
          ++ match compute_probabilities (sim ext) (convert_card ext)
                     (gen_samples ext 0) N comm known opp with
             | OutOfRange v => [Aborted v]
             | Ok (inl e) log =>
                 (Diagnostic <$> log) ++ [Rejected (LegacyException e)]
             | Ok (inr results) log =>
                 (Diagnostic <$> log)
                   ++ [Printed N (convertHandsToInt known) results]
             end.
Proof.
  intros (board_str & hands_input & opponents_str & rest & hand_diags & _ & HN
          & -> & Hboard & Hhands & Hne & _ & Hopp & Hnd & Hrun)%runLegacyMode_simulated.
  pose proof (parse_hands_fed (getlines "|" hands_input) []) as Hfed.
  rewrite Hhands in Hfed. cbn [snd] in Hfed.
  apply parse_hands_Some in Hhands as (new & -> & Hnew). cbn [app] in *.
  split_and!.
  - apply Forall_app_2; [apply parseCards_valid|]. apply Forall_concat.
    eapply Forall_impl; [exact Hnew|]. by intros hand [_ ?].
  - eapply Forall_impl; [exact Hnew|]. by intros hand [? _].
  - exists (parseCards board_str).2, hand_diags.
    split_and!; try done; try lia. apply parseCards_fed.
Qed.

(** X19. The legacy mode runs the simulation on validated arguments only:
    100000 iterations, a board of at most five cards, at least one known
    hand, every known hand of two cards, 0 to 8 opponents, and the cards of
    the board and of the hands valid and pairwise distinct. *)
Theorem legacy_simulation_validated (args : list string) (N : Z)
    (comm_hand : list string) (known_hands : list (list string)) (opponents : Z) :
  Simulated N comm_hand known_hands opponents ∈ runLegacyMode ext args →
  N = 100000
  ∧ 0 <= opponents <= 8
  ∧ (length comm_hand <= 5)%nat
  ∧ known_hands ≠ []
  ∧ Forall (λ hand, length hand = 2%nat) known_hands
  ∧ NoDup (comm_hand ++ concat known_hands)
  ∧ Forall (λ card, isValidCard card = true) (comm_hand ++ concat known_hands).
Proof.
  intros (board_str & hands_input & opponents_str & rest & hand_diags & _ & HN
          & -> & Hboard & Hhands & Hne & _ & Hopp & Hnd & _)%runLegacyMode_simulated.
  apply parse_hands_Some in Hhands as (new & -> & Hnew). cbn [app] in *.
  split_and!; try done; try lia.
  - eapply Forall_impl; [exact Hnew|]. by intros hand [? _].
  - apply Forall_app_2; [apply parseCards_valid|]. apply Forall_concat.
    eapply Forall_impl; [exact Hnew|]. by intros hand [_ ?].
Qed.

End legacy.

(** X20. The legacy mode also handles a board that holds an invalid card
    as the empty board: after the diagnostic that names the card, the run
    is the run of the same arguments with no board. *)
Theorem legacy_invalid_board_as_empty (ext : Extern)
    (board_str hands_input opponents_str : string) (rest : list string) :
  Exists (λ token, remove_spaces token ≠ EmptyString
                   ∧ isValidCard (remove_spaces token) = false)
    (getlines "," board_str) →
  ∃ bad,
    isValidCard bad = false
    ∧ runLegacyMode ext (board_str :: hands_input :: opponents_str :: rest)
      = Diagnostic (ErrInvalidCard bad)
        :: runLegacyMode ext (EmptyString :: hands_input :: opponents_str :: rest).
Proof.
  intros (bad & Hbad & Hboard)%parseCards_invalid_diag.
  exists bad. split; [done|]. unfold runLegacyMode. rewrite Hboard.
  change (parseCards EmptyString) with (@nil string, @nil diag).
  cbn [fst snd length Nat.ltb Nat.leb app fmap list_fmap].
  repeat case_match; done.
Qed.

(** *** Too many hands for the deck *)

Lemma calculate_starved sim draw N comm_hand known_hands players_unknown :
  (isize (get_remaining comm_hand known_hands)
     <? wrap32 (players_unknown * 2 + 5 - isize comm_hand)) = true →
  calculate sim draw N comm_hand known_hands players_unknown
  = Ok (inr []) [ErrNotEnoughCards; ErrNoSamples].
Proof. intros H. unfold calculate, fill_empty. by rewrite H. Qed.

Lemma calculate_fed_enough sim draw N comm_hand known_hands players_unknown :
  (isize (get_remaining comm_hand known_hands)
     <? wrap32 (players_unknown * 2 + 5 - isize comm_hand)) = false →
  quiet (λ d, d ≠ ErrNotEnoughCards)
    (calculate sim draw N comm_hand known_hands players_unknown).
Proof.
  intros H. unfold calculate, fill_empty. rewrite H.
  apply quiet_bind.
  - apply quiet_mapM. intros sample. by apply quiet_relabel_from.
  - intros [|sample samples].
    + by repeat constructor.
    + cbv zeta. case_match; [constructor|].
      apply quiet_bind; [by apply quiet_run_trials|]. intros st. constructor.
Qed.

Lemma length_concat_pairs {A} (hands : list (list A)) :
  Forall (λ hand, length hand = 2%nat) hands →
  length (concat hands) = (2 * length hands)%nat.
Proof.
  induction 1 as [|hand hands Hhand _ IH]; [done|].
  cbn [concat length]. rewrite length_app. lia.
Qed.

Lemma concat_convert_hands (f : string → Z) (hands : list (list string)) :
  concat (map (convert_hand f) hands) = convert_hand f (concat hands).
Proof.
  unfold convert_hand. induction hands as [|hand hands IH]; [done|].
  cbn [map concat]. by rewrite map_app, IH.
Qed.

Section legacy_pool.
Context (ext : Extern).
Hypothesis Hrange : ∀ card, isValidCard card = true → 0 <= convert_card ext card < 52.
Hypothesis Hinj : ∀ card card', isValidCard card = true → isValidCard card' = true →
  convert_card ext card = convert_card ext card' → card = card'.

(** X21. Unlike the daemon, the legacy mode can ask for more cards than
    the deck holds: with a card codec that numbers the valid cards
    one-to-one within 0 to 51, a run that reaches the simulation reports the
    lack of cards exactly when the known hands and the opponents are 24 or
    more, and it then prints the table of an empty result. *)
Theorem legacy_not_enough_cards (args : list string) (N : Z)
    (comm_hand : list string) (known_hands : list (list string)) (opponents : Z) :
  Simulated N comm_hand known_hands opponents ∈ runLegacyMode ext args →
  (Diagnostic ErrNotEnoughCards ∈ runLegacyMode ext args
   ↔ 24 <= opponents + Z.of_nat (length known_hands))
  ∧ (24 <= opponents + Z.of_nat (length known_hands) →
     ∃ pre,
       runLegacyMode ext args
       = pre ++ [Simulated N comm_hand known_hands opponents;
                 Diagnostic ErrNotEnoughCards; Diagnostic ErrNoSamples;
                 Printed N (convertHandsToInt known_hands) []]).
Proof.
  intros Hin.
  destruct (legacy_simulation_run ext args N comm_hand known_hands opponents Hin)
    as (Hvalid & Hpairs & board_diags & hand_diags & Hboard_fed & Hhands_fed
        & Hboard & Hopp & Hnd & ->).
  set (comm := convert_hand (convert_card ext) comm_hand).
  set (known := map (convert_hand (convert_card ext)) known_hands).
  destruct (convert_hand_codes ext Hrange Hinj _ Hvalid Hnd) as [Hcodes Hnd'].
  assert (convert_hand (convert_card ext) (comm_hand ++ concat known_hands)
          = comm ++ concat known) as Heq.
  { unfold known. rewrite concat_convert_hands. unfold convert_hand. apply map_app. }
  rewrite Heq in Hcodes, Hnd'.
  pose proof (get_remaining_length_exact comm known Hcodes Hnd') as Hlen.
  rewrite <- Heq in Hlen. unfold convert_hand in Hlen.
  rewrite length_map, length_app, (length_concat_pairs _ Hpairs) in Hlen.
  assert (isize comm = Z.of_nat (length comm_hand)) as Hcomm.
  { unfold comm, convert_hand. rewrite isize_small; rewrite length_map; [done|lia]. }
  assert ((isize (get_remaining comm known)
             <? wrap32 (opponents * 2 + 5 - isize comm))
          = bool_decide (24 <= opponents + Z.of_nat (length known_hands)))
    as Hstarved.
  { rewrite Hcomm, isize_small, wrap32_id by lia.
    case_bool_decide; [apply Z.ltb_lt|apply Z.ltb_ge]; lia. }
  unfold compute_probabilities. fold comm known.
  case_bool_decide as Hmany.
  - rewrite (calculate_starved _ _ _ _ _ _ Hstarved). split.
    + split; [done|]. intros _. rewrite !elem_of_app, !elem_of_cons.
      right. right. left. cbn [fmap list_fmap]. left.
    + intros _.
      exists ((Diagnostic <$> (board_diags ++ hand_diags))
                ++ [Announced comm_hand known_hands opponents]).
      by rewrite <- app_assoc.
  - pose proof (calculate_fed_enough (sim ext) (gen_samples ext 0) N comm known
                  opponents Hstarved) as Hquiet.
    split; [|done]. split; [|done]. intros Hstarve. exfalso.
    assert (∀ log, Forall (λ d, d ≠ ErrNotEnoughCards) log →
              Diagnostic ErrNotEnoughCards ∉ Diagnostic <$> log) as Hlog.
    { intros log Hfed (d & [= <-] & Hd)%list_elem_of_fmap.
      rewrite Forall_forall in Hfed. by apply (Hfed _ Hd). }
    apply elem_of_app in Hstarve as [Hstarve|Hstarve].
    { revert Hstarve. apply Hlog. by apply Forall_app_2. }
    apply elem_of_cons in Hstarve as [[=]|Hstarve].
    apply elem_of_cons in Hstarve as [[=]|Hstarve].
    destruct (calculate _ _ _ _ _ _) as [[e|results] log|v].
    + apply elem_of_app in Hstarve as [Hstarve|[=]%list_elem_of_singleton].
      revert Hstarve. by apply Hlog.
    + apply elem_of_app in Hstarve as [Hstarve|[=]%list_elem_of_singleton].
      revert Hstarve. by apply Hlog.
    + by apply list_elem_of_singleton in Hstarve.
Qed.

End legacy_pool.

(** ** No access outside a vector *)

Lemma relabel_from_total remaining c len i sample :
  ∃ sample' log,
    relabel_from remaining c len i sample = Ok sample' log
    ∧ length sample' = length sample
    ∧ Forall (λ d, d = WarnSampleIndex) log.
Proof.
  revert i. induction sample as [|s rest IH]; intros i; cbn [relabel_from].
  - by exists [], [].
  - destruct ((i <? c) && (i <? len)); [|by eexists _, _].
    destruct (IH (i + 1)) as (rest' & log' & Hrest & Hlen & Hlog).
    destruct (in_bounds s remaining) eqn:Hb.
    + destruct (vget_in_bounds VRemaining _ _ Hb) as (x & -> & _).
      rewrite mbind_Ok_nil, Hrest, mbind_Ok. eexists _, _.
      split; [done|]. rewrite app_nil_r. split; [simpl; lia|done].
    + change (report WarnSampleIndex ≫= λ _, mret s) with (Ok s [WarnSampleIndex]).
      rewrite mbind_Ok, Hrest, mbind_Ok. eexists _, _.
      split; [done|]. rewrite app_nil_r. split; [simpl; lia|].
      by constructor.
Qed.

Lemma mapM_total {A B} (f : A → result B) (R : A → B → Prop) (Q : diag → Prop)
    (l : list A) :
  (∀ x, ∃ y log, f x = Ok y log ∧ R x y ∧ Forall Q log) →
  ∃ ys log, mapM f l = Ok ys log ∧ Forall2 R l ys ∧ Forall Q log.
Proof.
  intros Hf. induction l as [|x l IH]; cbn [mapM].
  - by exists [], [].
  - destruct (Hf x) as (y & log1 & -> & Hy & Hlog1).
    destruct IH as (ys & log2 & -> & Hys & Hlog2).
    rewrite !mbind_Ok. eexists _, _. split; [done|].
    split; [by constructor|]. rewrite app_nil_r. by apply Forall_app_2.
Qed.

Lemma fill_empty_total draw N comm_hand known_hands players_unknown :
  let remaining := get_remaining comm_hand known_hands in
  let c := wrap32 (players_unknown * 2 + 5 - isize comm_hand) in
  ∃ samples log,
    fill_empty draw N comm_hand known_hands players_unknown = Ok samples log
    ∧ ((isize remaining <? c) = true ∧ samples = [] ∧ log = [ErrNotEnoughCards]
       ∨ (isize remaining <? c) = false
         ∧ Forall2 (λ sample sample', length sample' = length sample)
             (draw N c (isize remaining)) samples
         ∧ Forall (λ d, d = WarnSampleIndex) log).
Proof.
  intros remaining c. unfold fill_empty. fold remaining. fold c.
  destruct (isize remaining <? c); [eexists _, _; split; [done|by left]|].
  destruct (mapM_total
    (λ sample, relabel_from remaining c (isize sample) 0 sample)
    (λ sample sample', length sample' = length sample)
    (λ d, d = WarnSampleIndex) (draw N c (isize remaining)))
    as (samples & log & Hmap & Hshape & Hlog).
  { intros sample. apply relabel_from_total. }
  exists samples, log. split; [done|]. by right.
Qed.

(** X25. [fill_empty] never reads outside a vector, whatever the generator
    returns: it ends either with no sample and the report of a lack of
    cards, or with samples of the shape of the drawn ones and no diagnostic
    but the warning for a position outside the remaining deck. *)
Theorem fill_empty_memory_safe (draw : Z → Z → Z → list (list Z)) (N : Z)
    (comm_hand : list Z) (known_hands : list (list Z)) (players_unknown : Z) :
  let remaining := get_remaining comm_hand known_hands in
  let c := wrap32 (players_unknown * 2 + 5 - isize comm_hand) in
  ∃ samples log,
    fill_empty draw N comm_hand known_hands players_unknown = Ok samples log
    ∧ (samples = [] ∧ log = [ErrNotEnoughCards]
       ∨ Forall2 (λ sample sample', length sample' = length sample)
           (draw N c (isize remaining)) samples
         ∧ Forall (λ d, d = WarnSampleIndex) log).
Proof.
  intros remaining c.
  destruct (fill_empty_total draw N comm_hand known_hands players_unknown)
    as (samples & log & Hfill & [(_ & ? & ?)|(_ & ? & ?)]);
    exists samples, log; (split; [done|]); [by left|by right].
Qed.

Lemma evaluate_selection_safe sim sel :
  Forall (λ r, 0 <= r) (replace sim) →
  ∃ v log, evaluate_selection sim sel = Ok v log.
Proof.
  intros Hreplace. unfold evaluate_selection.
  destruct (Nat.ltb_spec (length (sort sel)) 7) as [Hshort|Hlong];
    [by eexists _, _|].
  destruct (base_hand_Ok (sort sel) Hlong)
    as (s0 & s1 & s2 & s3 & s4 & s5 & s6 & rest & Hs & ->).
  rewrite mbind_Ok_nil.
  destruct (to_ckey_from_total sim [s2; s3; s4; s5; s6] 0 0)
    as (key & log0 & Hkey & _).
  fold (to_ckey sim [s2; s3; s4; s5; s6]) in Hkey. rewrite Hkey, mbind_Ok.
  destruct ((key <? 0) || (isize (table sim) <=? key)) eqn:Hout;
    [by eexists _, _|].
  apply orb_false_elim in Hout as [H1%Z.ltb_ge H2%Z.leb_gt].
  destruct (vget_in_range VTable (table sim) key) as (base & _ & ->).
  { pose proof (isize_le (table sim)). lia. }
  rewrite mbind_Ok_nil.
  pose proof (replace_loop_safe sim (sort sel) 20 0
    {| es_key := key; es_hand := [s2; s3; s4; s5; s6]; es_max := base |}
    ltac:(lia) eq_refl) as Hloop.
  destruct (replace_loop _ _ _ _ _) as [st' log|v].
  - rewrite mbind_Ok. by eexists _, _.
  - by destruct Hloop as [_ ?].
Qed.

Lemma seat_eval_safe sim c1 c2 ix st :
  Forall (λ r, 0 <= r) (replace sim) → (7 <= length (ss_selection st))%nat →
  ∃ st' log, seat_eval sim c1 c2 ix st = Ok st' log.
Proof.
  intros Hreplace Hlen. unfold seat_eval.
  rewrite vset_in_range, mbind_Ok_nil by lia.
  rewrite vset_in_range, mbind_Ok_nil by (rewrite length_insert; lia).
  destruct (evaluate_selection_safe sim
              (<[Z.to_nat 6 := c2]> (<[Z.to_nat 5 := c1]> (ss_selection st)))
              Hreplace) as (v & log & ->).
  rewrite mbind_Ok. destruct (0 <=? v); by eexists _, _.
Qed.

Lemma simulate_known_safe sim i known_hands st :
  Forall (λ r, 0 <= r) (replace sim) → (7 <= length (ss_selection st))%nat →
  ∃ st' log, simulate_known sim i known_hands st = Ok st' log.
Proof.
  intros Hreplace. revert i st.
  induction known_hands as [|hand rest IH]; intros i st Hlen;
    cbn [simulate_known]; [by eexists _, _|].
  destruct (Nat.ltb_spec (length hand) 2) as [|Hhand]; [by apply IH|].
  destruct (vget_in_range VKnownHand hand 0) as (c1 & _ & ->); [lia|].
  destruct (vget_in_range VKnownHand hand 1) as (c2 & _ & ->); [lia|].
  rewrite !mbind_Ok_nil.
  destruct (seat_eval_safe sim c1 c2 (wrap32 i) st Hreplace Hlen)
    as (st1 & log1 & Hseat).
  rewrite Hseat, mbind_Ok.
  apply seat_eval_selection in Hseat as [Hlen1 _].
  destruct (IH (i + 1) st1) as (st' & log' & ->); [lia|]. by eexists _, _.
Qed.

Lemma simulate_unknown_safe sim n_known sample start fuel i st :
  Forall (λ r, 0 <= r) (replace sim) → (7 <= length (ss_selection st))%nat →
  0 <= start → 0 <= i → start + 2 * (i + Z.of_nat fuel) + 1 < 2^31 →
  Z.of_nat (length sample) < 2^31 →
  ∃ st' log, simulate_unknown sim n_known sample start fuel i st = Ok st' log.
Proof.
  intros Hreplace Hlen Hstart Hi Hfuel Hsample. revert i st Hlen Hi Hfuel.
  induction fuel as [|fuel IH]; intros i st Hlen Hi Hfuel;
    cbn [simulate_unknown]; [by eexists _, _|].
  rewrite isize_small by done.
  rewrite (wrap32_id (start + i * 2 + 1)), (wrap32_id (start + i * 2)) by lia.
  destruct (Z.ltb_spec (start + i * 2 + 1) (Z.of_nat (length sample)));
    [|by eexists _, _].
  destruct (vget_in_range VSample sample (start + i * 2)) as (c1 & _ & ->);
    [lia|].
  destruct (vget_in_range VSample sample (start + i * 2 + 1)) as (c2 & _ & ->);
    [lia|].
  rewrite !mbind_Ok_nil.
  destruct (seat_eval_safe sim c1 c2 (wrap32 (n_known + i)) st Hreplace Hlen)
    as (st1 & log1 & Hseat).
  rewrite Hseat, mbind_Ok.
  apply seat_eval_selection in Hseat as [Hlen1 _].
  destruct (IH (i + 1) st1) as (st' & log' & ->); [lia..|]. by eexists _, _.
Qed.

Lemma resize7_length selection : (7 <= length (resize7 selection))%nat.
Proof.
  unfold resize7. destruct (Nat.ltb_spec (length selection) 7); [|done].
  rewrite length_app, length_replicate. lia.
Qed.

Lemma simulate_state_safe sim selection known_hands sample start :
  Forall (λ r, 0 <= r) (replace sim) →
  0 <= start <= 5 → Z.of_nat (length sample) < 2^29 →
  ∃ st log, simulate_state sim selection known_hands sample start = Ok st log.
Proof.
  intros Hreplace Hstart Hsample. unfold simulate_state.
  destruct (simulate_known_safe sim 0 known_hands
              {| ss_selection := resize7 selection; ss_max := 0;
                 ss_winners := []; ss_seats := [] |} Hreplace
              (resize7_length selection)) as (st1 & log1 & Hknown).
  rewrite Hknown, mbind_Ok.
  apply simulate_known_selection in Hknown as [Hlen _]. cbn [ss_selection] in Hlen.
  pose proof (resize7_length selection).
  destruct (simulate_unknown_safe sim (isize known_hands) sample start
              (S (length sample)) 0 st1) as (st & log & ->);
    [done|lia|lia|lia|lia|lia|]. by eexists _, _.
Qed.

Lemma fill_board_total s_comm len i sample selection :
  length selection = 7%nat →
  ∃ selection',
    fill_board s_comm len i sample selection = Ok selection' []
    ∧ length selection' = 7%nat.
Proof.
  revert i selection. induction sample as [|s rest IH]; intros i selection Hlen;
    cbn [fill_board]; [by exists selection|].
  destruct ((i <? s_comm) && (i <? len)); [|by exists selection].
  destruct ((0 <=? 4 - i) && (4 - i <? 7)) eqn:Hguard.
  - apply andb_prop in Hguard as [?%Z.leb_le ?%Z.ltb_lt].
    rewrite vset_in_range, mbind_Ok_nil by lia.
    apply IH. by rewrite length_insert.
  - change (mret selection) with (Ok selection (@nil diag)).
    rewrite mbind_Ok_nil. by apply IH.
Qed.

Lemma credit_Ok k ws results :
  NoDup ws → Forall (λ w, 0 <= w) ws → Z.of_nat (length results) < 2^31 →
  tally_inv k results → k < 2^31 - 1 →
  ∃ results', credit ws results = Ok results' [].
Proof.
  intros Hnd Hpos Hlen Hinv Hk.
  assert (∃ results', credit_ties ws results = Ok results' []) as Hties.
  { destruct (credit_ties_spec ws results Hnd Hpos Hlen
                (tally_counters_ok k ws results Hinv Hk)) as (r & ? & _).
    by exists r. }
  unfold credit. destruct ws as [|w [|w' ws]]; try done.
  destruct (Z.ltb_spec w (isize results)) as [Hw|_]; [|done].
  rewrite isize_small in Hw by done. apply Forall_cons in Hpos as [Hw0 _].
  destruct (lookup_lt_is_Some_2 results (Z.to_nat w)) as [row Hrow]; [lia|].
  unfold tally_inv in Hinv. rewrite Forall_lookup in Hinv.
  destruct (Hinv _ _ Hrow) as (wins & ties & -> & ? & ? & ?).
  rewrite (bump_wins results w wins ties) by (done || lia). by eexists.
Qed.

Lemma trial_safe sim known_hands s_comm sample k st :
  Forall (λ r, 0 <= r) (replace sim) →
  0 <= s_comm <= 5 →
  Z.of_nat (length known_hands) < 2^30 → Z.of_nat (length sample) < 2^29 →
  length st.1 = 7%nat → Z.of_nat (length st.2) < 2^31 →
  tally_inv k st.2 → k < 2^31 - 1 →
  ∃ st' log,
    trial sim known_hands s_comm sample st = Ok st' log
    ∧ length st'.1 = 7%nat
    ∧ tally_inv (k + 1) st'.2 ∧ length st'.2 = length st.2.
Proof.
  intros Hreplace Hs Hknown Hsample Hsel Hlen Hinv Hk.
  assert (∃ st' log, trial sim known_hands s_comm sample st = Ok st' log
                     ∧ length st'.1 = 7%nat) as (st' & log & Htrial & Hsel').
  { unfold trial, simulate.
    destruct (fill_board_total s_comm (isize sample) 0 sample st.1 Hsel)
      as (selection1 & -> & Hsel1).
    rewrite mbind_Ok_nil.
    destruct (simulate_state_safe sim selection1 known_hands sample s_comm)
      as (s & log2 & Hsim); [done..|].
    rewrite Hsim, mbind_Ok.
    change (mret (ss_winners s, ss_selection s))
      with (Ok (ss_winners s, ss_selection s) (@nil diag)).
    cbv beta iota. rewrite mbind_Ok. cbn [fst snd].
    destruct (simulate_state_inv _ _ _ _ _ _ _ Hsim ltac:(lia))
      as ((_ & Hwinners & _) & Hnd & Hpos).
    destruct (credit_Ok k (ss_winners s) st.2) as (results' & ->); try done.
    - rewrite Hwinners. by apply NoDup_fmap_fst_filter.
    - rewrite Hwinners. unfold top_seats. apply Forall_fmap, Forall_forall.
      intros seat [_ Hin]%list_elem_of_filter.
      rewrite Forall_forall in Hpos. apply Hpos in Hin. simpl. lia.
    - eexists _, _. split; [done|]. cbn [fst].
      apply simulate_state_selection in Hsim as [Hlen' _].
      unfold resize7 in Hlen'. rewrite Hsel1 in Hlen'. by rewrite Hlen'. }
  exists st', log. split_and!; [done|done|..];
    by eapply trial_tally; [| | | |exact Htrial]; (done || lia).
Qed.

Lemma run_trials_safe sim known_hands s_comm samples k st :
  Forall (λ r, 0 <= r) (replace sim) →
  0 <= s_comm <= 5 →
  Z.of_nat (length known_hands) < 2^30 →
  Forall (λ sample, Z.of_nat (length sample) < 2^29) samples →
  length st.1 = 7%nat → Z.of_nat (length st.2) < 2^31 →
  tally_inv k st.2 → k + Z.of_nat (length samples) < 2^31 →
  ∃ st' log,
    run_trials sim known_hands s_comm samples st = Ok st' log
    ∧ tally_inv (k + Z.of_nat (length samples)) st'.2
    ∧ length st'.2 = length st.2.
Proof.
  intros Hreplace Hs Hknown Hsamples. revert k st.
  induction Hsamples as [|sample samples Hsample _ IH];
    intros k st Hsel Hlen Hinv Hk; cbn [run_trials length] in *.
  - exists st, []. by rewrite Z.add_0_r.
  - destruct (trial_safe sim known_hands s_comm sample k st)
      as (st1 & log1 & -> & Hsel1 & Hinv1 & Hlen1); try done; [lia|].
    rewrite mbind_Ok.
    destruct (IH (k + 1) st1) as (st' & log' & -> & Hinv' & Hlen');
      try done; [lia..|].
    eexists _, _. split; [done|]. split; [|congruence].
    by replace (k + Z.of_nat (S (length samples)))
      with (k + 1 + Z.of_nat (length samples)) by lia.
Qed.

Lemma calculate_sane sim draw N comm_hand known_hands players_unknown samples log0 :
  Forall (λ r, 0 <= r) (replace sim) →
  (length comm_hand <= 5)%nat →
  Z.of_nat (length known_hands) < 2^30 → - 2^30 <= players_unknown < 2^30 →
  fill_empty draw N comm_hand known_hands players_unknown = Ok samples log0 →
  Z.of_nat (length samples) < 2^30 →
  Forall (λ sample, Z.of_nat (length sample) < 2^29) samples →
  ∃ outcome log,
    calculate sim draw N comm_hand known_hands players_unknown = Ok outcome log
    ∧ (samples = [] → outcome = inr [])
    ∧ (samples ≠ [] → Z.of_nat (length known_hands) + players_unknown < 0 →
       outcome = inl LengthError)
    ∧ (samples ≠ [] → 0 <= Z.of_nat (length known_hands) + players_unknown →
       ∃ results, outcome = inr results
         ∧ length results
           = Z.to_nat (Z.of_nat (length known_hands) + players_unknown)
         ∧ tally_inv (Z.of_nat (length samples)) results).
Proof.
  intros Hreplace Hcomm Hknown Hpu Hfill Hcount Hsamples. unfold calculate.
  rewrite Hfill, mbind_Ok. destruct samples as [|sample samples];
    [by eexists _, _|].
  destruct (Z.lt_ge_cases (Z.of_nat (length known_hands) + players_unknown) 0)
    as [Hneg|Hseats].
  { cbv zeta. rewrite row_count_negative by lia.
    eexists _, _. split; [done|]. split_and!; [done|done|lia]. }
  destruct (row_count_small known_hands players_unknown) as [-> ->]; [lia|].
  cbv zeta. set (results0 := replicate _ [0; 0]).
  destruct (run_trials_safe sim known_hands (wrap32 (5 - isize comm_hand))
              (sample :: samples) 0 (init_selection comm_hand, results0))
    as (st & log & -> & Hinv & Hlen); try done.
  - rewrite isize_small, wrap32_id by lia. lia.
  - by apply init_selection_board.
  - cbn [snd]. unfold results0. rewrite length_replicate. lia.
  - cbn [snd]. unfold results0, tally_inv. apply Forall_replicate. exists 0, 0.
    split_and!; (done || lia).
  - lia.
  - rewrite mbind_Ok. eexists _, _. split; [done|].
    split_and!; [done|lia|]. intros _ _. exists st.2.
    cbn [snd] in *. split_and!; [done| |done].
    rewrite Hlen. unfold results0. by rewrite length_replicate.
Qed.

(** X26. With a substitution table that has no negative entry and a board
    of at most five cards, [calculate] never reads or writes outside a
    vector, on fewer than 2^30 hands and samples, of fewer than 2^29 cards
    each, and a number of unknown players between -2^30 and 2^30, whatever
    the tables, the cards and the samples hold. It ends with a table when the
    number of seats is not negative. When that number is negative it ends with
    the empty table if there is no sample, and otherwise the constructor of
    the table throws [std::length_error]. *)
Theorem calculate_memory_safe (sim : Simulator)
    (draw : Z → Z → Z → list (list Z)) (N : Z) (comm_hand : list Z)
    (known_hands : list (list Z)) (players_unknown : Z) :
  let remaining := get_remaining comm_hand known_hands in
  let c := wrap32 (players_unknown * 2 + 5 - isize comm_hand) in
  let drawn := draw N c (isize remaining) in
  Forall (λ r, 0 <= r) (replace sim) →
  (length comm_hand <= 5)%nat →
  Z.of_nat (length known_hands) < 2^30 → - 2^30 <= players_unknown < 2^30 →
  Z.of_nat (length drawn) < 2^30 →
  Forall (λ sample, Z.of_nat (length sample) < 2^29) drawn →
  ∃ outcome log,
    calculate sim draw N comm_hand known_hands players_unknown = Ok outcome log
    ∧ (0 <= Z.of_nat (length known_hands) + players_unknown →
       ∃ results, outcome = inr results)
    ∧ (Z.of_nat (length known_hands) + players_unknown < 0 →
       if bool_decide (isize remaining < c ∨ drawn = [])
       then outcome = inr [] else outcome = inl LengthError).
Proof.
  intros remaining c drawn Hreplace Hcomm Hknown Hpu Hcount Hsamples.
  destruct (fill_empty_total draw N comm_hand known_hands players_unknown)
    as (samples & log0 & Hfill & Hcases).
  fold remaining c drawn in Hcases.
  assert (length samples = (if bool_decide (isize remaining < c) then 0%nat
                            else length drawn)) as Hsame.
  { destruct Hcases as [(?%Z.ltb_lt & -> & _)|(?%Z.ltb_ge & Hshape & _)].
    - by rewrite bool_decide_eq_true_2.
    - rewrite bool_decide_eq_false_2 by lia. by apply Forall2_length in Hshape. }
  destruct (calculate_sane sim draw N comm_hand known_hands players_unknown
              samples log0) as (outcome & log & Hcalc & Hnone & Hneg & Hseats);
    try done.
  - rewrite Hsame. case_bool_decide; simpl; lia.
  - destruct Hcases as [(_ & -> & _)|(_ & Hshape & _)]; [constructor|].
    rewrite Forall_forall in Hsamples. apply Forall_forall. intros sample' Hin.
    apply list_elem_of_lookup in Hin as [j Hj].
    destruct (Forall2_lookup_r _ _ _ _ _ Hshape Hj) as (sample & Hs & ->).
    apply Hsamples. by eapply list_elem_of_lookup_2.
  - exists outcome, log. split_and!; [done| |].
    + intros Hsum. destruct samples as [|sample samples].
      * exists []. by apply Hnone.
      * destruct Hseats as (results & -> & _); [done..|]. by exists results.
    + intros Hsum.
      destruct (decide (isize remaining < c ∨ drawn = [])) as [Hcase|Hcase].
      * rewrite bool_decide_eq_true_2 by done.
        apply Hnone, length_zero_iff_nil. rewrite Hsame.
        case_bool_decide; [done|]. destruct Hcase as [?| ->]; done.
      * rewrite bool_decide_eq_false_2 by done.
        apply Hneg; [|done]. intros ->. simpl in Hsame.
        rewrite bool_decide_eq_false_2 in Hsame by tauto.
        apply Hcase. right. by apply length_zero_iff_nil.
Qed.

(** ** A daemon on sound tables and samples *)

Section sound_daemon.
Context (ext : Extern).
Hypothesis Hreplace : Forall (λ r, 0 <= r) (replace (sim ext)).
Hypothesis Hcount : ∀ n N c m,
  1 <= N → 1 <= Z.of_nat (length (gen_samples ext n N c m)) <= N.
Hypothesis Hcards : ∀ n N c m,
  Forall (λ sample, Z.of_nat (length sample) <= Z.max 0 c) (gen_samples ext n N c m).

Lemma calculate_request n iterations comm_hand hole opponents :
  (length comm_hand <= 5)%nat → length hole = 2%nat →
  1 <= opponents <= 8 → 100 <= iterations <= 1000000 →
  ∃ wins ties results log,
    calculate (sim ext) (gen_samples ext n) iterations comm_hand [hole] opponents
    = Ok (inr ([wins; ties] :: results)) log
    ∧ 0 <= wins ∧ 0 <= ties ∧ wins + ties <= iterations.
Proof.
  intros Hcomm Hhole Hopp Hiters.
  destruct (fill_empty_total (gen_samples ext n) iterations comm_hand [hole]
              opponents) as (samples & log0 & Hfill & Hcases).
  destruct (fill_empty_enough (gen_samples ext n) iterations comm_hand hole
              opponents Hcomm Hhole Hopp) as [Henough _].
  pose proof (get_remaining_length_le comm_hand [hole]) as Hle.
  rewrite !isize_small in Hcases by lia.
  rewrite wrap32_id in Hcases by lia.
  destruct Hcases as [(Hstarved & _)|(_ & Hshape & _)];
    [apply Z.ltb_lt in Hstarved; lia|].
  set (c := opponents * 2 + 5 - Z.of_nat (length comm_hand)) in *.
  set (m := Z.of_nat (length (get_remaining comm_hand [hole]))) in *.
  pose proof (Hcount n iterations c m ltac:(lia)) as Hn.
  pose proof (Hcards n iterations c m) as Hc.
  pose proof (Forall2_length _ _ _ Hshape) as Hsame.
  destruct (calculate_sane (sim ext) (gen_samples ext n) iterations comm_hand
              [hole] opponents samples log0)
    as (outcome & log & Hcalc & _ & _ & Hres); try done; [lia|lia| |].
  { rewrite Forall_forall in Hc. apply Forall_forall. intros sample' Hin.
    apply list_elem_of_lookup in Hin as [j Hj].
    destruct (Forall2_lookup_r _ _ _ _ _ Hshape Hj) as (sample & Hs & ->).
    apply list_elem_of_lookup_2, Hc in Hs. unfold c in Hs. lia. }
  destruct Hres as (results & -> & Hlen & Hinv);
    [by destruct samples; [simpl in *; lia|]|cbn [length]; lia|].
  cbn [length] in Hlen.
  destruct results as [|row results]; [simpl in Hlen; lia|].
  apply Forall_cons in Hinv as [(wins & ties & -> & ? & ? & ?) _].
  exists wins, ties, results, log. split_and!; (done || lia).
Qed.

Lemma handle_calc_sound n command :
  Forall (λ e, is_undefined e = false) (handle_calc ext n command).1
  ∧ ∀ wins ties N,
      Stdout (Success wins ties N) ∈ (handle_calc ext n command).1 →
      0 <= wins ∧ 0 <= ties ∧ wins + ties <= N ∧ 100 <= N <= 1000000.
Proof.
  assert (∀ l e,
    Forall (λ e, is_undefined e = false) ((Stderr <$> l) ++ [Stdout (Failure e)])
    ∧ ∀ wins ties N,
        Stdout (Success wins ties N) ∈ (Stderr <$> l) ++ [Stdout (Failure e)] →
        0 <= wins ∧ 0 <= ties ∧ wins + ties <= N ∧ 100 <= N <= 1000000) as Hfail.
  { intros l e. split.
    - apply Forall_app_2; [by apply Forall_fmap_stderr|by repeat constructor].
    - intros wins ties N
        [(d & [=] & _)%list_elem_of_fmap|[=]%list_elem_of_singleton]%elem_of_app. }
  unfold handle_calc.
  destruct (getlines "|" (substr_from 5 command))
    as [|board_str [|hole_str [|opp_str [|iter_str [|]]]]];
    try apply (Hfail []).
  destruct (stoi opp_str) as [e|opp]; [apply (Hfail [])|].
  destruct (stoi iter_str) as [e|iters]; [apply (Hfail [])|].
  destruct ((opp <? 1) || (8 <? opp)) eqn:Ho; [apply (Hfail [])|].
  destruct ((iters <? 100) || (1000000 <? iters)) eqn:Hi; [apply (Hfail [])|].
  apply orb_false_elim in Ho as [?%Z.ltb_ge ?%Z.ltb_ge].
  apply orb_false_elim in Hi as [?%Z.ltb_ge ?%Z.ltb_ge].
  destruct (Nat.ltb_spec 5 (length (parseCards board_str).1)) as [|Hb];
    [apply Hfail|].
  destruct (Nat.eqb_spec (length (parseCards hole_str).1) 2) as [Hh|];
    cbn [negb]; [|apply Hfail].
  destruct (_ <? _)%nat; [apply Hfail|].
  unfold compute_probabilities. cbn [map].
  destruct (calculate_request n iters
              (convert_hand (convert_card ext) (parseCards board_str).1)
              (convert_hand (convert_card ext) (parseCards hole_str).1) opp)
    as (wins & ties & results & log & -> & ? & ? & ?);
    [unfold convert_hand; by rewrite length_map..|lia|lia|].
  cbn [fst]. split.
  - apply Forall_app_2; [by apply Forall_fmap_stderr|].
    apply Forall_cons_2; [done|].
    apply Forall_app_2; [by apply Forall_fmap_stderr|by repeat constructor].
  - intros wins' ties' N Hin.
    assert (Stdout (Success wins' ties' N) = Stdout (Success wins ties iters))
      as [= -> -> ->]; [|lia].
    repeat match type of Hin with
    | _ ∈ _ ++ _ => apply elem_of_app in Hin as [Hin|Hin]
    | _ ∈ _ :: _ => apply elem_of_cons in Hin as [Hin|Hin]
    | _ ∈ [] => by apply elem_of_nil in Hin
    | _ ∈ Stderr <$> _ => by apply list_elem_of_fmap in Hin as (? & [=] & _)
    | _ = Simulation _ _ _ _ => discriminate Hin
    end. done.
Qed.

Lemma handle_line_sound st line :
  Forall (λ e, is_undefined e = false) (handle_line ext st line).1.1
  ∧ ∀ wins ties N,
      Stdout (Success wins ties N) ∈ (handle_line ext st line).1.1 →
      0 <= wins ∧ 0 <= ties ∧ wins + ties <= N ∧ 100 <= N <= 1000000.
Proof.
  unfold handle_line.
  destruct (String.eqb _ _); cbn [fst].
  { split; [by repeat constructor|]. by intros ? ? ? [=]%list_elem_of_singleton. }
  destruct (is_calc _); cbn [fst].
  - destruct (handle_calc_sound (simulations st) (trim_right line)) as [Hdef Hok].
    split.
    + apply Forall_app_2; [|done]. destruct (marker_sent st); by repeat constructor.
    + intros wins ties N [Hin|Hin]%elem_of_app; [|by apply Hok].
      destruct (marker_sent st); [by apply elem_of_nil in Hin|].
      by apply list_elem_of_singleton in Hin.
  - split; [by repeat constructor|]. by intros ? ? ? [=]%list_elem_of_singleton.
Qed.

(** X27. On a substitution table without negative entries and a generator
    that returns between one and [N] samples of at most [c] positions, no
    session of the daemon reads or writes outside a vector. *)
Theorem daemon_never_undefined (lines : list string) :
  Forall (λ e, is_undefined e = false) (runDaemonMode ext lines).
Proof.
  unfold runDaemonMode. apply Forall_app_2; [by repeat constructor|].
  generalize ({| marker_sent := false; simulations := 0 |}).
  induction lines as [|line lines IH]; intros st; cbn [run_lines]; [constructor|].
  destruct (handle_line_sound st line) as [Hdef _].
  destruct ((handle_line ext st line).1.2); [|done..].
  apply Forall_app_2; [done|apply IH].
Qed.

(** X28. On such tables and samples, the counters of every answer with
    rates are consistent: the wins and the ties of the hole cards are not
    negative, and together they are at most the iterations of the request,
    which lie between 100 and 1000000. *)
Theorem daemon_rates_bounded (lines : list string) (wins ties iterations : Z) :
  Stdout (Success wins ties iterations) ∈ runDaemonMode ext lines →
  0 <= wins ∧ 0 <= ties ∧ wins + ties <= iterations
  ∧ 100 <= iterations <= 1000000.
Proof.
  unfold runDaemonMode. intros [Hin|Hin]%elem_of_app.
  { unfold startup in Hin.
    repeat (apply elem_of_cons in Hin as [[=]|Hin]). by apply elem_of_nil in Hin. }
  apply run_lines_elem in Hin as (st & line & _ & Hin).
  by apply (handle_line_sound st line).
Qed.

End sound_daemon.

(** ** Instances of the further properties *)

(** X5 at [EXIT] followed by a space and a carriage return. *)
Lemma trailing_whitespace_ignored_witness :
  handle_line example_ext {| marker_sent := false; simulations := 0 |}
    ("EXIT" +:+ String " " (String "013" EmptyString))
  = handle_line example_ext {| marker_sent := false; simulations := 0 |} "EXIT".
Proof.
  apply (trailing_whitespace_ignored example_ext
           {| marker_sent := false; simulations := 0 |} "EXIT"
           (String " " (String "013" EmptyString))).
  by repeat constructor.
Defined.

(** X6 at a session that goes on after [EXIT]. *)
Lemma exit_ends_session_witness :
  runDaemonMode example_ext (["foo"] ++ "EXIT" :: ["CALC x"; "bar"])
  = runDaemonMode example_ext (["foo"] ++ ["EXIT"]).
Proof.
  refine (proj1 (exit_ends_session example_ext ["foo"] "EXIT" ["CALC x"; "bar"] _)).
  reflexivity.
Defined.

(** X7 at an unknown command followed by a malformed request. *)
Lemma one_response_per_line_witness :
  filter is_response (runDaemonMode example_ext ["foo"; "CALC x"])
  = [Stdout (Failure (ErrUnknown "foo")); Stdout (Failure ErrFormat)]
  ∧ length (filter is_response (runDaemonMode example_ext ["foo"; "CALC x"]))
    = 2%nat.
Proof.
  split; [by vm_compute|].
  refine (proj2 (one_response_per_line example_ext ["foo"; "CALC x"] _ _)).
  - apply (bool_decide_unpack _). by vm_compute.
  - apply (bool_decide_unpack _). by vm_compute.
Defined.

(** X8 at a preflop request with two opponents. *)
Lemma simulation_arguments_validated_witness :
  Simulation 100 [] [["As"; "Kh"]] 2
    ∈ runDaemonMode example_ext ["CALC |As,Kh|2|100"]
  ∧ ∃ hole_cards,
      [["As"; "Kh"]] = [hole_cards]
      ∧ length hole_cards = 2%nat
      ∧ NoDup ([] ++ hole_cards)
      ∧ Forall (λ card, isValidCard card = true) ([] ++ hole_cards).
Proof.
  assert (Simulation 100 [] [["As"; "Kh"]] 2
            ∈ runDaemonMode example_ext ["CALC |As,Kh|2|100"]) as Hin
    by (vm_compute; do 5 right; left).
  split; [exact Hin|].
  apply (simulation_arguments_validated example_ext _ _ _ _ _ Hin).
Defined.

(** X10 at a flop, one known hand and one opponent. *)
Lemma fill_empty_deals_remaining_witness :
  ∃ samples,
    fill_empty example_draw 2 [0; 1; 2] [[3; 4]] 1 = Ok samples []
    ∧ Forall (Forall (λ card, 0 <= card < 52 ∧ (card ∉ [0; 1; 2])
                ∧ ∀ hand, hand ∈ [[3; 4]] → card ∉ hand)) samples.
Proof.
  destruct (fill_empty_deals_remaining example_draw 2 [0; 1; 2] [[3; 4]] 1)
    as (samples & Hfill & _ & Hcards & _).
  - simpl. lia.
  - apply (bool_decide_unpack _). by vm_compute.
  - apply (bool_decide_unpack _). by vm_compute.
  - by exists samples.
Defined.

(** X11 at the twenty steps of the reference table on a sorted selection. *)
Lemma incremental_key_correct_witness :
  to_ckey example_sim [8; 17; 20; 33; 40] = Ok 10 [].
Proof.
  apply (incremental_key_correct example_sim [3; 8; 17; 20; 33; 40; 51] 20 0
           {| es_key := 21; es_hand := [17; 20; 33; 40; 51]; es_max := 0 |}
           {| es_key := 10; es_hand := [8; 17; 20; 33; 40]; es_max := 32 |} []).
  - by vm_compute.
  - by vm_compute.
Defined.

(** X12 at a trial on a flop: the turn and the river come from the sample. *)
Lemma trial_keeps_board_witness :
  trial example_sim [[30; 33]] 2 [8; 10; 7; 40; 11; 12]
    ([2; 4; 6; 0; 0; 0; 0], [[0; 0]; [0; 0]; [0; 0]])
  = Ok ([2; 4; 6; 10; 8; 11; 12], [[0; 0]; [1; 0]; [0; 0]]) []
  ∧ take 5 [2; 4; 6; 10; 8; 11; 12]
    = [2; 4; 6] ++ reverse (take (5 - length [2; 4; 6]) [8; 10; 7; 40; 11; 12]).
Proof.
  assert (trial example_sim [[30; 33]] 2 [8; 10; 7; 40; 11; 12]
            ([2; 4; 6; 0; 0; 0; 0], [[0; 0]; [0; 0]; [0; 0]])
          = Ok ([2; 4; 6; 10; 8; 11; 12], [[0; 0]; [1; 0]; [0; 0]]) [])
    as Htrial by (by vm_compute).
  split; [exact Htrial|].
  refine (proj2 (trial_keeps_board example_sim [[30; 33]] [2; 4; 6]
                   [8; 10; 7; 40; 11; 12] [2; 4; 6; 0; 0; 0; 0]
                   [[0; 0]; [0; 0]; [0; 0]] _ _ [] _ _ _ _ Htrial)).
  - simpl. lia.
  - simpl. lia.
  - reflexivity.
  - reflexivity.
Defined.

(** X13 at the seats of that trial. *)
Lemma simulate_winners_nonempty_witness :
  ([1] = [] ↔ [(0, 17); (1, 29); (2, 25)] = [])
  ∧ ∀ w, w ∈ [1] → (w, 29) ∈ [(0, 17); (1, 29); (2, 25)].
Proof.
  apply (simulate_winners_nonempty example_sim [2; 4; 6; 10; 8; 0; 0] [[30; 33]]
           [8; 10; 7; 40; 11; 12] 2
           {| ss_selection := [2; 4; 6; 10; 8; 11; 12]; ss_max := 29;
              ss_winners := [1]; ss_seats := [(0, 17); (1, 29); (2, 25)] |} []).
  - by vm_compute.
  - simpl. lia.
Defined.

(** X14 at three trials on a flop, one known hand and two opponents. *)
Lemma calculate_counters_bounded_witness :
  calculate example_sim example_draw 3 [2; 4; 6] [[30; 33]] 2
  = Ok (inr [[0; 0]; [1; 2]; [0; 2]]) []
  ∧ ∃ results, @inr exn _ [[0; 0]; [1; 2]; [0; 2]] = inr results
      ∧ length results = 3%nat ∧ tally_inv 3 results.
Proof.
  assert (calculate example_sim example_draw 3 [2; 4; 6] [[30; 33]] 2
          = Ok (inr [[0; 0]; [1; 2]; [0; 2]]) []) as Hcalc by (by vm_compute).
  split; [exact Hcalc|].
  refine (calculate_counters_bounded example_sim example_draw 3 [2; 4; 6]
            [[30; 33]] 2
            [[0; 1; 3; 5; 7; 8]; [1; 3; 5; 7; 8; 9]; [3; 5; 7; 8; 9; 10]]
            [] _ [] _ _ _ _ _ Hcalc).
  - by vm_compute.
  - done.
  - simpl. lia.
  - repeat constructor; simpl; lia.
  - simpl. lia.
Defined.

(** X15 at a preflop request, with the codec of [main.cpp]. *)
Lemma daemon_pool_size_witness :
  Simulation 100 [] [["As"; "Kh"]] 2
    ∈ (handle_calc example_ext 0 "CALC |As,Kh|2|100").1
  ∧ Z.of_nat (length (get_remaining [] [[51; 37]])) = 50.
Proof.
  assert (Simulation 100 [] [["As"; "Kh"]] 2
            ∈ (handle_calc example_ext 0 "CALC |As,Kh|2|100").1) as Hin
    by (vm_compute; left).
  split; [exact Hin|].
  exact (proj1 (daemon_pool_size example_ext cardStrToInt_range cardStrToInt_inj
                  0 _ _ _ _ _ Hin)).
Defined.

(** X16 at a vector of three integers, the file not existing before. *)
Lemma write_read_round_trip_witness :
  read_vect (write_vect [1; -1; 2147483647] true None).1
  = Ok [1; -1; 2147483647] [].
Proof.
  refine (proj2 (write_read_round_trip [1; -1; 2147483647] None _ _ _)).
  - done.
  - repeat constructor; lia.
  - simpl. lia.
Defined.

(** X17 at the request of C2 and the same request without a board. *)
Lemma invalid_board_handled_as_empty_witness :
  ∃ bad,
    isValidCard bad = false
    ∧ (handle_calc example_ext 0 "CALC Xx|As,Kh|2|100").2
      = (handle_calc example_ext 0 "CALC |As,Kh|2|100").2
    ∧ ((handle_calc example_ext 0 "CALC Xx|As,Kh|2|100").1
       = (handle_calc example_ext 0 "CALC |As,Kh|2|100").1
       ∨ (handle_calc example_ext 0 "CALC Xx|As,Kh|2|100").1
         = Stderr (ErrInvalidCard bad)
           :: (handle_calc example_ext 0 "CALC |As,Kh|2|100").1).
Proof.
  apply (invalid_board_handled_as_empty example_ext 0 "CALC Xx|As,Kh|2|100"
           "CALC |As,Kh|2|100" "Xx" "As,Kh" "2" "100").
  - reflexivity.
  - reflexivity.
  - apply (bool_decide_unpack _). by vm_compute.
Defined.

(** X18 at two hands. *)
Lemma convertHandsToInt_codes_witness :
  convertHandsToInt [["As"; "Kh"]; ["2c"; "7d"]] = [[51; 37]; [0; 18]]
  ∧ NoDup (concat (convertHandsToInt [["As"; "Kh"]; ["2c"; "7d"]])).
Proof.
  split; [by vm_compute|].
  refine (proj2 (proj2 (convertHandsToInt_codes [["As"; "Kh"]; ["2c"; "7d"]] _ _))).
  - apply (bool_decide_unpack _). by vm_compute.
  - apply (bool_decide_unpack _). by vm_compute.
Defined.

(** X19 at a run of sixteen known hands against eight opponents. *)
Lemma legacy_simulation_validated_witness :
  ∃ known_hands,
    Simulated 100000 [] known_hands 8 ∈ runLegacyMode example_ext crowded_args
    ∧ length known_hands = 16%nat
    ∧ Forall (λ hand, length hand = 2%nat) known_hands
    ∧ NoDup ([] ++ concat known_hands).
Proof.
  eexists.
  assert (Simulated 100000 [] _ 8 ∈ runLegacyMode example_ext crowded_args) as Hin
    by (vm_compute; right; left).
  split; [exact Hin|]. split; [reflexivity|].
  destruct (legacy_simulation_validated example_ext _ _ _ _ _ Hin)
    as (_ & _ & _ & _ & Hpairs & Hnd & _).
  by split.
Defined.

(** X20 at a board with an invalid card. *)
Lemma legacy_invalid_board_as_empty_witness :
  ∃ bad,
    isValidCard bad = false
    ∧ runLegacyMode example_ext ["9c,Xx"; "Ad,Kh"; "2"]
      = Diagnostic (ErrInvalidCard bad)
        :: runLegacyMode example_ext [EmptyString; "Ad,Kh"; "2"].
Proof.
  apply (legacy_invalid_board_as_empty example_ext "9c,Xx" "Ad,Kh" "2" []).
  apply (bool_decide_unpack _). by vm_compute.
Defined.

(** X21 at that run, with the codec of [main.cpp]: 16 hands and 8
    opponents are 24. *)
Lemma legacy_not_enough_cards_witness :
  Diagnostic ErrNotEnoughCards ∈ runLegacyMode example_ext crowded_args.
Proof.
  assert (∃ known_hands,
            Simulated 100000 [] known_hands 8
              ∈ runLegacyMode example_ext crowded_args
            ∧ length known_hands = 16%nat) as (known_hands & Hin & Hlen).
  { eexists. split; [vm_compute; right; left|reflexivity]. }
  apply (proj1 (legacy_not_enough_cards example_ext cardStrToInt_range
                  cardStrToInt_inj _ _ _ _ _ Hin)).
  rewrite Hlen. lia.
Defined.


(** X24 at a sample of six cards read from its third position. *)
Lemma simulate_unknown_fuel_witness :
  simulate_unknown example_sim 1 [8; 10; 7; 40; 11; 12] 2
    (S (length [8; 10; 7; 40; 11; 12]) + 5) 0
    {| ss_selection := [2; 4; 6; 10; 8; 0; 0]; ss_max := 0;
       ss_winners := []; ss_seats := [] |}
  = simulate_unknown example_sim 1 [8; 10; 7; 40; 11; 12] 2
      (S (length [8; 10; 7; 40; 11; 12])) 0
      {| ss_selection := [2; 4; 6; 10; 8; 0; 0]; ss_max := 0;
         ss_winners := []; ss_seats := [] |}.
Proof.
  apply (simulate_unknown_fuel example_sim 1 [8; 10; 7; 40; 11; 12] 2 5).
  - lia.
  - simpl. lia.
Defined.

(** X26 at three trials on a flop, one known hand and two opponents, and
    at a call with one known hand and -2 unknown players. *)
Lemma calculate_memory_safe_witness :
  (∃ outcome log,
     calculate example_sim example_draw 3 [2; 4; 6] [[30; 33]] 2 = Ok outcome log
     ∧ ∃ results, outcome = inr results)
  ∧ (∃ outcome log,
       calculate example_sim example_draw 3 [] [[30; 33]] (-2) = Ok outcome log
       ∧ outcome = inl LengthError).
Proof.
  split.
  - destruct (calculate_memory_safe example_sim example_draw 3 [2; 4; 6]
                [[30; 33]] 2) as (outcome & log & Hcalc & Hseats & _).
    + apply (bool_decide_unpack _). by vm_compute.
    + simpl. lia.
    + simpl. lia.
    + lia.
    + apply (bool_decide_unpack _). by vm_compute.
    + apply (bool_decide_unpack _). by vm_compute.
    + exists outcome, log. split; [exact Hcalc|]. apply Hseats. simpl. lia.
  - destruct (calculate_memory_safe example_sim example_draw 3 []
                [[30; 33]] (-2)) as (outcome & log & Hcalc & _ & Hneg).
    + apply (bool_decide_unpack _). by vm_compute.
    + simpl. lia.
    + simpl. lia.
    + lia.
    + apply (bool_decide_unpack _). by vm_compute.
    + apply (bool_decide_unpack _). by vm_compute.
    + exists outcome, log. split; [exact Hcalc|].
      specialize (Hneg ltac:(simpl; lia)).
      rewrite bool_decide_eq_false_2 in Hneg; [exact Hneg|].
      intros [Hc|Hd]; [by vm_compute in Hc|by vm_compute in Hd].
Defined.

Lemma example_ext_count n N c m :
  1 <= N → 1 <= Z.of_nat (length (gen_samples example_ext n N c m)) <= N.
Proof.
  intros HN. cbn [gen_samples example_ext]. unfold example_draw.
  rewrite length_fmap, length_seqZ. lia.
Qed.

Lemma example_ext_cards n N c m :
  Forall (λ sample, Z.of_nat (length sample) <= Z.max 0 c)
    (gen_samples example_ext n N c m).
Proof.
  cbn [gen_samples example_ext]. unfold example_draw.
  apply Forall_fmap, Forall_forall. intros k _. unfold compose.
  rewrite length_fmap, length_seqZ. lia.
Qed.

(** X27 at a session of a request and an unknown command. *)
Lemma daemon_never_undefined_witness :
  Forall (λ e, is_undefined e = false)
    (runDaemonMode example_ext ["CALC |As,Kh|2|100"; "foo"]).
Proof.
  apply (daemon_never_undefined example_ext).
  - apply (bool_decide_unpack _). by vm_compute.
  - apply example_ext_count.
  - apply example_ext_cards.
Defined.

(** X28 at a preflop request with two opponents. *)
Lemma daemon_rates_bounded_witness :
  ∃ wins ties,
    Stdout (Success wins ties 100)
      ∈ runDaemonMode example_ext ["CALC |As,Kh|2|100"]
    ∧ 0 <= wins ∧ 0 <= ties ∧ wins + ties <= 100.
Proof.
  eexists _, _.
  assert (Stdout (Success _ _ 100)
            ∈ runDaemonMode example_ext ["CALC |As,Kh|2|100"]) as Hin
    by (vm_compute; do 6 right; left).
  split; [exact Hin|].
  destruct (daemon_rates_bounded example_ext
              ltac:(apply (bool_decide_unpack _); by vm_compute)
              example_ext_count example_ext_cards _ _ _ _ Hin)
    as (? & ? & ? & _).
  by split_and!.
Defined.
